(** * Fast large-document ingestion pipeline

    A shallow embedding of [fast_large_document_processor.py]: streaming
    page extraction, chunking on blank-line boundaries, keyword relevance
    selection, cached batch embedding, batched upload, and the orchestrating
    pipeline with its statistics record.
    The endpoints of [api_fast_uploads.py] that run the pipeline and report
    on its jobs are embedded as well.

    Conventions.
    - A Python [str] is the list of its code points ([pystr]).
    - A Python [int] is a [Z]; lengths and list indices are [nat].
    - Chunk dictionaries are mutable objects shared between lists: they live
      in a store ([heap]) and lists hold references ([loc]).
    - An embedding vector is the list of the IEEE-754 bit patterns of its
      components, so equality of vectors is bit-for-bit equality.
    - A Python [float] is a binary64 number ([PrimFloat.float]); bytes are
      lists of [Byte.byte].
    - Collaborators outside the repository (case folding, MD5, the embedding
      model, the vector index) are type-class parameters; the environment
      and the clock are arguments of the pipeline. *)

From Stdlib Require Import ZArith List Lia Bool String Ascii DecimalString.
From Stdlib Require Import Sorted Permutation.
From Stdlib Require Floats Uint63 Strings.Byte.
From stdpp Require Import gmap list list_numbers strings.

(* ===================================================================== *)
(** ** Python strings *)
(* ===================================================================== *)

Module PyStr.

Definition pystr := list N.

(** [str.isspace] on one code point: the Unicode white-space characters
    recognised by CPython. *)
Definition py_isspace (c : N) : bool :=
  ((9 <=? c) && (c <=? 13) || (28 <=? c) && (c <=? 32) || (c =? 133)
   || (c =? 160) || (c =? 5760) || (8192 <=? c) && (c <=? 8202)
   || (c =? 8232) || (c =? 8233) || (c =? 8239) || (c =? 8287)
   || (c =? 12288))%N.

Definition NL : N := 10%N.

(** Literals for examples: a Rocq string read as Latin-1 code points. *)
Fixpoint lit (s : string) : pystr :=
  match s with
  | EmptyString => []
  | String a s' => N_of_ascii a :: lit s'
  end.

Definition py_len (s : pystr) : Z := Z.of_nat (length s).

(** Truthiness of a [str]: non-empty. *)
Definition truthy (s : pystr) : bool :=
  match s with [] => false | _ :: _ => true end.

Fixpoint lstrip (s : pystr) : pystr :=
  match s with
  | [] => []
  | c :: s' => if py_isspace c then lstrip s' else s
  end.

Definition rstrip (s : pystr) : pystr := rev (lstrip (rev s)).

(** [s.strip()] *)
Definition strip (s : pystr) : pystr := rstrip (lstrip s).

Definition cons_head (c : N) (l : list pystr) : list pystr :=
  match l with
  | [] => [[c]]
  | x :: xs => (c :: x) :: xs
  end.

(** [s.split('\n\n')]: non-overlapping occurrences of two line feeds,
    scanned left to right; the result always has at least one field. *)
Fixpoint split_nn (s : pystr) : list pystr :=
  match s with
  | [] => [[]]
  | c :: s' =>
      match s' with
      | d :: s'' =>
          if ((c =? NL) && (d =? NL))%N then [] :: split_nn s''
          else cons_head c (split_nn s')
      | [] => [[c]]
      end
  end.

(** [s.split()]: fields separated by runs of white space, no empty field. *)
Fixpoint split_ws_aux (s : pystr) (cur : pystr) : list pystr :=
  match s with
  | [] => if truthy cur then [rev cur] else []
  | c :: s' =>
      if py_isspace c
      then (if truthy cur then rev cur :: split_ws_aux s' [] else split_ws_aux s' [])
      else split_ws_aux s' (c :: cur)
  end.

Definition split_ws (s : pystr) : list pystr := split_ws_aux s [].

Fixpoint starts_with (p s : pystr) : bool :=
  match p, s with
  | [], _ => true
  | _ :: _, [] => false
  | a :: p', b :: s' => (a =? b)%N && starts_with p' s'
  end.

(** [sub in s] *)
Fixpoint contains (sub s : pystr) : bool :=
  starts_with sub s ||
  match s with
  | [] => false
  | _ :: s' => contains sub s'
  end.

(** Lower-casing of the ASCII letters; used to instantiate [str.lower] on
    ASCII examples, where the two agree. *)
Definition ascii_lower (s : pystr) : pystr :=
  map (fun c => if ((65 <=? c) && (c <=? 90))%N then (c + 32)%N else c) s.

(** The text with every white-space character removed. *)
Definition remove_ws (s : pystr) : pystr :=
  List.filter (fun c => negb (py_isspace c)) s.

(** ["\n\n".join(g)] *)
Fixpoint join_nn (g : list pystr) : pystr :=
  match g with
  | [] => []
  | [x] => x
  | x :: g' => x ++ NL :: NL :: join_nn g'
  end.

End PyStr.
Export PyStr.

(* ===================================================================== *)
(** ** Exceptions and results *)
(* ===================================================================== *)

Inductive exn : Type :=
| ZeroDivisionError (msg : string)
| KeyError (key : string)
| IndexError
| ValueError (msg : string)
| UnicodeEncodeError (msg : string)
| Exception (msg : string).

(** [str(e)] *)
Definition exn_str (e : exn) : string :=
  match e with
  | ZeroDivisionError m => m
  | KeyError k => k
  | IndexError => "list index out of range"
  | ValueError m => m
  | UnicodeEncodeError m => m
  | Exception m => m
  end.

Inductive result (A : Type) : Type :=
| Ok (a : A)
| Raise (e : exn).
Arguments Ok {A} a.
Arguments Raise {A} e.

Definition rbind {A B} (r : result A) (k : A -> result B) : result B :=
  match r with
  | Ok a => k a
  | Raise e => Raise e
  end.

(** A loop or comprehension that computes one item per element, in order,
    and stops at the first exception. *)
Fixpoint collect {A B} (f : A -> result B) (l : list A) : result (list B) :=
  match l with
  | [] => Ok []
  | x :: l' => rbind (f x) (fun y => rbind (collect f l') (fun ys => Ok (y :: ys)))
  end.

(** A loop that updates a state once per element, in order, and stops at
    the first exception. *)
Fixpoint fold_result {A S} (f : S -> A -> result S) (l : list A) (s : S) : result S :=
  match l with
  | [] => Ok s
  | x :: l' => rbind (f s x) (fold_result f l')
  end.

(** [str(n)] and [repr(s)] as they appear in the message of a [KeyError]. *)
Definition nat_str (n : nat) : string := NilEmpty.string_of_uint (Nat.to_uint n).
Definition quoted (s : string) : string := ("'" ++ s ++ "'")%string.

(* ===================================================================== *)
(** ** [str.encode] *)
(* ===================================================================== *)

Module Encoding.

(** The code points U+D800 to U+DFFF, which UTF-8 does not encode. *)
Definition is_surrogate (c : N) : bool := ((55296 <=? c) && (c <=? 57343))%N.

Definition byte_of (n : N) : Byte.byte := default Byte.x00 (Byte.of_N n).

(** The UTF-8 bytes of one code point (code points are below 0x110000). *)
Definition utf8_char (c : N) : list Byte.byte :=
  if (c <? 128)%N then [byte_of c]
  else if (c <? 2048)%N then
    [byte_of (192 + c / 64); byte_of (128 + c mod 64)]
  else if (c <? 65536)%N then
    [byte_of (224 + c / 4096); byte_of (128 + (c / 64) mod 64); byte_of (128 + c mod 64)]
  else
    [byte_of (240 + c / 262144); byte_of (128 + (c / 4096) mod 64);
     byte_of (128 + (c / 64) mod 64); byte_of (128 + c mod 64)].

Definition utf8 (s : pystr) : list Byte.byte := flat_map utf8_char s.

(** The number of surrogates at the head of a text. *)
Fixpoint surrogate_prefix (s : pystr) : nat :=
  match s with
  | [] => 0
  | c :: s' => if is_surrogate c then S (surrogate_prefix s') else 0
  end.

(** The first run of surrogates of a text whose first code point has
    position [i]: its position, its first code point and its length. *)
Fixpoint surrogate_run (s : pystr) (i : nat) : option (nat * N * nat) :=
  match s with
  | [] => None
  | c :: s' =>
      if is_surrogate c then Some (i, c, surrogate_prefix s)
      else surrogate_run s' (S i)
  end.

Definition hex_digit (n : N) : ascii :=
  nth (N.to_nat n)
      ["0"; "1"; "2"; "3"; "4"; "5"; "6"; "7"; "8"; "9"; "a"; "b"; "c"; "d"; "e"; "f"]%char
      "0"%char.

(** ['%04x' % c] *)
Definition hex4 (c : N) : string :=
  String (hex_digit ((c / 4096) mod 16))
    (String (hex_digit ((c / 256) mod 16))
       (String (hex_digit ((c / 16) mod 16))
          (String (hex_digit (c mod 16)) EmptyString))).

(** [str(e)] of the [UnicodeEncodeError] for a run of surrogates. *)
Definition surrogate_message (start : nat) (c : N) (len : nat) : string :=
  if len =? 1
  then ("'utf-8' codec can't encode character '\u" ++ hex4 c ++ "' in position "
        ++ nat_str start ++ ": surrogates not allowed")%string
  else ("'utf-8' codec can't encode characters in position "
        ++ nat_str start ++ "-" ++ nat_str (start + len - 1)
        ++ ": surrogates not allowed")%string.

(** [s.encode()] *)
Definition py_encode (s : pystr) : result (list Byte.byte) :=
  match surrogate_run s 0 with
  | Some (start, c, len) => Raise (UnicodeEncodeError (surrogate_message start c len))
  | None => Ok (utf8 s)
  end.

End Encoding.
Export Encoding.

(* ===================================================================== *)
(** ** Floats *)
(* ===================================================================== *)

Module PyFloat.

Definition float : Set := PrimFloat.float.

(** [float(z)] for an int below 2^53 in absolute value, where the
    conversion is exact; the lengths of lists are such ints. *)
Definition float_of_Z (z : Z) : float :=
  match z with
  | Zneg p => PrimFloat.opp (PrimFloat.of_uint63 (Uint63.of_Z (Zpos p)))
  | _ => PrimFloat.of_uint63 (Uint63.of_Z z)
  end.

Definition float_of_nat (n : nat) : float := float_of_Z (Z.of_nat n).

(** [x == 0.0] *)
Definition is_zero (x : float) : bool := PrimFloat.eqb x PrimFloat.zero.

Definition Z_digits (z : Z) : string :=
  match z with
  | Zpos p => NilEmpty.string_of_uint (Pos.to_uint p)
  | _ => "0"
  end.

Fixpoint zeros (n : nat) : string :=
  match n with
  | O => EmptyString
  | S n' => String "0" (zeros n')
  end.

(** The quotient [p / q] rounded to the nearest integer, ties to even. *)
Definition round_half_even (p q : Z) : Z :=
  let n := (p / q)%Z in
  let r := (p mod q)%Z in
  if ((2 * r >? q) || ((2 * r =? q) && Z.odd n))%Z then (n + 1)%Z else n.

(** [n / 10^d] written with [d] decimals. *)
Definition fixed_digits (d : nat) (n : Z) : string :=
  let scale := (10 ^ Z.of_nat d)%Z in
  let frac := Z_digits (n mod scale) in
  (Z_digits (n / scale)
   ++ match d with
      | O => ""
      | S _ => "." ++ zeros (d - String.length frac) ++ frac
      end)%string.

(** [format(x, '.<d>f')]: the exact value of the double, rounded to [d]
    decimals with ties to even. *)
Definition format_f (d : nat) (x : float) : string :=
  let sign (s : bool) : string := if s then "-"%string else ""%string in
  match FloatOps.Prim2SF x with
  | SpecFloat.S754_zero s => (sign s ++ fixed_digits d 0)%string
  | SpecFloat.S754_infinity s => (sign s ++ "inf")%string
  | SpecFloat.S754_nan => "nan"%string
  | SpecFloat.S754_finite s m e =>
      let scale := (10 ^ Z.of_nat d)%Z in
      let n := if (0 <=? e)%Z then (Zpos m * 2 ^ e * scale)%Z
               else round_half_even (Zpos m * scale) (2 ^ (- e)) in
      (sign s ++ fixed_digits d n)%string
  end.

End PyFloat.
Export PyFloat.

(* ===================================================================== *)
(** ** Chunks and [intelligent_chunk_split] *)
(* ===================================================================== *)

(** An embedding: bit patterns of its float components. *)
Definition vector := list Z.

(** The chunk dictionary. [chunk_id] and [chunk_text] are always present;
    the other keys may be absent. *)
Record Chunk : Type := mkChunk {
  chunk_id : Z;
  chunk_text : pystr;
  char_count : option Z;
  relevance_score : option Z;
  embedding : option vector
}.

Definition new_chunk (id : Z) (current_chunk : pystr) : Chunk :=
  {| chunk_id := id;
     chunk_text := strip current_chunk;
     char_count := Some (py_len current_chunk);
     relevance_score := None;
     embedding := None |}.

Module Chunking.

Record split_state : Type := mkSplit {
  chunks : list Chunk;
  current_chunk : pystr;
  next_id : Z
}.

Definition split_init : split_state :=
  {| chunks := []; current_chunk := []; next_id := 0 |}.

(** Body of the inner [for section in sections] loop. *)
Definition add_section (max_chunk_chars : Z) (st : split_state) (section : pystr)
  : split_state :=
  if negb (truthy (strip section)) then st
  else if ((py_len (current_chunk st) + py_len section >? max_chunk_chars)%Z
           && truthy (current_chunk st))
  then {| chunks := chunks st ++ [new_chunk (next_id st) (current_chunk st)];
          current_chunk := section;
          next_id := (next_id st + 1)%Z |}
  else {| chunks := chunks st;
          current_chunk :=
            if truthy (current_chunk st)
            then current_chunk st ++ NL :: NL :: section
            else section;
          next_id := next_id st |}.

(** Body of the outer [for page_text in texts] loop. *)
Definition add_page (max_chunk_chars : Z) (st : split_state) (page_text : pystr)
  : split_state :=
  fold_left (add_section max_chunk_chars) (split_nn page_text) st.

Definition finish (st : split_state) : list Chunk :=
  if truthy (strip (current_chunk st))
  then chunks st ++ [new_chunk (next_id st) (current_chunk st)]
  else chunks st.

Definition intelligent_chunk_split (texts : list pystr) (max_chunk_chars : Z)
  : list Chunk :=
  finish (fold_left (add_page max_chunk_chars) texts split_init).

(** The sections the loops do not skip. *)
Definition keep (sections : list pystr) : list pystr :=
  List.filter (fun s => truthy (strip s)) sections.

(** The sections of a document, in reading order: the blank-line separated
    fields of every page, without the white-space-only ones. *)
Definition kept_sections (texts : list pystr) : list pystr :=
  keep (concat (map split_nn texts)).

End Chunking.
Export Chunking.

(* ===================================================================== *)
(** ** The store of chunk dictionaries *)
(* ===================================================================== *)

Module Store.

Definition loc := nat.

(** Every reference denotes an object, so the store is a total map. *)
Definition heap := loc -> Chunk.

Definition with_relevance_score (c : Chunk) (score : Z) : Chunk :=
  {| chunk_id := chunk_id c;
     chunk_text := chunk_text c;
     char_count := char_count c;
     relevance_score := Some score;
     embedding := embedding c |}.

Definition with_embedding (c : Chunk) (e : vector) : Chunk :=
  {| chunk_id := chunk_id c;
     chunk_text := chunk_text c;
     char_count := char_count c;
     relevance_score := relevance_score c;
     embedding := Some e |}.

Definition heap_update (h : heap) (l : loc) (c : Chunk) : heap :=
  fun l' => if Nat.eqb l' l then c else h l'.

Definition empty_chunk : Chunk :=
  {| chunk_id := 0; chunk_text := []; char_count := None;
     relevance_score := None; embedding := None |}.

(** Freshly created dictionaries, one object per list position. *)
Definition heap_of_list (cs : list Chunk) : heap :=
  fun l => nth l cs empty_chunk.

End Store.
Export Store.

(* ===================================================================== *)
(** ** Python list helpers *)
(* ===================================================================== *)

Module PyList.

(** [l[:k]] *)
Definition py_slice_to {A} (l : list A) (k : Z) : list A :=
  if (0 <=? k)%Z then firstn (Z.to_nat k) l
  else firstn (Z.to_nat (Z.of_nat (length l) + k)) l.

(** Insertion into a list that is in descending key order, before the first
    entry whose key is not greater. *)
Fixpoint insert_desc {A} (k : Z) (x : A) (l : list (Z * A)) : list (Z * A) :=
  match l with
  | [] => [(k, x)]
  | (k', y) :: l' =>
      if (k <? k')%Z then (k', y) :: insert_desc k x l' else (k, x) :: l
  end.

(** [list.sort(key=..., reverse=True)] on the decorated list: descending
    keys, equal keys in their original order. *)
Fixpoint sort_desc {A} (l : list (Z * A)) : list (Z * A) :=
  match l with
  | [] => []
  | (k, x) :: l' => insert_desc k x (sort_desc l')
  end.

Fixpoint range_aux (fuel i stop step : nat) : list nat :=
  match fuel with
  | O => []
  | S fuel' => if i <? stop then i :: range_aux fuel' (i + step) stop step else []
  end.

(** [range(start, stop, step)] for a positive step. *)
Definition py_range (start stop step : nat) : list nat :=
  range_aux stop start stop step.

End PyList.
Export PyList.

(* ===================================================================== *)
(** ** Relevance selection *)
(* ===================================================================== *)

(** [str.lower] *)
Class CaseFolding := { lower : pystr -> pystr }.

Module Selection.
Section WithLower.
Context `{CaseFolding}.

Definition important_terms : list pystr :=
  map lit ["term"; "liability"; "payment"; "confidential"; "termination";
           "indemnif"; "compliance"; "risk"; "breach"; "obligation"]%string.

Definition bump (text_lower : pystr) (points : Z) (score : Z) (needle : pystr) : Z :=
  if contains needle text_lower then (score + points)%Z else score.

(** The score the loop body computes for one chunk. *)
Definition relevance (keyword_lower : list pystr) (c : Chunk) : Z :=
  let text_lower := lower (chunk_text c) in
  let score := if (chunk_id c =? 0)%Z then 100%Z else 0%Z in
  let score := fold_left (bump text_lower 50) keyword_lower score in
  let score := fold_left (bump text_lower 10) important_terms score in
  if contains (lit "term") text_lower || contains (lit "condition") text_lower
  then (score + 20)%Z else score.

(** Body of [for chunk in chunks]. *)
Definition select_step (keyword_lower : list pystr) (st : heap * list loc) (chunk : loc)
  : heap * list loc :=
  let score := relevance keyword_lower (st.1 chunk) in
  if (score >? 0)%Z
  then (heap_update st.1 chunk (with_relevance_score (st.1 chunk) score), st.2 ++ [chunk])
  else st.

(** The sort keys [x["relevance_score"]]; a missing key raises. *)
Definition sort_keys (h : heap) (selected : list loc) : result (list Z) :=
  collect (fun l => match relevance_score (h l) with
                    | Some score => Ok score
                    | None => Raise (KeyError (quoted "relevance_score"))
                    end) selected.

Definition select_most_relevant_chunks
    (h : heap) (chunks : list loc) (query_keywords : list pystr) (top_k : Z)
  : result (heap * list loc) :=
  let keyword_lower := map lower query_keywords in
  let st := fold_left (select_step keyword_lower) chunks (h, []) in
  rbind (sort_keys st.1 st.2)
    (fun keys => Ok (st.1, py_slice_to (map snd (sort_desc (zip keys st.2))) top_k)).

End WithLower.

(** The branch of the pipeline taken when no query is given. *)
Definition no_query_selection {A} (chunks : list A) : result (list A) :=
  let selected_chunks := match chunks with [] => [] | c :: _ => [c] end in
  let step := Nat.max 1 (length chunks / 10) in
  rbind (collect (fun i => match chunks !! i with
                            | Some c => Ok c
                            | None => Raise IndexError
                            end) (py_range 1 (length chunks) step))
    (fun more => Ok (selected_chunks ++ more)).

End Selection.
Export Selection.

(* ===================================================================== *)
(** ** [FastEmbedder] *)
(* ===================================================================== *)

(** [hashlib.md5(b).hexdigest()] *)
Class Digest := { md5_hexdigest : list Byte.byte -> string }.

(** [hashlib.md5(text.encode()).hexdigest()] *)
Definition text_md5 `{Digest} (text : pystr) : result string :=
  rbind (py_encode text) (fun b => Ok (md5_hexdigest b)).

(** [model.encode]: the vectors returned by the n-th invocation (counted
    from 0) on a list of texts, or the exception it raises. *)
Class EmbeddingModel := { model_encode : nat -> list pystr -> result (list vector) }.

Module Embedder.

(** The instance attributes, and the list of inputs the model has been
    invoked on so far (its length numbers the next invocation). *)
Record FastEmbedder : Type := mkEmbedder {
  model_loaded : bool;
  embedding_cache : gmap string vector;
  encode_calls : list (list pystr)
}.

Definition new_embedder : FastEmbedder :=
  {| model_loaded := false; embedding_cache := ∅; encode_calls := [] |}.

Definition load_model (e : FastEmbedder) : FastEmbedder :=
  {| model_loaded := true;
     embedding_cache := embedding_cache e;
     encode_calls := encode_calls e |}.

(** [enumerate(l)] *)
Definition enumerate {A} (l : list A) : list (nat * A) :=
  zip (seq 0 (length l)) l.

Section WithModel.
Context `{Digest} `{EmbeddingModel}.

Record scan_state : Type := mkScan {
  indices_map : gmap nat string;
  uncached_texts : list (nat * pystr * string)
}.

(** Body of the first loop once the hash is known: look it up in the
    cache. *)
Definition scan_hashed (cache : gmap string vector) (st : scan_state)
    (i : nat) (text : pystr) (text_hash : string) : scan_state :=
  match cache !! text_hash with
  | Some _ =>
      {| indices_map := <[i := text_hash]> (indices_map st);
         uncached_texts := uncached_texts st |}
  | None =>
      {| indices_map := indices_map st;
         uncached_texts := uncached_texts st ++ [(i, text, text_hash)] |}
  end.

(** Body of the first loop. *)
Definition scan_step (cache : gmap string vector) (st : scan_state) (it : nat * pystr)
  : result scan_state :=
  rbind (text_md5 it.2) (fun text_hash => Ok (scan_hashed cache st it.1 it.2 text_hash)).

Definition scan_cache (cache : gmap string vector) (texts : list pystr)
  : result scan_state :=
  fold_result (scan_step cache) (enumerate texts)
              {| indices_map := ∅; uncached_texts := [] |}.

(** Body of the loop over [zip(uncached_texts, batch_embeddings)]. *)
Definition store_step (st : gmap string vector * gmap nat vector)
    (it : (nat * pystr * string) * vector) : gmap string vector * gmap nat vector :=
  (<[it.1.2 := it.2]> st.1, <[it.1.1.1 := it.2]> st.2).

(** Body of the last loop: the vector for position [i]. *)
Definition result_at (cache : gmap string vector) (embeddings : gmap nat vector)
    (indices : gmap nat string) (i : nat) : result vector :=
  match embeddings !! i with
  | Some v => Ok v
  | None =>
      match indices !! i with
      | Some text_hash =>
          match cache !! text_hash with
          | Some v => Ok v
          | None => Raise (KeyError (quoted text_hash))
          end
      | None => Raise (KeyError (nat_str i))
      end
  end.

(** The function after its first loop, which has left [sc]. *)
Definition embed_scanned (e : FastEmbedder) (sc : scan_state) (texts : list pystr)
  : result (FastEmbedder * list vector) :=
  let texts_to_embed := map (fun t => t.1.2) (uncached_texts sc) in
  rbind
    (match uncached_texts sc with
     | [] => Ok (e, ∅)
     | _ :: _ =>
         rbind (model_encode (length (encode_calls e)) texts_to_embed)
           (fun batch_embeddings =>
              let st := fold_left store_step (zip (uncached_texts sc) batch_embeddings)
                                  (embedding_cache e, ∅) in
              Ok ({| model_loaded := model_loaded e;
                     embedding_cache := st.1;
                     encode_calls := encode_calls e ++ [texts_to_embed] |}, st.2))
     end)
    (fun '(e', embeddings) =>
       rbind (collect (result_at (embedding_cache e') embeddings (indices_map sc))
                      (seq 0 (length texts)))
         (fun res => Ok (e', res))).

Definition embed_batch (e : FastEmbedder) (texts : list pystr)
  : result (FastEmbedder * list vector) :=
  let e := load_model e in
  rbind (scan_cache (embedding_cache e) texts) (fun sc => embed_scanned e sc texts).

(** Body of the loop of [embed_chunks_parallel]. *)
Definition attach_embedding (h : heap) (it : loc * vector) : heap :=
  heap_update h it.1 (with_embedding (h it.1) it.2).

Definition embed_chunks_parallel (e : FastEmbedder) (h : heap) (chunks : list loc)
  : result (FastEmbedder * heap * list loc) :=
  let texts := map (fun c => chunk_text (h c)) chunks in
  rbind (embed_batch e texts)
    (fun '(e', embeddings) =>
       Ok (e', fold_left attach_embedding (zip chunks embeddings) h, chunks)).

End WithModel.
End Embedder.
Export Embedder.

(* ===================================================================== *)
(** ** [async_upsert_to_pinecone] *)
(* ===================================================================== *)

Record Metadata : Type := mkMetadata {
  md_chunk_text : pystr;
  md_chunk_id : Z;
  md_char_count : Z
}.

(** One [(id, vector, metadata)] triple. *)
Definition vrecord : Type := string * vector * Metadata.

(** The index service. [connect] is [Pinecone(api_key=api_key)] followed by
    [pc.Index(index_name)]: [None] when both return, otherwise the exception
    raised. [upsert] is [index.upsert]: [None] when the n-th call (counted
    from 0) is acknowledged, otherwise the exception it raises. *)
Class VectorIndex := {
  connect : option exn;
  upsert : nat -> list vrecord -> option exn
}.

Module Upload.

Record UploadSummary : Type := mkSummary {
  total_chunks : nat;
  uploaded_chunks : nat;
  upload_status : string
}.

(** Loop state, and the upsert calls issued so far: the records sent and
    whether the call was acknowledged. *)
Record upload_state : Type := mkUpload {
  vectors_to_upsert : list vrecord;
  uploaded_count : nat;
  calls : list (list vrecord * bool)
}.

Section WithIndex.
Context `{Digest} `{VectorIndex}.

(** The f-string of the vector id, given the hex digest. *)
Definition id_of_digest (digest : string) : string := ("chunk_" ++ digest)%string.

Definition vector_id (c : Chunk) : result string :=
  rbind (text_md5 (chunk_text c)) (fun digest => Ok (id_of_digest digest)).

(** The tuple appended for a chunk, given its vector id. *)
Definition record_with (c : Chunk) (emb : vector) (id : string) : vrecord :=
  (id, emb,
   {| md_chunk_text := chunk_text c;
      md_chunk_id := chunk_id c;
      md_char_count := default 0%Z (char_count c) |}).

Definition to_record (c : Chunk) (emb : vector) : result vrecord :=
  rbind (vector_id c) (fun id => Ok (record_with c emb id)).

(** The statement [if len(vectors_to_upsert) >= batch_size: ...], reached
    with [pending] as the list of pending records. *)
Definition upsert_if_full (batch_size : Z) (st : upload_state) (pending : list vrecord)
  : upload_state :=
  if (Z.of_nat (length pending) >=? batch_size)%Z then
    match upsert (length (calls st)) pending with
    | None =>
        {| vectors_to_upsert := [];
           uploaded_count := uploaded_count st + length pending;
           calls := calls st ++ [(pending, true)] |}
    | Some _ =>
        {| vectors_to_upsert := pending;
           uploaded_count := uploaded_count st;
           calls := calls st ++ [(pending, false)] |}
    end
  else
    {| vectors_to_upsert := pending;
       uploaded_count := uploaded_count st;
       calls := calls st |}.

(** Body of [for chunk in chunks]. *)
Definition upsert_step (batch_size : Z) (st : upload_state) (c : Chunk)
  : result upload_state :=
  match embedding c with
  | None => Ok st
  | Some emb =>
      rbind (to_record c emb)
        (fun r => Ok (upsert_if_full batch_size st (vectors_to_upsert st ++ [r])))
  end.

(** The loop: the state it has reached, and the exception that ended it,
    if any. *)
Fixpoint upsert_loop (batch_size : Z) (chunks : list Chunk) (st : upload_state)
  : upload_state * option exn :=
  match chunks with
  | [] => (st, None)
  | c :: rest =>
      match upsert_step batch_size st c with
      | Ok st' => upsert_loop batch_size rest st'
      | Raise e => (st, Some e)
      end
  end.

Definition upload_init : upload_state :=
  {| vectors_to_upsert := []; uploaded_count := 0; calls := [] |}.

Definition summary (chunks : list Chunk) (uploaded : nat) : UploadSummary :=
  {| total_chunks := length chunks;
     uploaded_chunks := uploaded;
     upload_status := if uploaded =? length chunks then "success" else "partial" |}.

(** Returns the upsert calls issued, together with the summary or the
    exception that leaves the function. *)
Definition async_upsert_to_pinecone
    (api_key : bool) (chunks : list Chunk) (batch_size : Z)
  : list (list vrecord * bool) * result UploadSummary :=
  if negb api_key then ([], Raise (ValueError "PINECONE_API_KEY not set"))
  else
    match connect with
    | Some e => ([], Raise e)
    | None =>
        match upsert_loop batch_size chunks upload_init with
        | (st, Some e) => (calls st, Raise e)
        | (st, None) =>
            match vectors_to_upsert st with
            | [] => (calls st, Ok (summary chunks (uploaded_count st)))
            | _ :: _ =>
                match upsert (length (calls st)) (vectors_to_upsert st) with
                | None =>
                    (calls st ++ [(vectors_to_upsert st, true)],
                     Ok (summary chunks
                           (uploaded_count st + length (vectors_to_upsert st))))
                | Some e => (calls st ++ [(vectors_to_upsert st, false)], Raise e)
                end
            end
        end
    end.

End WithIndex.
End Upload.
Export Upload.

(* ===================================================================== *)
(** ** Streaming page extraction *)
(* ===================================================================== *)

Module Streaming.

(** What [PdfReader] makes of a source: it raises, or gives the pages, each
    of which yields its text or raises on [extract_text()]. *)
Definition PdfSource : Type := result (list (result pystr)).

(** A run of a generator: the batches it yields, then how it ends. *)
Definition batches : Type := list (list pystr) * option exn.

(** The [for idx, page in enumerate(reader.pages)] loop. *)
Fixpoint stream_loop (batch_size : Z) (total_pages : nat) (idx : nat)
    (pages : list (result pystr)) (batch : list pystr) : batches :=
  match pages with
  | [] => ([], None)
  | Raise e :: _ => ([], Some e)
  | Ok text :: rest =>
      let batch := batch ++ [text] in
      if ((Z.of_nat (length batch) =? batch_size)
          || (Z.of_nat idx =? Z.of_nat total_pages - 1))%Z
      then
        let r := stream_loop batch_size total_pages (S idx) rest [] in
        (batch :: r.1, r.2)
      else stream_loop batch_size total_pages (S idx) rest batch
  end.

(** The [try ... except Exception as e: raise Exception(prefix + str(e))]
    around the whole body. *)
Definition stream_with (prefix : string) (source : PdfSource) (batch_size : Z) : batches :=
  match source with
  | Raise e => ([], Some (Exception (prefix ++ exn_str e)))
  | Ok pages =>
      let r := stream_loop batch_size (length pages) 0 pages [] in
      (r.1, option_map (fun e => Exception (prefix ++ exn_str e)) r.2)
  end.

Definition stream_pdf_pages (file_path : PdfSource) (batch_size : Z) : batches :=
  stream_with "Error streaming PDF: " file_path batch_size.

Definition stream_upload_file (file_content : PdfSource) (batch_size : Z) : batches :=
  stream_with "Error streaming upload: " file_content batch_size.

End Streaming.
Export Streaming.

(* ===================================================================== *)
(** ** [fast_process_large_document] *)
(* ===================================================================== *)

Module Pipeline.

Record SelectionStats : Type := mkSelectionStats {
  selected_chunks : nat;
  reduction : string
}.

Record EmbeddingStats : Type := mkEmbeddingStats {
  chunks_embedded : nat;
  cached_embeddings : nat
}.

Record Metrics : Type := mkMetrics {
  documents_processed : nat;
  total_pages : nat;
  total_chunks_created : nat;
  chunks_uploaded : nat;
  embedding_reduction : string;
  time_per_page : float;
  throughput : string
}.

(** The [stats] dictionary, without "start_time" and the per-step clock
    readings. *)
Record Stats : Type := mkStats {
  status : string;
  error : option string;
  steps_parsing : option nat;
  steps_chunking : option nat;
  steps_selection : option SelectionStats;
  steps_embedding : option EmbeddingStats;
  steps_upload : option UploadSummary;
  total_time : option float;
  metrics : option Metrics
}.

Definition initial_stats : Stats :=
  {| status := "processing"; error := None; steps_parsing := None;
     steps_chunking := None; steps_selection := None; steps_embedding := None;
     steps_upload := None; total_time := None; metrics := None |}.

Definition set_parsing (v : nat) (s : Stats) : Stats :=
  mkStats (status s) (error s) (Some v) (steps_chunking s) (steps_selection s)
          (steps_embedding s) (steps_upload s) (total_time s) (metrics s).
Definition set_chunking (v : nat) (s : Stats) : Stats :=
  mkStats (status s) (error s) (steps_parsing s) (Some v) (steps_selection s)
          (steps_embedding s) (steps_upload s) (total_time s) (metrics s).
Definition set_selection (v : SelectionStats) (s : Stats) : Stats :=
  mkStats (status s) (error s) (steps_parsing s) (steps_chunking s) (Some v)
          (steps_embedding s) (steps_upload s) (total_time s) (metrics s).
Definition set_embedding (v : EmbeddingStats) (s : Stats) : Stats :=
  mkStats (status s) (error s) (steps_parsing s) (steps_chunking s) (steps_selection s)
          (Some v) (steps_upload s) (total_time s) (metrics s).
Definition set_upload (v : UploadSummary) (s : Stats) : Stats :=
  mkStats (status s) (error s) (steps_parsing s) (steps_chunking s) (steps_selection s)
          (steps_embedding s) (Some v) (total_time s) (metrics s).
Definition set_completed (t : float) (s : Stats) : Stats :=
  mkStats "completed" (error s) (steps_parsing s) (steps_chunking s) (steps_selection s)
          (steps_embedding s) (steps_upload s) (Some t) (metrics s).
Definition set_metrics (v : Metrics) (s : Stats) : Stats :=
  mkStats (status s) (error s) (steps_parsing s) (steps_chunking s) (steps_selection s)
          (steps_embedding s) (steps_upload s) (total_time s) (Some v).
Definition set_error (e : exn) (s : Stats) : Stats :=
  mkStats "error" (Some (exn_str e)) (steps_parsing s) (steps_chunking s)
          (steps_selection s) (steps_embedding s) (steps_upload s) (total_time s)
          (metrics s).

(** Statements of the [try] block: they update [stats] and may raise. *)
Definition M (A : Type) : Type := Stats -> Stats * result A.

Definition ret {A} (a : A) : M A := fun s => (s, Ok a).
Definition bind {A B} (m : M A) (k : A -> M B) : M B :=
  fun s => match m s with
           | (s', Ok a) => k a s'
           | (s', Raise e) => (s', Raise e)
           end.
Definition lift {A} (r : result A) : M A := fun s => (s, r).
Definition record (f : Stats -> Stats) : M unit := fun s => (f s, Ok tt).

Notation "x <- m ;; k" := (bind m (fun x => k))
  (at level 100, m at next level, right associativity).
Notation "m ;;; k" := (bind m (fun _ => k))
  (at level 100, right associativity).

(** [a / b] on two ints below 2^53 in absolute value: the correctly
    rounded quotient. *)
Definition int_truediv (a b : Z) : result float :=
  if (b =? 0)%Z then Raise (ZeroDivisionError "division by zero")
  else Ok (PrimFloat.div (float_of_Z a) (float_of_Z b)).

(** [a / n] on a float and an int: the int is converted, to 0.0 exactly
    when it is 0. *)
Definition float_div_int (a : float) (n : Z) : result float :=
  if (n =? 0)%Z then Raise (ZeroDivisionError "float division by zero")
  else Ok (PrimFloat.div a (float_of_Z n)).

(** [n / b] on an int and a float. *)
Definition int_div_float (n : Z) (b : float) : result float :=
  if is_zero b then Raise (ZeroDivisionError "float division by zero")
  else Ok (PrimFloat.div (float_of_Z n) b).

(** [f"{((total - part) / total * 100):.1f}%"] *)
Definition percent_less (total part : nat) : result string :=
  rbind (int_truediv (Z.of_nat total - Z.of_nat part) (Z.of_nat total))
        (fun q => Ok (format_f 1 (PrimFloat.mul q (float_of_Z 100)) ++ "%")%string).

(** STEP 1: drain the generator into [all_texts]. *)
Definition parse_document (file_path file_content : option PdfSource)
  : result (list pystr) :=
  let drain (b : batches) :=
    match b.2 with
    | None => Ok (concat b.1)
    | Some e => Raise e
    end in
  match file_path, file_content with
  | Some src, _ => drain (stream_pdf_pages src 5)
  | None, Some src => drain (stream_upload_file src 5)
  | None, None => Ok []
  end.

Section WithCollaborators.
Context `{CaseFolding} `{Digest} `{EmbeddingModel} `{VectorIndex}.

(** STEP 3 *)
Definition select_chunks (query : option pystr) (h : heap) (chunks : list loc)
  : result (heap * list loc) :=
  match query with
  | Some (c :: q) =>
      let keywords := split_ws (lower (c :: q)) in
      select_most_relevant_chunks h chunks keywords 15
  | _ => rbind (no_query_selection chunks) (fun sel => Ok (h, sel))
  end.

(** The body of the [try] block. [api_key] tells whether the environment
    has [PINECONE_API_KEY]; [elapsed] is the clock reading
    [time.time() - start_time] taken after the upload. *)
Definition pipeline_body (file_path file_content : option PdfSource)
    (query : option pystr) (api_key : bool) (elapsed : float) : M unit :=
  all_texts <- lift (parse_document file_path file_content) ;;
  record (set_parsing (length all_texts)) ;;;
  let chunks := intelligent_chunk_split all_texts 2000 in
  let refs := seq 0 (length chunks) in
  record (set_chunking (length chunks)) ;;;
  sel <- lift (select_chunks query (heap_of_list chunks) refs) ;;
  red <- lift (percent_less (length chunks) (length sel.2)) ;;
  record (set_selection {| selected_chunks := length sel.2; reduction := red |}) ;;;
  emb <- lift (embed_chunks_parallel new_embedder sel.1 sel.2) ;;
  record (set_embedding
            {| chunks_embedded := length emb.2;
               cached_embeddings := size (embedding_cache emb.1.1) |}) ;;;
  up <- lift (async_upsert_to_pinecone api_key
                (map emb.1.2 emb.2) 100).2 ;;
  record (set_upload up) ;;;
  record (set_completed elapsed) ;;;
  ered <- lift (percent_less (length chunks) (length emb.2)) ;;
  tpp <- lift (float_div_int elapsed (Z.of_nat (length all_texts))) ;;
  thr <- lift (int_div_float (Z.of_nat (length all_texts)) elapsed) ;;
  record (set_metrics
            {| documents_processed := 1;
               total_pages := length all_texts;
               total_chunks_created := length chunks;
               chunks_uploaded := length emb.2;
               embedding_reduction := ered;
               time_per_page := tpp;
               throughput := (format_f 1 thr ++ " pages/second")%string |}).

Definition fast_process_large_document (file_path file_content : option PdfSource)
    (query : option pystr) (api_key : bool) (elapsed : float) : Stats :=
  match pipeline_body file_path file_content query api_key elapsed initial_stats with
  | (stats, Ok _) => stats
  | (stats, Raise e) => set_error e stats
  end.

End WithCollaborators.
End Pipeline.
Export Pipeline.

(* ===================================================================== *)
(** ** Collaborators used in the examples *)
(* ===================================================================== *)

Module Examples.

Definition ascii_folding : CaseFolding := {| lower := ascii_lower |}.

(** A digest without collisions: the bytes themselves, which for an ASCII
    text spell the text. *)
Definition plain_digest : Digest := {| md5_hexdigest := string_of_list_byte |}.

(** A model whose vector for a text records the invocation number and the
    length of the text. *)
Definition length_model : EmbeddingModel :=
  {| model_encode := fun n texts => Ok (map (fun t => [Z.of_nat n; py_len t]) texts) |}.

(** An index that acknowledges every call. *)
Definition steady_index : VectorIndex :=
  {| connect := None; upsert := fun _ _ => None |}.

(** An index that rejects every call. *)
Definition down_index : VectorIndex :=
  {| connect := None; upsert := fun _ _ => Some (Exception "index down") |}.

(** An index that rejects the first call only. *)
Definition flaky_index : VectorIndex :=
  {| connect := None;
     upsert := fun n _ => if Nat.eqb n 0 then Some (Exception "timeout") else None |}.

(** One second on the clock. *)
Definition one_second : float := float_of_Z 1.

Definition plain_chunk (id : Z) (text : string) : Chunk :=
  {| chunk_id := id; chunk_text := lit text; char_count := Some (py_len (lit text));
     relevance_score := None; embedding := None |}.

Definition embedded_chunk (id : Z) (text : string) : Chunk :=
  with_embedding (plain_chunk id text) [id].

End Examples.
Export Examples.

(* ===================================================================== *)
(** ** Vocabulary of the statements *)
(* ===================================================================== *)

Module Vocabulary.

(** A section that the chunking loop does not skip. *)
Definition visible (s : pystr) : Prop := truthy (strip s) = true.

(** Loop invariant of [intelligent_chunk_split]: the closed chunks come from
    the groups [gs] of sections, the buffer from the group [g]. *)
Record split_inv (st : split_state) (gs : list (list pystr)) (g : list pystr) : Prop := {
  inv_texts : map chunk_text (chunks st) = map (fun g => strip (join_nn g)) gs;
  inv_groups : Forall (fun g => g <> []) gs;
  inv_current : current_chunk st = join_nn g;
  inv_visible : Forall visible g
}.

(** A buffer is within reach of the budget: it is one section kept whole, or
    it exceeds the budget by at most the two characters of one separator. *)
Definition near_budget (max_chunk_chars : Z) (whole : pystr -> Prop) (cur : pystr) : Prop :=
  whole cur \/ (py_len cur <= max_chunk_chars + 2)%Z.

Definition chunk_near_budget (max_chunk_chars : Z) (whole : pystr -> Prop) (c : Chunk)
  : Prop :=
  exists cur, char_count c = Some (py_len cur) /\ chunk_text c = strip cur /\
              near_budget max_chunk_chars whole cur.

Definition budget_inv (max_chunk_chars : Z) (whole : pystr -> Prop) (st : split_state)
  : Prop :=
  Forall (chunk_near_budget max_chunk_chars whole) (chunks st) /\
  (current_chunk st = [] \/ near_budget max_chunk_chars whole (current_chunk st)).

(** Orders on decorated entries. *)
Definition ge_key {A} (p q : Z * A) : Prop := (q.1 <= p.1)%Z.

Definition lex_key {A} (ident : A -> Z) (p q : Z * A) : Prop :=
  (q.1 < p.1)%Z \/ (p.1 = q.1 /\ (ident p.2 < ident q.2)%Z).

(** Decorate, sort, undecorate. *)
Definition decorate {A} (f : A -> Z) (l : list A) : list (Z * A) := zip (map f l) l.

Definition sorted_by_key {A} (f : A -> Z) (l : list A) : list A :=
  map snd (sort_desc (decorate f l)).

(** The store after the selection loop has visited [seen]. *)
Definition scored `{CaseFolding} (keyword_lower : list pystr) (h : heap) (seen : list loc)
  : heap :=
  fun l =>
    if existsb (Nat.eqb l) seen && (relevance keyword_lower (h l) >? 0)%Z
    then with_relevance_score (h l) (relevance keyword_lower (h l))
    else h l.

(** A text that [str.encode] accepts: it holds no surrogate. *)
Definition encodable (t : pystr) : bool := forallb (fun c => negb (is_surrogate c)) t.

(** The hex digest of a text that encodes. *)
Definition text_digest `{Digest} (t : pystr) : string := md5_hexdigest (utf8 t).

(** The first loop of [embed_batch] on texts that encode, and the function
    on such texts. *)
Definition hashed_step `{Digest} (cache : gmap string vector) (st : scan_state)
    (it : nat * pystr) : scan_state :=
  scan_hashed cache st it.1 it.2 (text_digest it.2).

Definition hashed_scan `{Digest} (cache : gmap string vector) (texts : list pystr)
  : scan_state :=
  fold_left (hashed_step cache) (enumerate texts)
            {| indices_map := ∅; uncached_texts := [] |}.

Definition embed_hashed `{Digest} `{EmbeddingModel} (e : FastEmbedder) (texts : list pystr)
  : result (FastEmbedder * list vector) :=
  embed_scanned (load_model e) (hashed_scan (embedding_cache (load_model e)) texts) texts.

(** Cache misses of one call, with repetitions. *)
Definition is_miss `{Digest} (cache : gmap string vector) (t : pystr) : bool :=
  match cache !! text_digest t with None => true | Some _ => false end.

Definition misses `{Digest} (cache : gmap string vector) (texts : list pystr) : list pystr :=
  List.filter (is_miss cache) texts.

Fixpoint miss_entries `{Digest} (cache : gmap string vector) (s : nat) (texts : list pystr)
  : list (nat * pystr * string) :=
  match texts with
  | [] => []
  | t :: r =>
      if is_miss cache t then (s, t, text_digest t) :: miss_entries cache (S s) r
      else miss_entries cache (S s) r
  end.

(** The model returns one vector per text. *)
Definition model_total `{EmbeddingModel} : Prop :=
  forall n ts, exists vs, model_encode n ts = Ok vs /\ length vs = length ts.

(** A chunk the upload can handle: it carries no embedding, or its text
    encodes. *)
Definition hashable (c : Chunk) : bool :=
  match embedding c with
  | Some _ => encodable (chunk_text c)
  | None => true
  end.

(** The record of a chunk whose text encodes, the body of the upload loop
    on such a chunk, and the upload of chunks that are all such, over an
    index that could be connected. *)
Definition record_of `{Digest} (c : Chunk) (emb : vector) : vrecord :=
  record_with c emb (id_of_digest (text_digest (chunk_text c))).

Definition hashed_upsert_step `{Digest} `{VectorIndex} (batch_size : Z)
    (st : upload_state) (c : Chunk) : upload_state :=
  match embedding c with
  | None => st
  | Some emb => upsert_if_full batch_size st (vectors_to_upsert st ++ [record_of c emb])
  end.

Definition upload_hashed `{Digest} `{VectorIndex}
    (api_key : bool) (chunks : list Chunk) (batch_size : Z)
  : list (list vrecord * bool) * result UploadSummary :=
  if negb api_key then ([], Raise (ValueError "PINECONE_API_KEY not set"))
  else
    let st := fold_left (hashed_upsert_step batch_size) chunks upload_init in
    match vectors_to_upsert st with
    | [] => (calls st, Ok (summary chunks (uploaded_count st)))
    | _ :: _ =>
        match upsert (length (calls st)) (vectors_to_upsert st) with
        | None =>
            (calls st ++ [(vectors_to_upsert st, true)],
             Ok (summary chunks (uploaded_count st + length (vectors_to_upsert st))))
        | Some e => (calls st ++ [(vectors_to_upsert st, false)], Raise e)
        end
    end.

(** The records of the chunks that carry an embedding, in order. *)
Definition records_of `{Digest} (chunks : list Chunk) : list vrecord :=
  flat_map (fun c => match embedding c with
                     | Some emb => [record_of c emb]
                     | None => []
                     end) chunks.

(** The records of the acknowledged calls, in order. *)
Definition acknowledged (calls : list (list vrecord * bool)) : list vrecord :=
  concat (map fst (List.filter snd calls)).

End Vocabulary.
Export Vocabulary.

(* ===================================================================== *)
(** ** Vocabulary of the further properties *)
(* ===================================================================== *)

(** Batches of a run: all of them full, except that the last one may hold
    fewer pages (but at least one). *)
Fixpoint full_but_last (batch_size : Z) (ys : list (list pystr)) : Prop :=
  match ys with
  | [] => True
  | [b] => (1 <= Z.of_nat (length b) <= batch_size)%Z
  | b :: ys' => Z.of_nat (length b) = batch_size /\ full_but_last batch_size ys'
  end.

(** The statistics recorded once the embedding step has returned. *)
Definition after_embedding (texts : list pystr) (sel : heap * list loc) (red : string)
    (emb : FastEmbedder * heap * list loc) : Stats :=
  set_embedding {| chunks_embedded := length emb.2;
                   cached_embeddings := size (embedding_cache emb.1.1) |}
    (set_selection {| selected_chunks := length sel.2; reduction := red |}
       (set_chunking (length (intelligent_chunk_split texts 2000))
          (set_parsing (length texts) initial_stats))).

(* ===================================================================== *)
(** ** The upload API: [api_fast_uploads.py] *)
(* ===================================================================== *)

(** [ai_agents.main.run]: the analysis of a query, kept as an opaque text,
    or the exception it raises. *)
Class Analyzer := { run : pystr -> result pystr }.

Module Api.

(** A dictionary with string keys, in insertion order. *)
Definition dict (V : Type) : Type := list (string * V).

Fixpoint dict_get {V} (k : string) (d : dict V) : option V :=
  match d with
  | [] => None
  | (k', v) :: d' => if String.eqb k k' then Some v else dict_get k d'
  end.

(** [d[k] = v]: an existing key keeps its position. *)
Fixpoint dict_set {V} (k : string) (v : V) (d : dict V) : dict V :=
  match d with
  | [] => [(k, v)]
  | (k', v') :: d' =>
      if String.eqb k k' then (k, v) :: d' else (k', v') :: dict_set k v d'
  end.

(** A job dictionary. The keys "status", "file_name" and "created_at" are
    set by both endpoints that create jobs; the other keys may be absent.
    The key "steps", which always holds an empty dictionary and is never
    read, is left out. *)
Record Job : Type := mkJob {
  job_status : string;
  job_file_name : string;
  job_created_at : string;
  job_query : option pystr;
  job_progress : option Z;
  job_batch_id : option string;
  job_started_at : option string;
  job_completed_at : option string;
  job_processing_stats : option Stats;
  job_analysis : option pystr;
  job_analysis_error : option string;
  job_error : option string
}.

Definition set_status (v : string) (j : Job) : Job :=
  mkJob v (job_file_name j) (job_created_at j) (job_query j) (job_progress j)
        (job_batch_id j) (job_started_at j) (job_completed_at j)
        (job_processing_stats j) (job_analysis j) (job_analysis_error j) (job_error j).
Definition set_started_at (v : string) (j : Job) : Job :=
  mkJob (job_status j) (job_file_name j) (job_created_at j) (job_query j) (job_progress j)
        (job_batch_id j) (Some v) (job_completed_at j)
        (job_processing_stats j) (job_analysis j) (job_analysis_error j) (job_error j).
Definition set_completed_at (v : string) (j : Job) : Job :=
  mkJob (job_status j) (job_file_name j) (job_created_at j) (job_query j) (job_progress j)
        (job_batch_id j) (job_started_at j) (Some v)
        (job_processing_stats j) (job_analysis j) (job_analysis_error j) (job_error j).
Definition set_processing_stats (v : Stats) (j : Job) : Job :=
  mkJob (job_status j) (job_file_name j) (job_created_at j) (job_query j) (job_progress j)
        (job_batch_id j) (job_started_at j) (job_completed_at j)
        (Some v) (job_analysis j) (job_analysis_error j) (job_error j).
Definition set_analysis (v : pystr) (j : Job) : Job :=
  mkJob (job_status j) (job_file_name j) (job_created_at j) (job_query j) (job_progress j)
        (job_batch_id j) (job_started_at j) (job_completed_at j)
        (job_processing_stats j) (Some v) (job_analysis_error j) (job_error j).
Definition set_analysis_error (v : string) (j : Job) : Job :=
  mkJob (job_status j) (job_file_name j) (job_created_at j) (job_query j) (job_progress j)
        (job_batch_id j) (job_started_at j) (job_completed_at j)
        (job_processing_stats j) (job_analysis j) (Some v) (job_error j).
Definition set_job_error (v : string) (j : Job) : Job :=
  mkJob (job_status j) (job_file_name j) (job_created_at j) (job_query j) (job_progress j)
        (job_batch_id j) (job_started_at j) (job_completed_at j)
        (job_processing_stats j) (job_analysis j) (job_analysis_error j) (Some v).

(** The module-level [processing_jobs]. *)
Definition jobs_store : Type := dict Job.

(** What an endpoint gives back: the content of its [JSONResponse], an
    [HTTPException], or another exception that leaves the handler. *)
Inductive reply (A : Type) : Type :=
| JSONResponse (content : A)
| HTTPException (status_code : Z) (detail : string)
| Unhandled (e : exn).
Arguments JSONResponse {A} content.
Arguments HTTPException {A} status_code detail.
Arguments Unhandled {A} e.

(** An [UploadFile]: its declared type, its name, and what [await
    file.read()] gives: an exception, or bytes, which are empty ([None]) or
    are what [PdfReader] will make a source of. *)
Record UploadFile : Type := mkUploadFile {
  content_type : option string;
  filename : string;
  read : result (option PdfSource)
}.

(** Statements that work on [processing_jobs] and may raise. *)
Definition J (A : Type) : Type := jobs_store -> jobs_store * result A.

Definition jret {A} (a : A) : J A := fun s => (s, Ok a).
Definition jbind {A B} (m : J A) (k : A -> J B) : J B :=
  fun s => match m s with
           | (s', Ok a) => k a s'
           | (s', Raise e) => (s', Raise e)
           end.
Definition jlift {A} (r : result A) : J A := fun s => (s, r).

(** [try: m except Exception as e: handler] *)
Definition try_except {A} (m : J A) (handler : exn -> J A) : J A :=
  fun s => match m s with
           | (s', Ok a) => (s', Ok a)
           | (s', Raise e) => handler e s'
           end.

(** The other tasks run while this one waits at an [await]. *)
Definition suspend (others : jobs_store -> jobs_store) : J unit :=
  fun s => (others s, Ok tt).

(** [processing_jobs[job_id][key] = value] and
    [processing_jobs[job_id].update(...)]: the job is looked up at every
    statement. *)
Definition update_job (job_id : string) (f : Job -> Job) : J unit :=
  fun s => match dict_get job_id s with
           | Some job => (dict_set job_id (f job) s, Ok tt)
           | None => (s, Raise (KeyError (quoted job_id)))
           end.

Declare Scope job_scope.
Delimit Scope job_scope with job.
Notation "x <- m ;; k" := (jbind m (fun x => k))
  (at level 100, m at next level, right associativity) : job_scope.
Notation "m ;;; k" := (jbind m (fun _ => k))
  (at level 100, right associativity) : job_scope.

(** [query or "General analysis"] *)
Definition query_or_default (query : option pystr) : pystr :=
  match query with
  | Some (c :: q) => c :: q
  | _ => lit "General analysis"
  end.

Definition new_job (file : UploadFile) (query : option pystr) (now : string) : Job :=
  {| job_status := "queued";
     job_file_name := filename file;
     job_created_at := now;
     job_query := Some (query_or_default query);
     job_progress := Some 0%Z;
     job_batch_id := None;
     job_started_at := None;
     job_completed_at := None;
     job_processing_stats := None;
     job_analysis := None;
     job_analysis_error := None;
     job_error := None |}.

Record UploadReply : Type := mkUploadReply {
  up_job_id : string;
  up_status : string;
  up_message : string;
  up_file_name : string;
  up_check_status_at : string
}.

Definition supported_type (t : option string) : bool :=
  match t with
  | Some t => String.eqb t "application/pdf" || String.eqb t "text/plain"
  | None => false
  end.

(** The handler of [POST /fast-upload-analyze], up to the point where it
    has queued [process_in_background]. [job_id] is the identifier drawn
    from [uuid4], [now] the clock reading. *)
Definition fast_upload_and_analyze (file : UploadFile) (query : option pystr)
    (job_id now : string) (jobs : jobs_store) : jobs_store * reply UploadReply :=
  if negb (supported_type (content_type file)) then
    (jobs, HTTPException 400 ("Unsupported file type: "
                              ++ default "None" (content_type file))%string)
  else
    (dict_set job_id (new_job file query now) jobs,
     JSONResponse {| up_job_id := job_id;
                     up_status := "queued";
                     up_message := "Document uploaded and queued for processing";
                     up_file_name := filename file;
                     up_check_status_at := ("/fast-status/" ++ job_id)%string |}).

Section WithCollaborators.
Context `{CaseFolding} `{Digest} `{EmbeddingModel} `{VectorIndex} `{Analyzer}.

(** The background task of one upload. [at_read] and [at_run] are what the
    other tasks do to the store while this one waits for [file.read()] and
    for [run]; [api_key] and [elapsed] are the environment and the clock
    of the pipeline, [started_at] and [completed_at] the clock readings. *)
Definition process_in_background (job_id : string) (file : UploadFile)
    (query : option pystr) (api_key : bool) (elapsed : float)
    (started_at completed_at : string)
    (at_read at_run : jobs_store -> jobs_store) : J unit :=
  try_except
    (update_job job_id (set_status "processing") ;;;
     update_job job_id (set_started_at started_at) ;;;
     suspend at_read ;;;
     file_content <- jlift (read file) ;;
     let result := fast_process_large_document None file_content query api_key elapsed in
     update_job job_id
       (fun j => set_processing_stats result
                   (set_completed_at completed_at (set_status "completed" j))) ;;;
     match query with
     | Some (c :: q) =>
         update_job job_id (set_status "analyzing") ;;;
         try_except
           (suspend at_run ;;;
            analysis_result <- jlift (run (c :: q)) ;;
            update_job job_id (set_analysis analysis_result))
           (fun e => update_job job_id (set_analysis_error (exn_str e))) ;;;
         update_job job_id (set_status "completed")
     | _ => jret tt
     end)%job
    (fun e =>
       update_job job_id (set_status "error") ;;;
       update_job job_id (set_job_error (exn_str e)))%job.

Definition new_batch_job (batch_id : string) (file : UploadFile) (now : string) : Job :=
  {| job_status := "queued";
     job_file_name := filename file;
     job_created_at := now;
     job_query := None;
     job_progress := None;
     job_batch_id := Some batch_id;
     job_started_at := None;
     job_completed_at := None;
     job_processing_stats := None;
     job_analysis := None;
     job_analysis_error := None;
     job_error := None |}.

(** The task [upload_file] of [fast_batch_upload] for one file, once it
    holds the semaphore; [job_ids] is the list of the enclosing handler. *)
Definition upload_file (batch_id job_id : string) (file : UploadFile)
    (query : option pystr) (api_key : bool) (elapsed : float) (now : string)
    (at_read : jobs_store -> jobs_store) (job_ids : list string)
  : list string * J unit :=
  (job_ids ++ [job_id],
   ((fun s => (dict_set job_id (new_batch_job batch_id file now) s, Ok tt)) ;;;
    suspend at_read ;;;
    file_content <- jlift (read file) ;;
    try_except
      (let result := fast_process_large_document None file_content query api_key elapsed in
       update_job job_id (fun j => set_processing_stats result (set_status "completed" j)))
      (fun e =>
         update_job job_id (set_status "error") ;;;
         update_job job_id (set_job_error (exn_str e))))%job).

End WithCollaborators.

Record JobReply : Type := mkJobReply {
  st_job_id : string;
  st_status : string;
  st_progress : Z;
  st_file_name : string;
  st_query : pystr;
  st_created_at : string;
  st_started_at : option string;
  st_completed_at : option string;
  st_processing_stats : option Stats;
  st_error : option string;
  st_analysis : option pystr
}.

(** [progress_map.get(status, 0)] *)
Definition progress_of (status : string) : Z :=
  if String.eqb status "queued" then 5
  else if String.eqb status "processing" then 50
  else if String.eqb status "analyzing" then 80
  else if String.eqb status "completed" then 100
  else 0.

(** The handler of [GET /fast-status/{job_id}]. In [st_processing_stats],
    [None] stands for the empty dictionary. *)
Definition get_job_status (job_id : string) (jobs : jobs_store) : reply JobReply :=
  match dict_get job_id jobs with
  | None => HTTPException 404 ("Job not found: " ++ job_id)%string
  | Some job =>
      match job_query job with
      | None => Unhandled (KeyError (quoted "query"))
      | Some query =>
          JSONResponse
            {| st_job_id := job_id;
               st_status := job_status job;
               st_progress := progress_of (job_status job);
               st_file_name := job_file_name job;
               st_query := query;
               st_created_at := job_created_at job;
               st_started_at := job_started_at job;
               st_completed_at := job_completed_at job;
               st_processing_stats := job_processing_stats job;
               st_error := job_error job;
               st_analysis := if String.eqb (job_status job) "completed"
                              then job_analysis job else None |}
      end
  end.

Record BatchReply : Type := mkBatchReply {
  bt_batch_id : string;
  bt_total_jobs : nat;
  bt_completed : nat;
  bt_failed : nat;
  bt_processing : nat;
  bt_progress : string;
  bt_jobs : list (string * string * string)
}.

(** [sum(1 for _, j in batch_jobs if ...)] *)
Definition count_jobs (p : Job -> bool) (batch_jobs : list (string * Job)) : nat :=
  length (List.filter (fun it => p it.2) batch_jobs).

Definition in_batch (batch_id : string) (it : string * Job) : bool :=
  match job_batch_id it.2 with
  | Some b => String.eqb b batch_id
  | None => false
  end.

(** The handler of [GET /fast-batch-status/{batch_id}]. *)
Definition get_batch_status (batch_id : string) (jobs : jobs_store) : reply BatchReply :=
  let batch_jobs := List.filter (in_batch batch_id) jobs in
  match batch_jobs with
  | [] => HTTPException 404 ("Batch not found: " ++ batch_id)%string
  | _ :: _ =>
      let completed := count_jobs (fun j => String.eqb (job_status j) "completed") batch_jobs in
      let failed := count_jobs (fun j => String.eqb (job_status j) "error") batch_jobs in
      let processing :=
        count_jobs (fun j => String.eqb (job_status j) "queued"
                             || String.eqb (job_status j) "processing") batch_jobs in
      match rbind (int_truediv (Z.of_nat completed) (Z.of_nat (length batch_jobs)))
                  (fun q => Ok (format_f 1 (PrimFloat.mul q (float_of_Z 100)) ++ "%")%string)
      with
      | Raise e => Unhandled e
      | Ok progress =>
          JSONResponse
            {| bt_batch_id := batch_id;
               bt_total_jobs := length batch_jobs;
               bt_completed := completed;
               bt_failed := failed;
               bt_processing := processing;
               bt_progress := progress;
               bt_jobs := map (fun it => (it.1, job_file_name it.2, job_status it.2))
                              batch_jobs |}
      end
  end.

End Api.
Export Api.

(* ===================================================================== *)
(** ** Further collaborators used in the examples *)
(* ===================================================================== *)

(** A model that is not available. *)
Definition broken_model : EmbeddingModel :=
  {| model_encode := fun _ _ => Raise (Exception "model unavailable") |}.

(** A model that returns one vector less than it is asked for. *)
Definition short_model : EmbeddingModel :=
  {| model_encode := fun _ texts => Ok (map (fun t => [py_len t]) (tail texts)) |}.

(** An analyzer that answers with the query itself. *)
Definition echo_analyzer : Analyzer := {| run := fun q => Ok q |}.

(* ===================================================================== *)
(** ** White space and sections *)
(* ===================================================================== *)

Lemma remove_ws_app a b : remove_ws (a ++ b) = remove_ws a ++ remove_ws b.
Proof. apply List.filter_app. Qed.

Lemma remove_ws_lstrip s : remove_ws (lstrip s) = remove_ws s.
Proof.
  induction s as [|c s IH]; simpl; [reflexivity|].
  destruct (py_isspace c) eqn:E; simpl; rewrite ?E; simpl; auto.
Qed.

Lemma remove_ws_rev s : remove_ws (rev s) = rev (remove_ws s).
Proof.
  induction s as [|c s IH]; simpl; [reflexivity|].
  rewrite remove_ws_app, IH. simpl.
  destruct (py_isspace c); simpl; [apply app_nil_r | reflexivity].
Qed.

Lemma remove_ws_strip s : remove_ws (strip s) = remove_ws s.
Proof.
  unfold strip, rstrip.
  rewrite remove_ws_rev, remove_ws_lstrip, remove_ws_rev, rev_involutive.
  apply remove_ws_lstrip.
Qed.

Lemma lstrip_head s c r : lstrip s = c :: r -> py_isspace c = false /\ In c s.
Proof.
  induction s as [|d s IH]; simpl; [discriminate|].
  destruct (py_isspace d) eqn:E.
  - intros H. destruct (IH H). auto.
  - intros H. inversion H; subst. auto.
Qed.

Lemma lstrip_incl s c : In c (lstrip s) -> In c s.
Proof.
  induction s as [|d s IH]; simpl; [tauto|].
  destruct (py_isspace d); simpl; tauto.
Qed.

Lemma remove_ws_nil_iff s : remove_ws s = [] <-> forall c, In c s -> py_isspace c = true.
Proof.
  induction s as [|d s IH]; simpl.
  - split; [intros _ c []|reflexivity].
  - destruct (py_isspace d) eqn:E; simpl.
    + rewrite IH. split; intros H c; [intros [<-|Hc]; auto | intros Hc; auto].
    + split; [discriminate|]. intros H. specialize (H d (or_introl eq_refl)). congruence.
Qed.

(** A string is blank for [strip] exactly when it has no visible character. *)
Lemma blank_iff s : truthy (strip s) = false <-> remove_ws s = [].
Proof.
  split.
  - intros H. rewrite <- remove_ws_strip. destruct (strip s); [reflexivity|discriminate].
  - intros H. destruct (strip s) as [|c r] eqn:E; [reflexivity|exfalso].
    unfold strip, rstrip in E.
    assert (E' : lstrip (rev (lstrip s)) = rev (c :: r)) by (rewrite <- E, rev_involutive; reflexivity).
    destruct (rev (c :: r)) as [|c' r'] eqn:R.
    { apply (f_equal (@length _)) in R. rewrite length_rev in R. discriminate. }
    destruct (lstrip_head _ _ _ E') as [Hs Hin].
    apply in_rev, lstrip_incl in Hin.
    rewrite remove_ws_nil_iff in H. rewrite (H _ Hin) in Hs. discriminate.
Qed.

Lemma concat_cons_head c l : l <> [] -> concat (cons_head c l) = c :: concat l.
Proof. destruct l; [intros; congruence|reflexivity]. Qed.

Lemma split_nn_nonempty s : split_nn s <> [].
Proof.
  induction s as [|c [|d s'] IH]; simpl; try discriminate.
  destruct ((c =? NL)%N && (d =? NL)%N); [discriminate|].
  simpl in IH. destruct (cons_head c _) eqn:E; [|discriminate].
  unfold cons_head in E. destruct (match s' with [] => _ | _ => _ end); discriminate.
Qed.

Lemma split_nn_cons2 c d s :
  split_nn (c :: d :: s) =
  if ((c =? NL) && (d =? NL))%N then [] :: split_nn s else cons_head c (split_nn (d :: s)).
Proof. reflexivity. Qed.

Lemma remove_ws_split_nn s : remove_ws (concat (split_nn s)) = remove_ws s.
Proof.
  assert (H : forall n s, length s <= n -> remove_ws (concat (split_nn s)) = remove_ws s).
  { clear s. induction n as [|n IH]; intros [|c [|d s']] Hl;
      try reflexivity; try (simpl in Hl; lia).
    rewrite split_nn_cons2.
    destruct ((c =? NL)%N && (d =? NL)%N) eqn:E.
    - apply andb_true_iff in E as [Ec Ed]. apply N.eqb_eq in Ec, Ed. subst.
      simpl. apply IH. simpl in Hl. lia.
    - rewrite concat_cons_head by apply split_nn_nonempty.
      change (c :: concat (split_nn (d :: s'))) with ([c] ++ concat (split_nn (d :: s'))).
      change (c :: d :: s') with ([c] ++ d :: s').
      rewrite !remove_ws_app, IH by (simpl in *; lia). reflexivity. }
  apply (H (length s)). lia.
Qed.

Lemma join_nn_cons x g : g <> [] -> join_nn (x :: g) = x ++ NL :: NL :: join_nn g.
Proof. destruct g; [intros; congruence|reflexivity]. Qed.

Lemma join_nn_snoc g s :
  g <> [] -> join_nn (g ++ [s]) = join_nn g ++ NL :: NL :: s.
Proof.
  induction g as [|x g IH]; [intros; congruence|]. intros _.
  destruct g as [|y g]; [reflexivity|].
  change ((x :: y :: g) ++ [s]) with (x :: ((y :: g) ++ [s])).
  rewrite join_nn_cons by (simpl; discriminate).
  rewrite IH by discriminate.
  rewrite (join_nn_cons x (y :: g)) by discriminate.
  rewrite <- app_assoc. reflexivity.
Qed.

Lemma remove_ws_join_nn g : remove_ws (join_nn g) = concat (map remove_ws g).
Proof.
  induction g as [|x g IH]; [reflexivity|].
  destruct g as [|y g]; [simpl; symmetry; apply app_nil_r|].
  rewrite join_nn_cons by discriminate.
  rewrite remove_ws_app. change (remove_ws (NL :: NL :: ?z)) with (remove_ws z).
  rewrite IH. reflexivity.
Qed.

Lemma visible_remove_ws s : visible s <-> remove_ws s <> [].
Proof.
  unfold visible. rewrite <- blank_iff. destruct (truthy (strip s)); split; congruence.
Qed.

Lemma join_nn_visible g : g <> [] -> Forall visible g -> visible (join_nn g).
Proof.
  intros Hg Hall. apply visible_remove_ws. rewrite remove_ws_join_nn.
  destruct g as [|x g]; [congruence|]. inversion Hall as [|? ? Hx _]; subst.
  apply visible_remove_ws in Hx. simpl. destruct (remove_ws x); [congruence|discriminate].
Qed.

Lemma visible_truthy s : visible s -> truthy s = true.
Proof.
  intros H. apply visible_remove_ws in H. destruct s; [contradiction H; reflexivity|reflexivity].
Qed.

(* ===================================================================== *)
(** ** Chunking *)
(* ===================================================================== *)

Lemma split_inv_current_truthy st gs g :
  split_inv st gs g -> truthy (current_chunk st) = true -> g <> [].
Proof.
  intros I H ->. rewrite (inv_current _ _ _ I) in H. discriminate.
Qed.

Lemma add_section_inv max st gs g s :
  split_inv st gs g ->
  exists gs' g', split_inv (add_section max st s) gs' g' /\
                 concat gs' ++ g' = (concat gs ++ g) ++ keep [s].
Proof.
  intros I. unfold add_section, keep. simpl.
  destruct (truthy (strip s)) eqn:Es; simpl.
  2:{ exists gs, g. split; [exact I|]. symmetry; apply app_nil_r. }
  destruct ((py_len (current_chunk st) + py_len s >? max)%Z && truthy (current_chunk st)) eqn:Eo.
  - apply andb_true_iff in Eo as [_ Ht].
    pose proof (split_inv_current_truthy _ _ _ I Ht) as Hg.
    exists (gs ++ [g]), [s]. split.
    + destruct I as [I1 I2 I3 I4]. constructor; simpl.
      * rewrite !map_app, I1. simpl. rewrite I3. reflexivity.
      * apply Forall_app; split; [exact I2 | constructor; [exact Hg | constructor]].
      * reflexivity.
      * constructor; [exact Es | constructor].
    + rewrite concat_app. simpl. rewrite app_nil_r. reflexivity.
  - exists gs, (g ++ [s]). split.
    + destruct I as [I1 I2 I3 I4]. constructor; simpl.
      * exact I1.
      * exact I2.
      * rewrite I3. destruct g as [|x g]; [reflexivity|].
        rewrite join_nn_snoc by discriminate.
        rewrite (visible_truthy (join_nn (x :: g))); [reflexivity|].
        apply join_nn_visible; [discriminate | exact I4].
      * apply Forall_app; split; [exact I4 | constructor; [exact Es | constructor]].
    + rewrite app_assoc. reflexivity.
Qed.

Lemma fold_add_section_inv max secs : forall st gs g,
  split_inv st gs g ->
  exists gs' g', split_inv (fold_left (add_section max) secs st) gs' g' /\
                 concat gs' ++ g' = (concat gs ++ g) ++ keep secs.
Proof.
  induction secs as [|s secs IH]; intros st gs g I; simpl.
  - exists gs, g. split; [exact I | symmetry; apply app_nil_r].
  - destruct (add_section_inv max st gs g s I) as (gs1 & g1 & I1 & E1).
    destruct (IH _ _ _ I1) as (gs2 & g2 & I2 & E2).
    exists gs2, g2. split; [exact I2|].
    rewrite E2, E1. rewrite <- app_assoc. f_equal.
    unfold keep. simpl. destruct (truthy (strip s)); reflexivity.
Qed.

Lemma fold_add_page max texts : forall st,
  fold_left (add_page max) texts st =
  fold_left (add_section max) (concat (map split_nn texts)) st.
Proof.
  induction texts as [|p texts IH]; intros st; simpl; [reflexivity|].
  rewrite fold_left_app. apply IH.
Qed.

Lemma split_init_inv : split_inv split_init [] [].
Proof. constructor; simpl; constructor. Qed.

Lemma finish_inv st gs g :
  split_inv st gs g ->
  exists gs', concat gs' = concat gs ++ g /\ Forall (fun g => g <> []) gs' /\
              map chunk_text (finish st) = map (fun g => strip (join_nn g)) gs'.
Proof.
  intros [I1 I2 I3 I4]. unfold finish. rewrite I3.
  destruct g as [|x g].
  - exists gs. simpl. rewrite app_nil_r. auto.
  - rewrite (join_nn_visible (x :: g)) by (discriminate || exact I4).
    exists (gs ++ [x :: g]). split; [|split].
    + rewrite concat_app. simpl. rewrite app_nil_r. reflexivity.
    + apply Forall_app; split; [exact I2 | constructor; [discriminate | constructor]].
    + rewrite !map_app, I1. reflexivity.
Qed.

Lemma chunk_split_groups texts max :
  exists groups,
    concat groups = kept_sections texts /\
    Forall (fun g => g <> []) groups /\
    map chunk_text (intelligent_chunk_split texts max)
    = map (fun g => strip (join_nn g)) groups.
Proof.
  unfold intelligent_chunk_split. rewrite fold_add_page.
  destruct (fold_add_section_inv max (concat (map split_nn texts)) _ _ _ split_init_inv)
    as (gs & g & I & E).
  destruct (finish_inv _ _ _ I) as (gs' & E' & F & M).
  exists gs'. split; [|split]; auto.
  rewrite E', E. reflexivity.
Qed.

Lemma remove_ws_concat l : remove_ws (concat l) = concat (map remove_ws l).
Proof.
  induction l as [|x l IH]; simpl; [reflexivity|].
  rewrite remove_ws_app, IH. reflexivity.
Qed.

Lemma concat_map_concat {A B} (f : A -> list B) (ll : list (list A)) :
  concat (map (fun g => concat (map f g)) ll) = concat (map f (concat ll)).
Proof.
  induction ll as [|g ll IH]; simpl; [reflexivity|].
  rewrite map_app, concat_app, IH. reflexivity.
Qed.

Lemma remove_ws_keep secs :
  concat (map remove_ws (keep secs)) = concat (map remove_ws secs).
Proof.
  induction secs as [|s secs IH]; simpl; [reflexivity|].
  destruct (truthy (strip s)) eqn:E; simpl; rewrite IH; [reflexivity|].
  apply blank_iff in E. rewrite E. reflexivity.
Qed.

Lemma remove_ws_pages texts :
  concat (map remove_ws (concat (map split_nn texts))) = remove_ws (concat texts).
Proof.
  induction texts as [|p texts IH]; simpl; [reflexivity|].
  rewrite map_app, concat_app, IH, remove_ws_app, <- remove_ws_concat, remove_ws_split_nn.
  reflexivity.
Qed.

(** Chunk ids count up from 0 in list order. *)
Lemma add_section_ids max st s :
  map chunk_id (chunks st) = map Z.of_nat (seq 0 (length (chunks st))) ->
  next_id st = Z.of_nat (length (chunks st)) ->
  map chunk_id (chunks (add_section max st s))
  = map Z.of_nat (seq 0 (length (chunks (add_section max st s)))) /\
  next_id (add_section max st s) = Z.of_nat (length (chunks (add_section max st s))).
Proof.
  intros Hm Hn. unfold add_section.
  destruct (negb (truthy (strip s))); [auto|].
  destruct (_ && _); cbn [chunks next_id]; [|auto].
  rewrite length_app, Nat.add_1_r, seq_S, !map_app, Hm. cbn. rewrite Hn. split; [reflexivity|lia].
Qed.

Lemma chunk_split_ids (texts : list pystr) (max_chunk_chars : Z) :
  map chunk_id (intelligent_chunk_split texts max_chunk_chars)
  = map Z.of_nat (seq 0 (length (intelligent_chunk_split texts max_chunk_chars))).
Proof.
  unfold intelligent_chunk_split. rewrite fold_add_page.
  assert (G : forall secs st,
    map chunk_id (chunks st) = map Z.of_nat (seq 0 (length (chunks st))) ->
    next_id st = Z.of_nat (length (chunks st)) ->
    let st' := fold_left (add_section max_chunk_chars) secs st in
    map chunk_id (chunks st') = map Z.of_nat (seq 0 (length (chunks st'))) /\
    next_id st' = Z.of_nat (length (chunks st'))).
  { induction secs as [|s secs IH]; intros st Hm Hn; cbn [fold_left]; [auto|].
    destruct (add_section_ids max_chunk_chars st s Hm Hn) as [Hm' Hn']. apply IH; assumption. }
  destruct (G (concat (map split_nn texts)) split_init eq_refl eq_refl) as [Hm Hn].
  cbn zeta in Hm, Hn. unfold finish.
  destruct (truthy (strip _)); [|exact Hm].
  rewrite length_app, Nat.add_1_r, seq_S, !map_app, Hm. cbn. rewrite Hn. reflexivity.
Qed.

Section Budget.
Variable max : Z.
Variable whole : pystr -> Prop.

Lemma new_chunk_near id cur :
  near_budget max whole cur -> chunk_near_budget max whole (new_chunk id cur).
Proof. intros Hc. exists cur. auto. Qed.

Lemma py_len_join cur section :
  py_len (cur ++ NL :: NL :: section) = (py_len cur + 2 + py_len section)%Z.
Proof. unfold py_len. rewrite length_app. cbn [length]. lia. Qed.

Lemma add_section_budget st section :
  (visible section -> whole section) ->
  budget_inv max whole st -> budget_inv max whole (add_section max st section).
Proof.
  intros HS [Hcs Hcur]. unfold add_section.
  destruct (truthy (strip section)) eqn:Ev; cbn [negb]; [|split; assumption].
  specialize (HS Ev).
  destruct (truthy (current_chunk st)) eqn:Et.
  - destruct Hcur as [Hnil|Hcur]; [rewrite Hnil in Et; discriminate|].
    rewrite andb_true_r.
    destruct (py_len (current_chunk st) + py_len section >? max)%Z eqn:Eo.
    + split; cbn [chunks current_chunk].
      * apply Forall_app. split; [exact Hcs|]. constructor; [|constructor].
        apply new_chunk_near, Hcur.
      * right. left. exact HS.
    + split; cbn [chunks current_chunk]; [exact Hcs|]. right. right.
      rewrite py_len_join. rewrite Z.gtb_ltb in Eo. apply Z.ltb_ge in Eo. lia.
  - rewrite andb_false_r. split; cbn [chunks current_chunk]; [exact Hcs|].
    right. left. exact HS.
Qed.

Lemma fold_add_section_budget secs : forall st,
  (forall s, In s secs -> visible s -> whole s) ->
  budget_inv max whole st -> budget_inv max whole (fold_left (add_section max) secs st).
Proof.
  induction secs as [|s secs IH]; intros st HS Hi; cbn [fold_left]; [exact Hi|].
  apply IH; [intros x Hx; apply HS; right; exact Hx|].
  apply add_section_budget; [apply HS; left; reflexivity | exact Hi].
Qed.

Lemma finish_budget st : budget_inv max whole st -> Forall (chunk_near_budget max whole) (finish st).
Proof.
  intros [Hcs Hcur]. unfold finish.
  destruct (truthy (strip (current_chunk st))) eqn:E; [|exact Hcs].
  apply Forall_app. split; [exact Hcs|]. constructor; [|constructor].
  apply new_chunk_near. destruct Hcur as [Hnil|Hcur]; [|exact Hcur].
  rewrite Hnil in E. discriminate.
Qed.

End Budget.

(** Every chunk is one section of the document kept whole, or holds at most
    [max_chunk_chars + 2] characters. *)
Lemma chunk_split_budget (texts : list pystr) (max_chunk_chars : Z) :
  Forall (chunk_near_budget max_chunk_chars (fun s => In s (kept_sections texts)))
         (intelligent_chunk_split texts max_chunk_chars).
Proof.
  unfold intelligent_chunk_split. rewrite fold_add_page.
  apply finish_budget, fold_add_section_budget.
  - intros s Hs Hv. unfold kept_sections, keep. apply List.filter_In. auto.
  - split; [constructor | left; reflexivity].
Qed.

(* ===================================================================== *)
(** ** Sorting *)
(* ===================================================================== *)

Section SortDesc.
Context {A : Type}.
Implicit Types (l : list (Z * A)) (k s : Z) (x : A).

Lemma insert_desc_perm k x l : Permutation (insert_desc k x l) ((k, x) :: l).
Proof.
  induction l as [|[k' y] l IH]; simpl; [reflexivity|].
  destruct (k <? k')%Z; [|reflexivity].
  rewrite IH. apply perm_swap.
Qed.

Lemma sort_desc_perm l : Permutation (sort_desc l) l.
Proof.
  induction l as [|[k x] l IH]; simpl; [reflexivity|].
  rewrite insert_desc_perm. constructor. exact IH.
Qed.

Lemma insert_desc_sorted k x l :
  StronglySorted ge_key l -> StronglySorted ge_key (insert_desc k x l).
Proof.
  induction l as [|[k' y] l IH]; simpl; intros Hs.
  - repeat constructor.
  - apply StronglySorted_inv in Hs as [Hs Hall].
    destruct (k <? k')%Z eqn:E.
    + apply Z.ltb_lt in E. constructor; [auto|].
      eapply Permutation_Forall; [symmetry; apply insert_desc_perm|].
      constructor; [unfold ge_key; simpl; lia | exact Hall].
    + apply Z.ltb_ge in E. constructor; [constructor; assumption|].
      constructor; [unfold ge_key; simpl; lia|].
      eapply List.Forall_impl; [|exact Hall]. unfold ge_key; simpl; intros; lia.
Qed.

Lemma sort_desc_sorted l : StronglySorted ge_key (sort_desc l).
Proof.
  induction l as [|[k x] l IH]; simpl; [constructor|]. apply insert_desc_sorted, IH.
Qed.

(** Stability: entries with one key keep their relative order. *)
Lemma insert_desc_stable s k x l :
  List.filter (fun p => (p.1 =? s)%Z) (insert_desc k x l)
  = List.filter (fun p => (p.1 =? s)%Z) ((k, x) :: l).
Proof.
  induction l as [|[k' y] l IH]; [reflexivity|].
  cbn [insert_desc]. destruct (k <? k')%Z eqn:E; [|reflexivity].
  apply Z.ltb_lt in E. cbn [List.filter fst] in *.
  rewrite IH.
  destruct (k' =? s)%Z eqn:E1; destruct (k =? s)%Z eqn:E2; try reflexivity.
  apply Z.eqb_eq in E1, E2. lia.
Qed.

Lemma sort_desc_stable s l :
  List.filter (fun p => (p.1 =? s)%Z) (sort_desc l)
  = List.filter (fun p => (p.1 =? s)%Z) l.
Proof.
  induction l as [|[k x] l IH]; [reflexivity|].
  cbn [sort_desc]. rewrite insert_desc_stable. cbn [List.filter fst]. rewrite IH. reflexivity.
Qed.

Variable ident : A -> Z.

Lemma insert_desc_lex k x l :
  StronglySorted (lex_key ident) l ->
  Forall (fun q => (ident x < ident q.2)%Z) l ->
  StronglySorted (lex_key ident) (insert_desc k x l).
Proof.
  induction l as [|[k' y] l IH]; simpl; intros Hs Hx.
  - repeat constructor.
  - apply StronglySorted_inv in Hs as [Hs Hall].
    apply Forall_cons in Hx as [Hy Hx]. simpl in Hy.
    destruct (k <? k')%Z eqn:E.
    + apply Z.ltb_lt in E. constructor; [auto|].
      eapply Permutation_Forall; [symmetry; apply insert_desc_perm|].
      constructor; [left; simpl; lia | exact Hall].
    + apply Z.ltb_ge in E. constructor; [constructor; assumption|].
      constructor; [unfold lex_key; simpl; lia|].
      rewrite !List.Forall_forall in *. intros q Hq.
      specialize (Hall q Hq). specialize (Hx q Hq). unfold lex_key in *. simpl in *. lia.
Qed.

Lemma sort_desc_lex l :
  StronglySorted (fun p q => (ident p.2 < ident q.2)%Z) l ->
  StronglySorted (lex_key ident) (sort_desc l).
Proof.
  induction l as [|[k x] l IH]; simpl; intros Hs; [constructor|].
  apply StronglySorted_inv in Hs as [Hs Hall].
  apply insert_desc_lex; [auto|].
  eapply Permutation_Forall; [symmetry; apply sort_desc_perm|]. exact Hall.
Qed.

End SortDesc.

Section Decorated.
Context {A : Type} (f : A -> Z).

Lemma decorate_cons x l : decorate f (x :: l) = (f x, x) :: decorate f l.
Proof. reflexivity. Qed.

Lemma decorate_snd l : map snd (decorate f l) = l.
Proof. induction l as [|x l IH]; [reflexivity|]. rewrite decorate_cons. simpl. f_equal. exact IH. Qed.

Lemma decorate_keys l : Forall (fun p => p.1 = f p.2) (decorate f l).
Proof. induction l as [|x l IH]; [constructor|]. rewrite decorate_cons. constructor; auto. Qed.

Lemma sorted_keys l : Forall (fun p => p.1 = f p.2) (sort_desc (decorate f l)).
Proof.
  eapply Permutation_Forall; [symmetry; apply sort_desc_perm | apply decorate_keys].
Qed.

Lemma sorted_by_key_perm l : Permutation (sorted_by_key f l) l.
Proof.
  unfold sorted_by_key. rewrite <- (decorate_snd l) at 2.
  apply Permutation_map, sort_desc_perm.
Qed.

Lemma StronglySorted_map_snd (R : Z * A -> Z * A -> Prop) (R' : A -> A -> Prop) d :
  Forall (fun p => p.1 = f p.2) d ->
  (forall p q, p.1 = f p.2 -> q.1 = f q.2 -> R p q -> R' p.2 q.2) ->
  StronglySorted R d -> StronglySorted R' (map snd d).
Proof.
  intros Hk HR. induction 1 as [|p d Hs IH Hall]; simpl; [constructor|].
  apply Forall_cons in Hk as [Hp Hk]. constructor; [auto|].
  rewrite !List.Forall_forall in *. intros y Hy. apply in_map_iff in Hy as (q & <- & Hq).
  apply HR; auto.
Qed.

Lemma sorted_by_key_desc l :
  StronglySorted (fun a b => (f b <= f a)%Z) (sorted_by_key f l).
Proof.
  eapply StronglySorted_map_snd; [apply sorted_keys | | apply sort_desc_sorted].
  unfold ge_key. intros p q -> ->. auto.
Qed.

Lemma filter_map_snd s d :
  Forall (fun p => p.1 = f p.2) d ->
  List.filter (fun x => (f x =? s)%Z) (map snd d)
  = map snd (List.filter (fun p => (p.1 =? s)%Z) d).
Proof.
  induction 1 as [|p d Hp _ IH]; [reflexivity|]. simpl. rewrite <- Hp, IH.
  destruct (p.1 =? s)%Z; reflexivity.
Qed.

Lemma sorted_by_key_stable s l :
  List.filter (fun x => (f x =? s)%Z) (sorted_by_key f l)
  = List.filter (fun x => (f x =? s)%Z) l.
Proof.
  unfold sorted_by_key. rewrite filter_map_snd by apply sorted_keys.
  rewrite sort_desc_stable, <- filter_map_snd by apply decorate_keys.
  rewrite decorate_snd. reflexivity.
Qed.

Lemma sorted_by_key_lex (ident : A -> Z) l :
  StronglySorted (fun a b => (ident a < ident b)%Z) l ->
  StronglySorted (fun a b => (f b < f a)%Z \/ (f a = f b /\ (ident a < ident b)%Z))
                 (sorted_by_key f l).
Proof.
  intros Hs.
  eapply (StronglySorted_map_snd (lex_key ident)); [apply sorted_keys | |].
  - unfold lex_key. intros p q -> ->. auto.
  - apply sort_desc_lex. clear -Hs. induction Hs as [|x l Hs IH Hall]; [constructor|].
    rewrite decorate_cons. constructor; [auto|].
    rewrite !List.Forall_forall in *. intros q Hq. simpl.
    apply Hall. rewrite <- (decorate_snd l). apply in_map. exact Hq.
Qed.

End Decorated.

Lemma StronglySorted_firstn {A} (R : A -> A -> Prop) n l :
  StronglySorted R l -> StronglySorted R (firstn n l).
Proof.
  intros Hs. revert n. induction Hs as [|x l Hs IH Hall]; intros [|n]; simpl; try constructor.
  - apply IH.
  - apply Forall_take, Hall.
Qed.

Lemma filter_firstn_prefix {A} (P : A -> bool) n (l : list A) :
  List.filter P (firstn n l) `prefix_of` List.filter P l.
Proof.
  exists (List.filter P (skipn n l)). rewrite <- List.filter_app, firstn_skipn. reflexivity.
Qed.

Lemma py_slice_to_nat {A} (l : list A) (K : nat) : py_slice_to l (Z.of_nat K) = firstn K l.
Proof.
  unfold py_slice_to. destruct (0 <=? Z.of_nat K)%Z eqn:E; [|apply Z.leb_gt in E; lia].
  rewrite Nat2Z.id. reflexivity.
Qed.

(* ===================================================================== *)
(** ** Selection *)
(* ===================================================================== *)

Section SelectFacts.
Context `{CaseFolding}.
Variable kw : list pystr.

Lemma relevance_ext c c' :
  chunk_id c = chunk_id c' -> chunk_text c = chunk_text c' ->
  relevance kw c = relevance kw c'.
Proof. intros Hi Ht. unfold relevance. rewrite Hi, Ht. reflexivity. Qed.

Lemma scored_content (h : heap) seen l :
  chunk_id (scored kw h seen l) = chunk_id (h l) /\
  chunk_text (scored kw h seen l) = chunk_text (h l) /\
  char_count (scored kw h seen l) = char_count (h l) /\
  embedding (scored kw h seen l) = embedding (h l).
Proof. unfold scored. destruct (_ && _); auto. Qed.

Lemma with_relevance_score_scored (h : heap) seen l s :
  with_relevance_score (scored kw h seen l) s = with_relevance_score (h l) s.
Proof. unfold scored. destruct (_ && _); reflexivity. Qed.

Lemma existsb_snoc l seen c :
  existsb (Nat.eqb l) (seen ++ [c]) = existsb (Nat.eqb l) seen || Nat.eqb l c.
Proof. rewrite existsb_app. simpl. rewrite orb_false_r. reflexivity. Qed.

Lemma select_step_scored (h : heap) seen (st : heap * list loc) c :
  (forall l, st.1 l = scored kw h seen l) ->
  (forall l, (select_step kw st c).1 l = scored kw h (seen ++ [c]) l) /\
  (select_step kw st c).2
  = st.2 ++ List.filter (fun l => (relevance kw (h l) >? 0)%Z) [c].
Proof.
  destruct st as [h0 sel0]. cbn [fst snd]. intros Hh. unfold select_step. cbn [fst snd].
  assert (Hr : relevance kw (h0 c) = relevance kw (h c)).
  { rewrite Hh. destruct (scored_content h seen c) as (E1 & E2 & _).
    apply relevance_ext; assumption. }
  rewrite Hr. cbn [List.filter]. destruct (relevance kw (h c) >? 0)%Z eqn:E; cbn [fst snd].
  - split; [|reflexivity]. intros l. unfold heap_update.
    destruct (Nat.eqb l c) eqn:El.
    + apply Nat.eqb_eq in El. subst l. rewrite Hh, with_relevance_score_scored.
      unfold scored. rewrite existsb_snoc, Nat.eqb_refl, orb_true_r, E. reflexivity.
    + rewrite Hh. unfold scored. rewrite existsb_snoc, El, orb_false_r. reflexivity.
  - split; [|symmetry; apply app_nil_r]. intros l. rewrite Hh. unfold scored.
    rewrite existsb_snoc. destruct (Nat.eqb l c) eqn:El; [|rewrite orb_false_r; reflexivity].
    apply Nat.eqb_eq in El. subst l. rewrite E, !andb_false_r. reflexivity.
Qed.

Lemma select_fold_scored (h : heap) chunks : forall seen (st : heap * list loc),
  (forall l, st.1 l = scored kw h seen l) ->
  (forall l, (fold_left (select_step kw) chunks st).1 l = scored kw h (seen ++ chunks) l) /\
  (fold_left (select_step kw) chunks st).2
  = st.2 ++ List.filter (fun l => (relevance kw (h l) >? 0)%Z) chunks.
Proof.
  induction chunks as [|c chunks IH]; intros seen st Hh; cbn [fold_left].
  - rewrite !app_nil_r. auto.
  - destruct (select_step_scored h seen st c Hh) as [H1 H2].
    destruct (IH (seen ++ [c]) _ H1) as [H3 H4]. split.
    + intros l. etransitivity; [apply H3|]. rewrite <- app_assoc. reflexivity.
    + etransitivity; [apply H4|].
      etransitivity; [apply (f_equal (fun x => x ++ _)), H2|].
      cbn [List.filter]. rewrite <- app_assoc.
      destruct (relevance kw (h c) >? 0)%Z; reflexivity.
Qed.

Lemma scored_nil h l : scored kw h [] l = h l.
Proof. reflexivity. Qed.

Lemma existsb_eqb_In l (chunks : list loc) : existsb (Nat.eqb l) chunks = true <-> In l chunks.
Proof.
  rewrite existsb_exists. split.
  - intros (x & Hx & E). apply Nat.eqb_eq in E. subst. exact Hx.
  - intros Hl. exists l. split; [exact Hl | apply Nat.eqb_refl].
Qed.

Lemma collect_total {A B} (g : A -> result B) (f : A -> B) (l : list A) :
  (forall x, In x l -> g x = Ok (f x)) -> collect g l = Ok (map f l).
Proof.
  induction l as [|x l IH]; intros Hg; [reflexivity|].
  cbn [collect]. rewrite (Hg x) by (left; reflexivity). cbn [rbind].
  rewrite IH by (intros y Hy; apply Hg; right; exact Hy). reflexivity.
Qed.

Lemma sort_keys_scored (h : heap) chunks :
  let sel := List.filter (fun l => (relevance kw (h l) >? 0)%Z) chunks in
  sort_keys (scored kw h chunks) sel = Ok (map (fun l => relevance kw (h l)) sel).
Proof.
  intros sel. unfold sort_keys. apply collect_total. intros l Hl.
  apply List.filter_In in Hl as [Hin Hpos]. unfold scored.
  apply existsb_eqb_In in Hin. rewrite Hin, Hpos. reflexivity.
Qed.

End SelectFacts.

Lemma sort_keys_ext (h h' : heap) sel : (forall l, h l = h' l) -> sort_keys h sel = sort_keys h' sel.
Proof.
  intros E. unfold sort_keys. induction sel as [|x sel IH]; [reflexivity|].
  cbn [collect]. rewrite E, IH. reflexivity.
Qed.

(** The outcome of the selection in closed form. *)
Lemma select_most_relevant_chunks_eq `{CaseFolding} (h : heap) chunks kws top_k :
  let score l := relevance (map lower kws) (h l) in
  exists h',
    select_most_relevant_chunks h chunks kws top_k
    = Ok (h', py_slice_to (sorted_by_key score
                             (List.filter (fun l => (score l >? 0)%Z) chunks)) top_k) /\
    forall l, h' l = scored (map lower kws) h chunks l.
Proof.
  intros score. unfold select_most_relevant_chunks.
  destruct (select_fold_scored (map lower kws) h chunks [] (h, []) (fun l => eq_refl))
    as [Hh Hs].
  simpl in Hh, Hs. rewrite Hs.
  rewrite (sort_keys_ext _ _ _ Hh), sort_keys_scored.
  eexists. split; [reflexivity | exact Hh].
Qed.

Lemma filter_filter_pos {A} (f : A -> Z) s (l : list A) :
  List.filter (fun x => (f x =? s)%Z) (List.filter (fun x => (f x >? 0)%Z) l)
  = if (s >? 0)%Z then List.filter (fun x => (f x =? s)%Z) l else [].
Proof.
  induction l as [|x l IH]; simpl; [destruct (s >? 0)%Z; reflexivity|].
  destruct (f x >? 0)%Z eqn:E1; simpl; rewrite IH;
    destruct (f x =? s)%Z eqn:E2; destruct (s >? 0)%Z eqn:E3; try reflexivity;
    apply Z.eqb_eq in E2; subst; congruence.
Qed.

Lemma range_aux_closed step : 1 <= step -> forall fuel i stop,
  stop - i <= fuel ->
  range_aux fuel i stop step
  = map (fun k => i + k * step) (seq 0 ((stop - i + step - 1) / step)).
Proof.
  intros Hstep. induction fuel as [|fuel IH]; intros i stop Hf.
  - assert (stop - i = 0) as -> by lia. simpl.
    rewrite Nat.div_small by lia. reflexivity.
  - cbn [range_aux]. destruct (i <? stop) eqn:E.
    + apply Nat.ltb_lt in E. rewrite IH by lia.
      assert (Hc : (stop - i + step - 1) / step = S ((stop - (i + step) + step - 1) / step)).
      { destruct (le_lt_dec (stop - i) step) as [Hle|Hgt].
        - assert (stop - (i + step) = 0) as -> by lia.
          rewrite (Nat.div_small (0 + step - 1)) by lia.
          replace (stop - i + step - 1) with (1 * step + (stop - i - 1)) by lia.
          rewrite Nat.div_add_l by lia. rewrite Nat.div_small by lia. reflexivity.
        - replace (stop - i + step - 1) with (1 * step + (stop - (i + step) + step - 1)) by lia.
          rewrite Nat.div_add_l by lia. reflexivity. }
      rewrite Hc. cbn [seq map]. f_equal; [lia|].
      rewrite <- seq_shift, map_map. apply map_ext. intros k. lia.
    + apply Nat.ltb_ge in E. assert (stop - i = 0) as -> by lia.
      rewrite Nat.div_small by lia. reflexivity.
Qed.

Lemma py_range_closed start stop step : 1 <= step ->
  py_range start stop step
  = map (fun k => start + k * step) (seq 0 ((stop - start + step - 1) / step)).
Proof. intros Hs. apply range_aux_closed; [exact Hs | lia]. Qed.

Lemma lookup_nth {A} (l : list A) (d : A) i : i < length l -> l !! i = Some (nth i l d).
Proof.
  revert i. induction l as [|x l IH]; intros [|i] Hi; simpl in *; try lia; [reflexivity|].
  apply IH. lia.
Qed.

Lemma count_bound n N k :
  1 <= N -> 1 <= n -> k < (n - 1 + N - 1) / N -> 1 + k * N < n.
Proof.
  intros HN Hn Hk.
  assert (H := Nat.div_mod_eq (n - 1 + N - 1) N).
  assert (H' := Nat.mod_upper_bound (n - 1 + N - 1) N ltac:(lia)).
  nia.
Qed.

Lemma count_range n :
  10 <= n ->
  let N := Nat.max 1 (n / 10) in
  let count := (n - 1 + N - 1) / N in
  9 <= count <= 18 /\ (count = 9 <-> n = 10).
Proof.
  intros Hn N count.
  assert (H10 := Nat.div_mod_eq n 10).
  assert (H10' := Nat.mod_upper_bound n 10 ltac:(lia)).
  assert (HN : N = n / 10) by (unfold N; lia).
  assert (HN1 : 1 <= N) by lia.
  assert (H := Nat.div_mod_eq (n - 1 + N - 1) N).
  assert (H' := Nat.mod_upper_bound (n - 1 + N - 1) N ltac:(lia)).
  fold count in H. 
  split; [split|split]; try nia.
Qed.

(* ===================================================================== *)
(** ** Embedding cache *)
(* ===================================================================== *)

Section ScanFacts.
Context `{Digest} `{EmbeddingModel}.
Implicit Types (cache : gmap string vector) (texts : list pystr).

Lemma zip_seq_ge {A} (l : list A) : forall s p, In p (zip (seq s (length l)) l) -> s <= p.1.
Proof.
  induction l as [|x l IH]; intros s p Hin; [destruct Hin|].
  cbn in Hin. destruct Hin as [<-|Hin]; [cbn; lia|]. apply IH in Hin. lia.
Qed.

Lemma scan_indices_keep cache i (l : list (nat * pystr)) : forall st,
  (forall p, In p l -> i < p.1) ->
  indices_map (fold_left (hashed_step cache) l st) !! i = indices_map st !! i.
Proof.
  induction l as [|p l IH]; intros st Hl; [reflexivity|].
  cbn [fold_left]. rewrite IH by (intros q Hq; apply Hl; right; exact Hq).
  unfold hashed_step, scan_hashed. destruct (cache !! text_digest p.2); cbn [indices_map]; [|reflexivity].
  apply lookup_insert_ne. specialize (Hl p (or_introl eq_refl)). lia.
Qed.

Lemma scan_fold cache texts : forall s st,
  uncached_texts (fold_left (hashed_step cache) (zip (seq s (length texts)) texts) st)
  = uncached_texts st ++ miss_entries cache s texts /\
  (forall j t, texts !! j = Some t -> is_miss cache t = false ->
     indices_map (fold_left (hashed_step cache) (zip (seq s (length texts)) texts) st)
       !! (s + j) = Some (text_digest t)).
Proof.
  induction texts as [|t r IH]; intros s st; cbn [length seq zip zip_with fold_left].
  - cbn [miss_entries]. rewrite app_nil_r. split; [reflexivity|]. intros j t Hj. discriminate.
  - destruct (IH (S s) (hashed_step cache st (s, t))) as [IHu IHi]. split.
    + rewrite IHu. unfold hashed_step, scan_hashed. cbn [fst snd miss_entries]. unfold is_miss.
      destruct (cache !! text_digest t); cbn [uncached_texts]; [reflexivity|].
      rewrite <- app_assoc. reflexivity.
    + intros [|j] t' Hj Hm.
      * cbn in Hj. inversion Hj; subst t'. rewrite Nat.add_0_r.
        rewrite scan_indices_keep.
        -- unfold hashed_step, scan_hashed, is_miss in *. cbn [fst snd].
           destruct (cache !! text_digest t); [|discriminate].
           cbn [indices_map]. apply lookup_insert_eq.
        -- intros p Hp. apply zip_seq_ge in Hp. lia.
      * cbn in Hj. replace (s + S j) with (S s + j) by lia. apply (IHi j t' Hj Hm).
Qed.

Lemma hashed_scan_spec cache texts :
  uncached_texts (hashed_scan cache texts) = miss_entries cache 0 texts /\
  (forall i t, texts !! i = Some t -> is_miss cache t = false ->
     indices_map (hashed_scan cache texts) !! i = Some (text_digest t)).
Proof.
  unfold hashed_scan, enumerate.
  destruct (scan_fold cache texts 0 {| indices_map := ∅; uncached_texts := [] |}) as [Hu Hi].
  split; [exact Hu | exact Hi].
Qed.

Lemma miss_entries_texts cache texts : forall s,
  map (fun u => u.1.2) (miss_entries cache s texts) = misses cache texts.
Proof.
  induction texts as [|t r IH]; intros s; [reflexivity|].
  cbn [miss_entries misses List.filter]. destruct (is_miss cache t); cbn [map fst snd];
    rewrite IH; reflexivity.
Qed.

(** Every entry to embed is a text of the call that the cache does not
    hold, recorded at its own position. *)
Lemma miss_entries_In cache texts : forall s u,
  In u (miss_entries cache s texts) ->
  s <= u.1.1 /\ texts !! (u.1.1 - s) = Some u.1.2 /\
  u.2 = text_digest u.1.2 /\ cache !! u.2 = None.
Proof.
  induction texts as [|t r IH]; intros s u Hu; [destruct Hu|].
  cbn [miss_entries] in Hu. destruct (is_miss cache t) eqn:Em.
  - destruct Hu as [<-|Hu].
    + cbn [fst snd]. rewrite Nat.sub_diag. unfold is_miss in Em.
      destruct (cache !! text_digest t) eqn:E; [discriminate|]. auto.
    + destruct (IH _ _ Hu) as (H1 & H2 & H3 & H4).
      split; [lia|]. replace (u.1.1 - s) with (S (u.1.1 - S s)) by lia. auto.
  - destruct (IH _ _ Hu) as (H1 & H2 & H3 & H4).
    split; [lia|]. replace (u.1.1 - s) with (S (u.1.1 - S s)) by lia. auto.
Qed.

Lemma miss_entries_complete cache texts : forall s j t,
  texts !! j = Some t -> is_miss cache t = true ->
  In (s + j, t, text_digest t) (miss_entries cache s texts).
Proof.
  induction texts as [|x r IH]; intros s [|j] t Hj Hm; try discriminate; cbn in Hj.
  - inversion Hj; subst x. cbn [miss_entries]. rewrite Hm, Nat.add_0_r. left; reflexivity.
  - cbn [miss_entries]. replace (s + S j) with (S s + j) by lia.
    destruct (is_miss cache x); [right|]; apply IH; assumption.
Qed.

(** The stores of the second loop. *)
Lemma store_fold (U : list (nat * pystr * string)) : forall (B : list vector) c m,
  length U = length B ->
  let st := fold_left store_step (zip U B) (c, m) in
  (forall k, (forall u, In u U -> u.2 <> k) -> st.1 !! k = c !! k) /\
  (forall i, (forall u, In u U -> u.1.1 <> i) -> st.2 !! i = m !! i) /\
  (forall u, In u U -> is_Some (st.1 !! u.2) /\ is_Some (st.2 !! u.1.1)) /\
  (forall k, is_Some (c !! k) -> is_Some (st.1 !! k)) /\
  (forall i, is_Some (m !! i) -> is_Some (st.2 !! i)).
Proof.
  induction U as [|u U IH]; intros [|b B] c m Hl; try discriminate.
  - cbn. split; [|split; [|split; [|split]]]; auto. intros ? [].
  - cbn [zip zip_with fold_left]. injection Hl as Hl.
    specialize (IH B (store_step (c, m) (u, b)).1 (store_step (c, m) (u, b)).2 Hl).
    cbn zeta in *. cbn [store_step fst snd] in *.
    destruct IH as (I1 & I2 & I3 & I4 & I5).
    split; [|split; [|split; [|split]]].
    + intros k Hk. rewrite I1 by (intros v Hv; apply Hk; right; exact Hv).
      apply lookup_insert_ne. apply Hk. left; reflexivity.
    + intros i Hi. rewrite I2 by (intros v Hv; apply Hi; right; exact Hv).
      apply lookup_insert_ne. apply Hi. left; reflexivity.
    + intros v [<-|Hv]; [|apply I3; exact Hv]. split.
      * apply I4. rewrite lookup_insert_eq. eauto.
      * apply I5. rewrite lookup_insert_eq. eauto.
    + intros k Hk. apply I4. destruct (decide (u.2 = k)) as [->|Hne].
      * rewrite lookup_insert_eq. eauto.
      * rewrite lookup_insert_ne by exact Hne. exact Hk.
    + intros i Hi. apply I5. destruct (decide (u.1.1 = i)) as [->|Hne].
      * rewrite lookup_insert_eq. eauto.
      * rewrite lookup_insert_ne by exact Hne. exact Hi.
Qed.

End ScanFacts.

Section EmbedFacts.
Context `{Digest} `{EmbeddingModel}.
Implicit Types (cache : gmap string vector) (texts : list pystr).

Lemma is_miss_false cache t : is_miss cache t = false <-> is_Some (cache !! text_digest t).
Proof.
  unfold is_miss. destruct (cache !! text_digest t); split; intros Hx;
    try discriminate; eauto. destruct Hx; discriminate.
Qed.

Lemma is_miss_true cache t : is_miss cache t = true <-> cache !! text_digest t = None.
Proof.
  unfold is_miss. destruct (cache !! text_digest t); split; intros Hx;
    try discriminate; eauto.
Qed.

Lemma miss_entries_hashes cache texts : forall s,
  map snd (miss_entries cache s texts) = map text_digest (misses cache texts).
Proof.
  induction texts as [|t r IH]; intros s; [reflexivity|].
  cbn [miss_entries misses List.filter]. destruct (is_miss cache t); cbn [map fst snd];
    rewrite IH; reflexivity.
Qed.

Lemma miss_entries_indices_NoDup cache texts : forall s,
  List.NoDup (map (fun u => u.1.1) (miss_entries cache s texts)).
Proof.
  induction texts as [|t r IH]; intros s; [constructor|].
  cbn [miss_entries]. destruct (is_miss cache t); [|apply IH].
  cbn [map fst snd]. constructor; [|apply IH].
  intros Hin. apply in_map_iff in Hin as (u & Hu & Hin).
  apply miss_entries_In in Hin as (Hle & _). lia.
Qed.

Lemma zip_In_l {A B} (U : list A) : forall (Bs : list B) u,
  length U = length Bs -> In u U -> exists b, In (u, b) (zip U Bs).
Proof.
  induction U as [|x U IH]; intros [|b Bs] u Hl Hin; try discriminate; [destruct Hin|].
  destruct Hin as [<-|Hin]; [exists b; left; reflexivity|].
  destruct (IH Bs u ltac:(cbn in Hl; lia) Hin) as [b' Hb]. exists b'. right. exact Hb.
Qed.

Lemma store_fold_last (U1 U2 : list (nat * pystr * string)) (B1 B2 : list vector)
    u b c m :
  length U1 = length B1 -> length U2 = length B2 ->
  let st := fold_left store_step (zip (U1 ++ u :: U2) (B1 ++ b :: B2)) (c, m) in
  ((forall v, In v U2 -> v.2 <> u.2) -> st.1 !! u.2 = Some b) /\
  ((forall v, In v U2 -> v.1.1 <> u.1.1) -> st.2 !! u.1.1 = Some b).
Proof.
  intros H1 H2 st. unfold st. rewrite zip_with_app by exact H1.
  rewrite fold_left_app. cbn [zip_with fold_left].
  set (s1 := fold_left store_step (zip U1 B1) (c, m)).
  destruct (store_fold U2 B2 (store_step s1 (u, b)).1 (store_step s1 (u, b)).2 H2)
    as (I1 & I2 & _).
  cbn zeta in I1, I2.
  replace (store_step s1 (u, b))
    with ((store_step s1 (u, b)).1, (store_step s1 (u, b)).2) by reflexivity.
  split; intros Hne.
  - rewrite (I1 _ Hne). cbn [store_step fst snd]. apply lookup_insert_eq.
  - rewrite (I2 _ Hne). cbn [store_step fst snd]. apply lookup_insert_eq.
Qed.

Lemma miss_entries_app cache (T1 T2 : list pystr) : forall s,
  miss_entries cache s (T1 ++ T2)
  = miss_entries cache s T1 ++ miss_entries cache (s + length T1) T2.
Proof.
  induction T1 as [|t T1 IH]; intros s; cbn [app miss_entries length].
  - rewrite Nat.add_0_r. reflexivity.
  - rewrite IH. replace (S s + length T1) with (s + S (length T1)) by lia.
    destruct (is_miss cache t); reflexivity.
Qed.

(** The last loop, once every position is served by one of the two maps. *)
Lemma build_result cache cache' (emb : gmap nat vector) (idx : gmap nat string) texts :
  (forall k v, cache !! k = Some v -> cache' !! k = Some v) ->
  (forall i t, texts !! i = Some t -> is_miss cache t = true -> is_Some (emb !! i)) ->
  (forall i t, texts !! i = Some t -> is_miss cache t = false ->
               emb !! i = None /\ idx !! i = Some (text_digest t)) ->
  exists vs,
    collect (result_at cache' emb idx) (seq 0 (length texts)) = Ok vs /\
    length vs = length texts /\
    (forall i t v, texts !! i = Some t -> cache !! text_digest t = Some v ->
                   vs !! i = Some v) /\
    (forall i v, i < length texts -> emb !! i = Some v -> vs !! i = Some v).
Proof.
  intros Q1 Q2 Q3.
  set (f := result_at cache' emb idx).
  assert (Hf : forall i t, texts !! i = Some t ->
            exists v, f i = Ok v /\
                      forall w, cache !! text_digest t = Some w -> v = w).
  { intros i t Hi. unfold f, result_at. destruct (is_miss cache t) eqn:Em.
    - destruct (Q2 i t Hi Em) as [v Hv]. rewrite Hv. exists v. split; [reflexivity|].
      intros w Hw. apply is_miss_true in Em. congruence.
    - destruct (Q3 i t Hi Em) as [-> ->]. apply is_miss_false in Em as [v Hv].
      rewrite (Q1 _ _ Hv). exists v. split; [reflexivity|]. congruence. }
  set (g := fun i => match f i with Ok v => v | Raise _ => [] end).
  exists (map g (seq 0 (length texts))). split; [|split; [|split]].
  - apply collect_total. intros i Hi. apply in_seq in Hi. unfold g.
    destruct (lookup_lt_is_Some_2 texts i ltac:(lia)) as [t Ht].
    destruct (Hf i t Ht) as (v & -> & _). reflexivity.
  - rewrite length_map, length_seq. reflexivity.
  - intros i t v Hi Hv. pose proof (lookup_lt_Some _ _ _ Hi) as Hlt.
    rewrite list_lookup_fmap, lookup_seq_lt by exact Hlt. simpl. unfold g.
    destruct (Hf i t Hi) as (w & Ew & Hw). rewrite Ew, (Hw v Hv). reflexivity.
  - intros i v Hlt Hv. rewrite list_lookup_fmap, lookup_seq_lt by exact Hlt. simpl.
    unfold g, f, result_at. rewrite Hv. reflexivity.
Qed.

Lemma misses_nil_hit cache texts i t :
  misses cache texts = [] -> texts !! i = Some t -> is_miss cache t = false.
Proof.
  intros Hm Hi. destruct (is_miss cache t) eqn:E; [|reflexivity].
  assert (Hin : In t (misses cache texts)).
  { apply List.filter_In. split; [|exact E]. apply list_elem_of_In.
    eapply list_elem_of_lookup_2. exact Hi. }
  rewrite Hm in Hin. destruct Hin.
Qed.

(** The outcome of a call on texts that encode. *)
Lemma embed_hashed_spec (e : FastEmbedder) texts :
  model_total ->
  exists e' vs,
    embed_hashed e texts = Ok (e', vs) /\
    length vs = length texts /\
    encode_calls e' =
      encode_calls e ++ match misses (embedding_cache e) texts with
                        | [] => []
                        | m => [m]
                        end /\
    (misses (embedding_cache e) texts = [] -> e' = load_model e) /\
    (forall k v, embedding_cache e !! k = Some v -> embedding_cache e' !! k = Some v) /\
    (forall i t, texts !! i = Some t -> is_Some (embedding_cache e' !! text_digest t)) /\
    (forall i t v, texts !! i = Some t -> embedding_cache e !! text_digest t = Some v ->
                   vs !! i = Some v) /\
    (forall i t, texts !! i = Some t ->
       (forall j t', i < j -> texts !! j = Some t' -> text_digest t' <> text_digest t) ->
       vs !! i = embedding_cache e' !! text_digest t).
Proof.
  intros Hmodel. unfold embed_hashed, embed_scanned.
  set (cache := embedding_cache e).
  change (embedding_cache (load_model e)) with cache.
  change (encode_calls (load_model e)) with (encode_calls e).
  change (model_loaded (load_model e)) with true.
  destruct (hashed_scan_spec cache texts) as [Hu Hi].
  set (sc := hashed_scan cache texts) in *.
  pose proof (miss_entries_texts cache texts 0) as Hm. rewrite <- Hu in Hm.
  rewrite Hm.
  destruct (uncached_texts sc) as [|u U] eqn:EU.
  - (* every text is cached *)
    cbn [rbind]. cbn in Hm. rewrite <- Hm.
    destruct (build_result cache cache ∅ (indices_map sc) texts) as (vs & E & Hl & Hv & _).
    + auto.
    + intros i t Ht Em.
      pose proof (miss_entries_complete cache texts 0 i t Ht Em) as Hin.
      rewrite <- Hu in Hin. destruct Hin.
    + intros i t Ht Em. split; [apply lookup_empty | apply Hi; assumption].
    + cbn [embedding_cache load_model]. fold cache. rewrite E.
      assert (Hhit : forall i t, texts !! i = Some t -> is_Some (cache !! text_digest t)).
      { intros i t Ht. apply is_miss_false. eapply misses_nil_hit; eauto. }
      eexists _, vs. split; [reflexivity|]. split; [exact Hl|].
      cbn [encode_calls embedding_cache]. rewrite app_nil_r.
      split; [reflexivity|]. split; [reflexivity|]. split; [auto|].
      split; [exact Hhit|]. split; [exact Hv|].
      intros i t Ht _. destruct (Hhit i t Ht) as [v Hc].
      change (vs !! i = cache !! text_digest t). rewrite Hc. eapply Hv; eauto.
  - (* some texts go to the model *)
    assert (Hne : misses cache texts <> []) by (rewrite <- Hm; discriminate).
    rewrite <- EU in *. clear EU.
    destruct (Hmodel (length (encode_calls e)) (misses cache texts)) as (B & EB & HB).
    rewrite EB. cbn [rbind].
    assert (HlenU : length (uncached_texts sc) = length B).
    { rewrite HB, <- Hm, length_map. reflexivity. }
    destruct (store_fold (uncached_texts sc) B cache ∅ HlenU) as (I1 & I2 & I3 & I4 & I5).
    set (st := fold_left store_step (zip (uncached_texts sc) B) (cache, ∅)) in *.
    cbn [embedding_cache].
    assert (Q1 : forall k v, cache !! k = Some v -> st.1 !! k = Some v).
    { intros k v Hk. rewrite I1; [exact Hk|]. intros w Hw Hwk.
      rewrite Hu in Hw. apply miss_entries_In in Hw as (_ & _ & _ & Hn).
      rewrite Hwk in Hn. congruence. }
    destruct (build_result cache st.1 st.2 (indices_map sc) texts) as (vs & E & Hl & Hv & He).
    + exact Q1.
    + intros i t Ht Em.
      pose proof (miss_entries_complete cache texts 0 i t Ht Em) as Hin.
      rewrite <- Hu in Hin. apply (I3 _ Hin).
    + intros i t Ht Em. split; [|apply Hi; assumption].
      rewrite I2; [apply lookup_empty|]. intros w Hw Hwi.
      rewrite Hu in Hw. apply miss_entries_In in Hw as (_ & Hw1 & Hw2 & Hw3).
      rewrite Nat.sub_0_r, Hwi, Ht in Hw1. inversion Hw1; subst t.
      apply is_miss_false in Em as [x Hx]. rewrite <- Hw2 in Hx. congruence.
    + rewrite E. eexists _, vs. split; [reflexivity|]. split; [exact Hl|].
      cbn [encode_calls embedding_cache].
      split; [destruct (misses cache texts); [congruence | reflexivity]|].
      split; [intros Hnil; congruence|].
      split; [exact Q1|]. split; [|split; [exact Hv|]].
      * intros i t Ht. destruct (is_miss cache t) eqn:Em.
        -- pose proof (miss_entries_complete cache texts 0 i t Ht Em) as Hin.
           rewrite <- Hu in Hin. apply (I3 _ Hin).
        -- apply is_miss_false in Em. apply I4. exact Em.
      * intros i t Ht Hlast. destruct (is_miss cache t) eqn:Em.
        -- destruct (list_elem_of_split_length texts i t Ht) as (T1 & T2 & ET & Hi1).
           assert (EU : uncached_texts sc
                        = miss_entries cache 0 T1
                            ++ (i, t, text_digest t) :: miss_entries cache (S i) T2).
           { rewrite Hu, ET, miss_entries_app. cbn [miss_entries]. rewrite Em.
             rewrite <- Hi1. reflexivity. }
           set (U1 := miss_entries cache 0 T1) in *.
           set (U2 := miss_entries cache (S i) T2) in *.
           assert (EB' : B = take (length U1) B ++ drop (length U1) B)
             by (symmetry; apply take_drop).
           assert (HB1 : length U1 <= length B).
           { rewrite <- HlenU, EU, length_app. lia. }
           destruct (drop (length U1) B) as [|b B2] eqn:ED.
           { exfalso. apply (f_equal length) in ED. rewrite length_drop in ED.
             rewrite <- HlenU, EU, length_app in ED. cbn in ED. lia. }
           assert (H1 : length U1 = length (take (length U1) B))
             by (rewrite length_take; lia).
           assert (H2 : length U2 = length B2).
           { apply (f_equal length) in ED. rewrite length_drop in ED. cbn in ED.
             rewrite <- HlenU, EU, length_app in ED. cbn in ED. lia. }
           destruct (store_fold_last U1 U2 (take (length U1) B) B2 (i, t, text_digest t)
                       b cache ∅ H1 H2) as [Hc Hx].
           rewrite <- EB', <- EU in Hc, Hx. cbn [fst snd] in Hc, Hx. fold st in Hc, Hx.
           rewrite Hc.
           ++ apply He; [eapply lookup_lt_Some; exact Ht|]. apply Hx.
              intros w Hw E'. apply miss_entries_In in Hw as (Hle & _). lia.
           ++ intros w Hw E'. apply miss_entries_In in Hw as (Hle & Hw1 & Hw2 & _).
              apply (Hlast w.1.1 w.1.2); [lia | | congruence].
              rewrite ET, lookup_app_r by lia.
              replace (w.1.1 - length T1) with (S (w.1.1 - S i)) by lia. exact Hw1.
        -- apply is_miss_false in Em as [v Hc]. rewrite (Q1 _ _ Hc). eapply Hv; eauto.
Qed.

End EmbedFacts.

(** *** Texts that do not encode *)

Lemma surrogate_run_encodable (t : pystr) : forall i,
  encodable t = true -> surrogate_run t i = None.
Proof.
  induction t as [|c t IH]; intros i E; [reflexivity|].
  cbn [encodable forallb] in E. apply andb_true_iff in E as [Ec Et].
  cbn [surrogate_run]. destruct (is_surrogate c); [discriminate|]. apply IH, Et.
Qed.

Lemma surrogate_run_unencodable (t : pystr) : forall i,
  encodable t = false -> exists r, surrogate_run t i = Some r.
Proof.
  induction t as [|c t IH]; intros i E; [discriminate|].
  cbn [encodable forallb] in E. cbn [surrogate_run].
  destruct (is_surrogate c); [eauto|]. apply IH, E.
Qed.

Section EncodeFacts.
Context `{Digest}.

Lemma text_md5_encodable (t : pystr) :
  encodable t = true -> text_md5 t = Ok (text_digest t).
Proof.
  intros E. unfold text_md5, py_encode. rewrite (surrogate_run_encodable t 0 E). reflexivity.
Qed.

Lemma text_md5_unencodable (t : pystr) :
  encodable t = false -> exists msg, text_md5 t = Raise (UnicodeEncodeError msg).
Proof.
  intros E. unfold text_md5, py_encode.
  destruct (surrogate_run_unencodable t 0 E) as [[[start c] len] ->]. cbn [rbind]. eauto.
Qed.

Lemma text_md5_inv (t : pystr) (k : string) :
  text_md5 t = Ok k -> encodable t = true /\ k = text_digest t.
Proof.
  intros E. destruct (encodable t) eqn:Et.
  - rewrite (text_md5_encodable t Et) in E. injection E as <-. auto.
  - destruct (text_md5_unencodable t Et) as [msg Hm]. congruence.
Qed.

Lemma scan_fold_encodable (cache : gmap string vector) (texts : list pystr) : forall s st,
  Forall (fun t => encodable t = true) texts ->
  fold_result (scan_step cache) (zip (seq s (length texts)) texts) st
  = Ok (fold_left (hashed_step cache) (zip (seq s (length texts)) texts) st).
Proof.
  induction texts as [|t r IH]; intros s st Hall; [reflexivity|].
  apply Forall_cons in Hall as [Ht Hr].
  cbn [length seq zip zip_with fold_result fold_left]. unfold scan_step at 1.
  cbn [fst snd]. rewrite (text_md5_encodable t Ht). cbn [rbind].
  rewrite IH by exact Hr. reflexivity.
Qed.

Lemma scan_fold_unencodable (cache : gmap string vector) (texts : list pystr) : forall s st,
  Exists (fun t => encodable t = false) texts ->
  exists msg,
    fold_result (scan_step cache) (zip (seq s (length texts)) texts) st
    = Raise (UnicodeEncodeError msg).
Proof.
  induction texts as [|t r IH]; intros s st Hex; [inversion Hex|].
  cbn [length seq zip zip_with fold_result]. unfold scan_step at 1. cbn [fst snd].
  destruct (encodable t) eqn:Et.
  - rewrite (text_md5_encodable t Et). cbn [rbind]. apply IH.
    inversion Hex; subst; [congruence | assumption].
  - destruct (text_md5_unencodable t Et) as [msg ->]. cbn [rbind]. eauto.
Qed.

Lemma encodable_dec (texts : list pystr) :
  Forall (fun t => encodable t = true) texts \/
  Exists (fun t => encodable t = false) texts.
Proof.
  induction texts as [|t r [IH|IH]].
  - left. constructor.
  - destruct (encodable t) eqn:Et.
    + left. constructor; assumption.
    + right. apply List.Exists_cons_hd. exact Et.
  - right. apply List.Exists_cons_tl. exact IH.
Qed.

Context `{EmbeddingModel}.

(** On texts that encode, the call is the call on their digests. *)
Lemma embed_batch_encodable (e : FastEmbedder) (texts : list pystr) :
  Forall (fun t => encodable t = true) texts ->
  embed_batch e texts = embed_hashed e texts.
Proof.
  intros Hall. unfold embed_batch, embed_hashed, scan_cache, hashed_scan, enumerate.
  cbv zeta. rewrite scan_fold_encodable by exact Hall. reflexivity.
Qed.

(** A text that does not encode ends the call in the first loop. *)
Lemma embed_batch_unencodable (e : FastEmbedder) (texts : list pystr) :
  Exists (fun t => encodable t = false) texts ->
  exists msg, embed_batch e texts = Raise (UnicodeEncodeError msg).
Proof.
  intros Hex. unfold embed_batch, scan_cache, enumerate. cbv zeta.
  destruct (scan_fold_unencodable (embedding_cache (load_model e)) texts 0
              {| indices_map := ∅; uncached_texts := [] |} Hex) as [msg ->].
  cbn [rbind]. eauto.
Qed.

Lemma embed_batch_ok_inv (e : FastEmbedder) (texts : list pystr) r :
  embed_batch e texts = Ok r ->
  Forall (fun t => encodable t = true) texts /\ embed_hashed e texts = Ok r.
Proof.
  intros E. destruct (encodable_dec texts) as [Hall|Hex].
  - split; [exact Hall|]. rewrite <- embed_batch_encodable by exact Hall. exact E.
  - destruct (embed_batch_unencodable e texts Hex) as [msg Hm]. congruence.
Qed.

End EncodeFacts.

(* ===================================================================== *)
(** ** Upload *)
(* ===================================================================== *)

Section UploadFacts.
Context `{Digest} `{VectorIndex}.

Lemma acknowledged_snoc cs b ok :
  acknowledged (cs ++ [(b, ok)]) = acknowledged cs ++ (if ok then b else []).
Proof.
  unfold acknowledged. rewrite List.filter_app, map_app, concat_app. cbn [List.filter snd].
  destruct ok; cbn; rewrite ?app_nil_r; reflexivity.
Qed.

Lemma upsert_step_inv batch_size st c done :
  acknowledged (calls st) ++ vectors_to_upsert st = records_of done ->
  uploaded_count st = length (acknowledged (calls st)) ->
  let st' := hashed_upsert_step batch_size st c in
  acknowledged (calls st') ++ vectors_to_upsert st' = records_of (done ++ [c]) /\
  uploaded_count st' = length (acknowledged (calls st')).
Proof.
  intros Hr Hc. unfold records_of in *. rewrite flat_map_app. cbn [flat_map].
  unfold hashed_upsert_step, upsert_if_full. destruct (embedding c) as [emb|].
  2:{ cbn. rewrite !app_nil_r. auto. }
  rewrite app_nil_r, <- Hr.
  destruct (Z.of_nat (length (vectors_to_upsert st ++ [record_of c emb])) >=? batch_size)%Z.
  - destruct (upsert _ _); cbn [calls vectors_to_upsert uploaded_count];
      rewrite acknowledged_snoc.
    + rewrite !app_nil_r, app_assoc. auto.
    + rewrite app_nil_r. split; [apply app_assoc|]. rewrite !length_app. lia.
  - cbn [calls vectors_to_upsert uploaded_count]. rewrite app_assoc. auto.
Qed.

Lemma upsert_fold_inv batch_size chunks : forall st done,
  acknowledged (calls st) ++ vectors_to_upsert st = records_of done ->
  uploaded_count st = length (acknowledged (calls st)) ->
  let st' := fold_left (hashed_upsert_step batch_size) chunks st in
  acknowledged (calls st') ++ vectors_to_upsert st' = records_of (done ++ chunks) /\
  uploaded_count st' = length (acknowledged (calls st')).
Proof.
  induction chunks as [|c chunks IH]; intros st done Hr Hc; cbn [fold_left].
  - rewrite app_nil_r. auto.
  - destruct (upsert_step_inv batch_size st c done Hr Hc) as [Hr' Hc'].
    destruct (IH _ _ Hr' Hc') as [Hr'' Hc'']. cbn zeta. rewrite <- app_assoc in Hr''. auto.
Qed.

(** Accounting of the upload: what has been acknowledged when the function
    returns, and where an exception that leaves it comes from. *)
Lemma upload_hashed_outcome (api_key : bool) (chunks : list Chunk) (batch_size : Z) :
  let r := upload_hashed api_key chunks batch_size in
  match r.2 with
  | Ok s =>
      api_key = true /\
      acknowledged r.1 = records_of chunks /\
      s = summary chunks (length (records_of chunks))
  | Raise e =>
      (api_key = false /\ r.1 = [] /\ e = ValueError "PINECONE_API_KEY not set") \/
      (api_key = true /\
       exists cs batch, r.1 = cs ++ [(batch, false)] /\
                        acknowledged cs ++ batch = records_of chunks /\
                        upsert (length cs) batch = Some e)
  end.
Proof.
  unfold upload_hashed. destruct api_key; cbn [negb]; [|cbn; auto].
  destruct (upsert_fold_inv batch_size chunks upload_init [] eq_refl eq_refl) as [Hr Hc].
  cbn zeta in Hr, Hc. cbn [app] in Hr.
  set (st := fold_left (hashed_upsert_step batch_size) chunks upload_init) in *.
  destruct (vectors_to_upsert st) as [|v vs] eqn:Ev.
  - cbn [fst snd]. rewrite app_nil_r in Hr. rewrite Hc, Hr. auto.
  - destruct (upsert (length (calls st)) (v :: vs)) as [e|] eqn:Eu; cbn [fst snd].
    + right. split; [reflexivity|]. exists (calls st), (v :: vs). auto.
    + rewrite acknowledged_snoc, Hr. split; [reflexivity|]. split; [reflexivity|].
      rewrite Hc, <- length_app, Hr. reflexivity.
Qed.

Lemma acknowledged_sent cs x :
  In x (acknowledged cs) -> Exists (fun call => In x call.1) cs.
Proof.
  unfold acknowledged. induction cs as [|[b ok] cs IH]; cbn [List.filter snd]; [intros []|].
  destruct ok; cbn [map fst concat].
  - intros Hin. apply in_app_or in Hin as [Hin|Hin]; [left; exact Hin | right; auto].
  - intros Hin. right. auto.
Qed.

(** Every record is part of some call, acknowledged or not. *)
Lemma upload_hashed_sends_all (chunks : list Chunk) (batch_size : Z) :
  Forall (fun x => Exists (fun call => In x call.1)
                          (upload_hashed true chunks batch_size).1)
         (records_of chunks).
Proof.
  pose proof (upload_hashed_outcome true chunks batch_size) as Ho. cbv zeta in Ho.
  apply List.Forall_forall. intros x Hx.
  destruct (upload_hashed true chunks batch_size) as [cs [s|e]]; cbn [fst snd] in *.
  - destruct Ho as (_ & Ha & _). rewrite <- Ha in Hx. apply acknowledged_sent, Hx.
  - destruct Ho as [(Hk & _) | (_ & cs' & batch & -> & Ha & _)]; [discriminate|].
    rewrite <- Ha in Hx. apply Exists_app.
    apply in_app_or in Hx as [Hx|Hx]; [left; apply acknowledged_sent, Hx|].
    right. left. exact Hx.
Qed.

(** When no call fails, no call carries more than [batch_size] records. *)
Lemma upsert_step_batches batch_size st c :
  (1 <= batch_size)%Z ->
  (forall n b, upsert n b = None) ->
  (Z.of_nat (length (vectors_to_upsert st)) < batch_size)%Z ->
  Forall (fun call => (Z.of_nat (length call.1) <= batch_size)%Z /\ call.2 = true) (calls st) ->
  let st' := hashed_upsert_step batch_size st c in
  (Z.of_nat (length (vectors_to_upsert st')) < batch_size)%Z /\
  Forall (fun call => (Z.of_nat (length call.1) <= batch_size)%Z /\ call.2 = true) (calls st').
Proof.
  intros Hb Hok Hp Hcs. unfold hashed_upsert_step, upsert_if_full. destruct (embedding c) as [emb|]; [|auto].
  destruct (Z.of_nat (length (vectors_to_upsert st ++ [record_of c emb])) >=? batch_size)%Z eqn:E.
  - rewrite Hok. cbn [calls vectors_to_upsert]. split; [cbn; lia|].
    apply Forall_app. split; [exact Hcs|]. constructor; [|constructor].
    cbn [fst snd]. rewrite length_app in *. cbn [length] in *. split; [lia | reflexivity].
  - cbn [calls vectors_to_upsert]. split; [|exact Hcs].
    rewrite Z.geb_leb in E. apply Z.leb_gt in E. exact E.
Qed.

Lemma upload_hashed_batches (chunks : list Chunk) (batch_size : Z) :
  (1 <= batch_size)%Z ->
  (forall n b, upsert n b = None) ->
  Forall (fun call => (Z.of_nat (length call.1) <= batch_size)%Z /\ call.2 = true)
         (upload_hashed true chunks batch_size).1.
Proof.
  intros Hb Hok. unfold upload_hashed. cbn [negb].
  assert (G : forall cs st,
    (Z.of_nat (length (vectors_to_upsert st)) < batch_size)%Z ->
    Forall (fun call => (Z.of_nat (length call.1) <= batch_size)%Z /\ call.2 = true) (calls st) ->
    let st' := fold_left (hashed_upsert_step batch_size) cs st in
    (Z.of_nat (length (vectors_to_upsert st')) < batch_size)%Z /\
    Forall (fun call => (Z.of_nat (length call.1) <= batch_size)%Z /\ call.2 = true) (calls st')).
  { induction cs as [|c cs IH]; intros st Hp Hcs; cbn [fold_left]; [auto|].
    destruct (upsert_step_batches batch_size st c Hb Hok Hp Hcs) as [Hp' Hcs'].
    apply IH; assumption. }
  destruct (G chunks upload_init) as [Hp Hcs]; [cbn; lia | constructor |].
  cbn zeta in Hp, Hcs.
  set (st := fold_left (hashed_upsert_step batch_size) chunks upload_init) in *.
  destruct (vectors_to_upsert st) as [|v vs] eqn:Ev; [exact Hcs|].
  rewrite Hok. cbn [fst]. apply Forall_app. split; [exact Hcs|].
  constructor; [|constructor]. cbn [fst snd]. split; [lia | reflexivity].
Qed.

End UploadFacts.

Section UploadEncoding.
Context `{Digest} `{VectorIndex}.

Lemma upsert_step_hashable batch_size st c :
  hashable c = true ->
  upsert_step batch_size st c = Ok (hashed_upsert_step batch_size st c).
Proof.
  unfold hashable, upsert_step, hashed_upsert_step, to_record, vector_id, record_of.
  destruct (embedding c) as [emb|]; [|reflexivity].
  intros E. rewrite (text_md5_encodable _ E). reflexivity.
Qed.

Lemma upsert_step_unhashable batch_size st c :
  hashable c = false ->
  exists msg, upsert_step batch_size st c = Raise (UnicodeEncodeError msg).
Proof.
  unfold hashable, upsert_step, to_record, vector_id.
  destruct (embedding c) as [emb|]; [|discriminate].
  intros E. destruct (text_md5_unencodable _ E) as [msg ->]. cbn [rbind]. eauto.
Qed.

Lemma upsert_loop_hashable batch_size : forall (cs : list Chunk) st,
  Forall (fun c => hashable c = true) cs ->
  upsert_loop batch_size cs st = (fold_left (hashed_upsert_step batch_size) cs st, None).
Proof.
  induction cs as [|c cs IH]; intros st Hall; [reflexivity|].
  apply Forall_cons in Hall as [Hc Hr]. cbn [upsert_loop fold_left].
  rewrite (upsert_step_hashable _ _ _ Hc). apply IH, Hr.
Qed.

(** The loop stops at the first chunk whose text does not encode, with the
    calls issued for the chunks before it. *)
Lemma upsert_loop_unhashable batch_size (pre : list Chunk) c (post : list Chunk) st :
  Forall (fun c => hashable c = true) pre -> hashable c = false ->
  exists msg,
    upsert_loop batch_size (pre ++ c :: post) st
    = (fold_left (hashed_upsert_step batch_size) pre st, Some (UnicodeEncodeError msg)).
Proof.
  revert st. induction pre as [|p pre IH]; intros st Hall Hc; cbn [app upsert_loop fold_left].
  - destruct (upsert_step_unhashable batch_size st c Hc) as [msg ->]. eauto.
  - apply Forall_cons in Hall as [Hp Hr]. rewrite (upsert_step_hashable _ _ _ Hp).
    apply IH; assumption.
Qed.

Lemma hashable_split (cs : list Chunk) :
  Forall (fun c => hashable c = true) cs \/
  exists pre c post, cs = pre ++ c :: post /\
                     Forall (fun c => hashable c = true) pre /\ hashable c = false.
Proof.
  induction cs as [|c cs [IH|(pre & x & post & -> & Hp & Hx)]].
  - left. constructor.
  - destruct (hashable c) eqn:Ec.
    + left. constructor; assumption.
    + right. exists [], c, cs. split; [reflexivity|]. split; [constructor | exact Ec].
  - destruct (hashable c) eqn:Ec.
    + right. exists (c :: pre), x, post. split; [reflexivity|].
      split; [constructor; assumption | exact Hx].
    + right. exists [], c, (pre ++ x :: post). split; [reflexivity|].
      split; [constructor | exact Ec].
Qed.

(** With the index connected and every text encoding, the upload is the
    upload on the digests. *)
Lemma async_upsert_hashable (api_key : bool) (chunks : list Chunk) (batch_size : Z) :
  connect = None ->
  Forall (fun c => hashable c = true) chunks ->
  async_upsert_to_pinecone api_key chunks batch_size = upload_hashed api_key chunks batch_size.
Proof.
  intros Hc Hall. unfold async_upsert_to_pinecone, upload_hashed.
  destruct api_key; cbn [negb]; [|reflexivity].
  rewrite Hc, (upsert_loop_hashable _ _ _ Hall). reflexivity.
Qed.

Lemma async_upsert_ok_inv (api_key : bool) (chunks : list Chunk) (batch_size : Z) s :
  (async_upsert_to_pinecone api_key chunks batch_size).2 = Ok s ->
  connect = None /\ Forall (fun c => hashable c = true) chunks.
Proof.
  unfold async_upsert_to_pinecone. destruct api_key; cbn [negb]; [|discriminate].
  destruct connect as [e|]; [discriminate|]. intros E. split; [reflexivity|].
  destruct (hashable_split chunks) as [Hall|(pre & c & post & -> & Hp & Hc)]; [exact Hall|].
  destruct (upsert_loop_unhashable batch_size pre c post upload_init Hp Hc) as [msg Hm].
  rewrite Hm in E. discriminate E.
Qed.

Lemma encodable_hashable (chunks : list Chunk) :
  Forall (fun c => encodable (chunk_text c) = true) chunks ->
  Forall (fun c => hashable c = true) chunks.
Proof.
  apply List.Forall_impl. intros c E. unfold hashable. destruct (embedding c); auto.
Qed.

End UploadEncoding.

(** 250 embedded chunks with [batch_size = 100] and an index that
    acknowledges every call: three calls, of 100, 100 and 50 records. *)
Example upload_250_in_three_calls :
  let chunks := map (fun i => embedded_chunk (Z.of_nat i) "clause") (seq 0 250) in
  let r := async_upsert_to_pinecone (H := plain_digest) (H0 := steady_index) true chunks 100 in
  map (fun call => (length call.1, call.2)) r.1 = [(100, true); (100, true); (50, true)] /\
  r.2 = Ok {| total_chunks := 250; uploaded_chunks := 250; upload_status := "success" |}.
Proof. vm_compute. split; reflexivity. Qed.

(* ===================================================================== *)
(** ** Streaming and the pipeline *)
(* ===================================================================== *)

Lemma stream_loop_ok batch_size total : forall texts idx batch,
  idx + length texts = total ->
  texts <> [] \/ batch = [] ->
  exists ys, stream_loop batch_size total idx (map Ok texts) batch = (ys, None) /\
             concat ys = batch ++ texts.
Proof.
  induction texts as [|t texts IH]; intros idx batch Hlen Hne.
  - destruct Hne as [Hne | ->]; [congruence|]. exists []. auto.
  - cbn [map stream_loop].
    destruct ((Z.of_nat (length (batch ++ [t])) =? batch_size)%Z
              || (Z.of_nat idx =? Z.of_nat total - 1)%Z) eqn:E.
    + destruct (IH (S idx) [] ltac:(cbn in Hlen; lia) (or_intror eq_refl)) as (ys & Hy & Hc).
      rewrite Hy. exists ((batch ++ [t]) :: ys). cbn [fst snd concat]. split; [reflexivity|].
      rewrite Hc, <- app_assoc. reflexivity.
    + apply orb_false_iff in E as [_ E]. apply Z.eqb_neq in E.
      assert (Hrest : texts <> []).
      { intros ->. cbn in Hlen. lia. }
      destruct (IH (S idx) (batch ++ [t]) ltac:(cbn in Hlen; lia) (or_introl Hrest))
        as (ys & Hy & Hc).
      exists ys. split; [exact Hy|]. rewrite Hc, <- app_assoc. reflexivity.
Qed.

Lemma stream_loop_fail batch_size total cause post : forall pre idx batch,
  exists ys,
    stream_loop batch_size total idx (map Ok pre ++ Raise cause :: post) batch
    = (ys, Some cause) /\
    concat ys `prefix_of` (batch ++ pre).
Proof.
  induction pre as [|t pre IH]; intros idx batch.
  - exists []. split; [reflexivity | apply prefix_nil].
  - cbn [map app stream_loop].
    destruct ((Z.of_nat (length (batch ++ [t])) =? batch_size)%Z
              || (Z.of_nat idx =? Z.of_nat total - 1)%Z).
    + destruct (IH (S idx) []) as (ys & Hy & Hp). rewrite Hy.
      exists ((batch ++ [t]) :: ys). cbn [fst snd concat]. split; [reflexivity|].
      rewrite <- app_assoc. apply prefix_app, prefix_cons, Hp.
    + destruct (IH (S idx) (batch ++ [t])) as (ys & Hy & Hp).
      exists ys. split; [exact Hy|]. rewrite <- app_assoc in Hp. exact Hp.
Qed.

Lemma stream_with_spec (prefix : string) (batch_size : Z) :
  (forall cause,
      stream_with prefix (Raise cause) batch_size
      = ([], Some (Exception (prefix ++ exn_str cause)))) /\
  (forall texts, exists ys,
      stream_with prefix (Ok (map Ok texts)) batch_size = (ys, None) /\
      concat ys = texts) /\
  (forall pre cause post, exists ys,
      stream_with prefix (Ok (map Ok pre ++ Raise cause :: post)) batch_size
      = (ys, Some (Exception (prefix ++ exn_str cause))) /\
      concat ys `prefix_of` pre).
Proof.
  split; [reflexivity|]. split.
  - intros texts. unfold stream_with.
    destruct (stream_loop_ok batch_size (length (map Ok texts)) texts 0 [])
      as (ys & Hy & Hc); [rewrite length_map; reflexivity | right; reflexivity |].
    rewrite Hy. exists ys. auto.
  - intros pre cause post. unfold stream_with.
    destruct (stream_loop_fail batch_size (length (map Ok pre ++ Raise cause :: post))
                cause post pre 0 []) as (ys & Hy & Hp).
    rewrite Hy. exists ys. auto.
Qed.

Section PipelineFacts.
Context `{CaseFolding} `{Digest} `{EmbeddingModel} `{VectorIndex}.

(** The pipeline reports one of two final states. *)
Lemma pipeline_status file_path file_content query api_key elapsed :
  let stats := fast_process_large_document file_path file_content query api_key elapsed in
  match pipeline_body file_path file_content query api_key elapsed initial_stats with
  | (_, Ok _) => status stats = "completed"%string /\ error stats = None
  | (_, Raise e) => status stats = "error"%string /\ error stats = Some (exn_str e)
  end.
Proof.
  unfold fast_process_large_document, pipeline_body, bind, lift, record.
  repeat match goal with
         | |- context [match ?r with Ok _ => _ | Raise _ => _ end] =>
             destruct r; cbn
         end; auto.
Qed.

Lemma parse_failure_aborts file_path file_content query api_key elapsed e :
  parse_document file_path file_content = Raise e ->
  fast_process_large_document file_path file_content query api_key elapsed
  = set_error e initial_stats.
Proof.
  intros E. unfold fast_process_large_document, pipeline_body, bind, lift. rewrite E. reflexivity.
Qed.

Lemma zero_pages_error file_path file_content query api_key elapsed :
  parse_document file_path file_content = Ok [] ->
  fast_process_large_document file_path file_content query api_key elapsed
  = set_error (ZeroDivisionError "division by zero")
              (set_chunking 0 (set_parsing 0 initial_stats)).
Proof.
  intros E. unfold fast_process_large_document, pipeline_body, bind, lift, record. rewrite E.
  cbn [length intelligent_chunk_split]. 
  destruct query as [[|c q]|]; reflexivity.
Qed.

End PipelineFacts.

(* ===================================================================== *)
(** ** The claims of the specification *)
(* ===================================================================== *)

(** C1: a document with zero pages should end with status "completed",
    all counts 0 and throughput 0. The pipeline instead divides by the
    number of chunks while recording the selection step: whatever the
    collaborators, the query, the environment and the clock, the result has
    status "error" with the message of the division, the two first steps
    recorded with count 0, and no metrics. *)
Theorem zero_page_document_reports_error `{CaseFolding} `{Digest} `{EmbeddingModel}
    `{VectorIndex} (file_content : option PdfSource) (query : option pystr)
    (api_key : bool) (elapsed : float) :
  let stats :=
    fast_process_large_document (Some (Ok [])) file_content query api_key elapsed in
  status stats = "error"%string /\
  error stats = Some "division by zero"%string /\
  steps_parsing stats = Some 0 /\
  steps_chunking stats = Some 0 /\
  steps_selection stats = None /\
  steps_upload stats = None /\
  metrics stats = None.
Proof.
  cbn zeta. rewrite zero_pages_error by reflexivity. cbn. repeat split; reflexivity.
Qed.

(** C2: the chunk texts, in order, are the kept sections of the pages, in
    order, cut into non-empty groups; each text is its group joined by blank
    lines and stripped at both ends. Hence the concatenated chunk texts and
    the concatenated pages have the same characters once white space is
    removed. *)
Theorem chunk_split_preserves_content (texts : list pystr) (max_chunk_chars : Z) :
  (exists groups : list (list pystr),
      concat groups = kept_sections texts /\
      Forall (fun g => g <> []) groups /\
      map chunk_text (intelligent_chunk_split texts max_chunk_chars)
      = map (fun g => strip (join_nn g)) groups) /\
  remove_ws (concat (map chunk_text (intelligent_chunk_split texts max_chunk_chars)))
  = remove_ws (concat texts).
Proof.
  pose proof (chunk_split_groups texts max_chunk_chars) as (gs & E & F & M).
  split; [exists gs; auto|].
  rewrite M, remove_ws_concat, map_map.
  rewrite (map_ext _ (fun g => concat (map remove_ws g)))
    by (intros g; rewrite remove_ws_strip; apply remove_ws_join_nn).
  transitivity (concat (map remove_ws (concat gs))); [apply (concat_map_concat remove_ws)|].
  rewrite E. unfold kept_sections.
  rewrite remove_ws_keep. apply remove_ws_pages.
Qed.

(** C3: every chunk should stay within [max_chunk_chars] unless it is a
    single oversized section. With a budget of 4, the page "ab", blank line,
    "cd" has two kept sections of 2 characters each; they are merged into one
    chunk of 6 characters, because the test before merging does not count the
    separator. *)
Theorem merged_chunk_exceeds_budget :
  let page := lit "ab" ++ [NL; NL] ++ lit "cd" in
  kept_sections [page] = [lit "ab"; lit "cd"] /\
  intelligent_chunk_split [page] 4
  = [ {| chunk_id := 0; chunk_text := page; char_count := Some 6%Z;
         relevance_score := None; embedding := None |} ].
Proof. split; reflexivity. Qed.

(** C4: for a chunk list in ascending chunk_id order, which is the order
    in which the chunker returns its chunks, every keyword list and every
    cap K >= 0, the selection returns at most K chunks, each a chunk of the
    input with a positive score (so never one whose score is 0, and
    possibly fewer than K), ordered by descending score, with ties in
    ascending chunk_id order. *)
Theorem select_most_relevant_chunks_spec `{CaseFolding}
    (h : heap) (chunks : list loc) (query_keywords : list pystr) (K : nat) :
  StronglySorted (fun a b => (chunk_id (h a) < chunk_id (h b))%Z) chunks ->
  let score l := relevance (map lower query_keywords) (h l) in
  exists h' res,
    select_most_relevant_chunks h chunks query_keywords (Z.of_nat K) = Ok (h', res) /\
    length res <= K /\
    Forall (fun l => In l chunks /\ (0 < score l)%Z /\
                     relevance_score (h' l) = Some (score l)) res /\
    StronglySorted (fun a b => (score b < score a)%Z \/
                               (score a = score b /\
                                (chunk_id (h a) < chunk_id (h b))%Z)) res.
Proof.
  intros Hs score.
  destruct (select_most_relevant_chunks_eq h chunks query_keywords (Z.of_nat K))
    as (h' & E & Hh).
  fold score in E. rewrite py_slice_to_nat in E.
  set (sel := List.filter (fun l => (score l >? 0)%Z) chunks) in *.
  exists h', (firstn K (sorted_by_key score sel)). split; [exact E|].
  split; [apply firstn_le_length|]. split.
  - apply Forall_take. eapply Permutation_Forall; [symmetry; apply sorted_by_key_perm|].
    apply List.Forall_forall. intros l Hl. apply List.filter_In in Hl as [Hin Hpos].
    split; [exact Hin|]. split; [apply Z.gtb_lt in Hpos; lia|].
    rewrite Hh. unfold scored. fold (score l).
    apply existsb_eqb_In in Hin. rewrite Hin, Hpos. reflexivity.
  - apply StronglySorted_firstn.
    apply (sorted_by_key_lex score (fun l => chunk_id (h l))).
    unfold sel. clear -Hs. induction Hs as [|x l Hs IH Hall]; simpl; [constructor|].
    destruct (score x >? 0)%Z; [|exact IH]. constructor; [exact IH|].
    rewrite !List.Forall_forall in *. intros y Hy. apply List.filter_In in Hy as [Hy _]. auto.
Qed.

Lemma select_most_relevant_chunks_spec_witness :
  let page := lit "intro" ++ [NL; NL] ++ lit "payment terms" ++ [NL; NL] ++ lit "other terms" in
  let chunks := intelligent_chunk_split [page] 10 in
  let h := heap_of_list chunks in
  let score l := relevance (H := ascii_folding) [lit "payment"] (h l) in
  map chunk_id chunks = [0; 1; 2]%Z /\
  exists h' res,
    select_most_relevant_chunks (H := ascii_folding) h [0; 1; 2] [lit "Payment"] 2
    = Ok (h', res) /\
    length res <= 2 /\
    StronglySorted (fun a b => (score b < score a)%Z \/
                               (score a = score b /\
                                (chunk_id (h a) < chunk_id (h b))%Z)) res.
Proof.
  intros page chunks h score. split; [reflexivity|].
  assert (Hs : StronglySorted (fun a b => (chunk_id (h a) < chunk_id (h b))%Z) [0; 1; 2])
    by (repeat constructor; vm_compute; reflexivity).
  destruct (select_most_relevant_chunks_spec (H := ascii_folding) h [0; 1; 2]
              [lit "Payment"] 2 Hs) as (h' & res & E & L & _ & X).
  exists h', res. split; [exact E|]. split; [exact L | exact X].
Defined.

(** C5 fails as stated: 20 chunks give chunk 0 and the 10 chunks at the odd
    positions, 11 chunks in total. *)
Lemma twenty_chunks_select_eleven :
  no_query_selection (seq 0 20) = Ok [0; 1; 3; 5; 7; 9; 11; 13; 15; 17; 19] /\
  (exists l, no_query_selection (seq 0 20) = Ok l /\ length l <> 10).
Proof.
  split; [reflexivity|]. eexists. split; [reflexivity|]. cbn. lia.
Qed.

(** C5 (amended): for a non-empty list of n chunks and N = max(1, n / 10)
    the no-query selection returns chunk 0 followed by the chunks at
    positions 1, 1 + N, 1 + 2N, ... below n, that is 1 + ceil((n - 1) / N)
    chunks; for n >= 10 that is between 10 and 19 chunks, and 10 exactly
    when n = 10. *)
Theorem no_query_selection_spec {A} (c0 : A) (rest : list A) :
  let chunks := c0 :: rest in
  let n := length chunks in
  let N := Nat.max 1 (n / 10) in
  let count := (n - 1 + N - 1) / N in
  no_query_selection chunks
  = Ok (c0 :: map (fun k => nth (1 + k * N) chunks c0) (seq 0 count)) /\
  (forall k, k < count -> 1 + k * N < n) /\
  (10 <= n -> 10 <= S count <= 19 /\ (S count = 10 <-> n = 10)).
Proof.
  intros chunks n N count.
  assert (HN : 1 <= N) by (unfold N; lia).
  assert (Hn : 1 <= n) by (unfold n, chunks; simpl; lia).
  assert (Hb : forall k, k < count -> 1 + k * N < n)
    by (intros k Hk; apply count_bound; assumption).
  split; [|split; [exact Hb|]].
  - unfold no_query_selection. fold n. fold N.
    rewrite py_range_closed by exact HN. fold count.
    rewrite (collect_total _ (fun i => nth i chunks c0)).
    + cbn [rbind]. rewrite map_map. reflexivity.
    + intros i Hi. apply in_map_iff in Hi as (k & <- & Hk). apply in_seq in Hk.
      rewrite (lookup_nth chunks c0) by (apply Hb; lia). reflexivity.
  - intros H10. destruct (count_range n H10) as [Hr Hi]. fold N in Hr, Hi. fold count in Hr, Hi.
    split; [lia|]. rewrite <- Hi. lia.
Qed.

Lemma no_query_selection_spec_witness :
  10 <= length (seq 0 25) /\
  no_query_selection (seq 0 25) = Ok [0; 1; 3; 5; 7; 9; 11; 13; 15; 17; 19; 21; 23] /\
  1 + 11 * 2 < 25 /\
  10 <= 13 <= 19.
Proof.
  destruct (no_query_selection_spec 0 (seq 1 24)) as (E & B & R).
  split; [cbn; lia|]. split; [exact E|].
  split; [exact (B 11 ltac:(cbn; lia)) | exact (proj1 (R ltac:(cbn; lia)))].
Defined.

(** C6 fails as stated: a fresh embedder given the same text in two chunks
    finds no cache hit for either occurrence and sends the text to the model
    twice, in one invocation. *)
Lemma duplicate_in_one_call_is_embedded_twice :
  let x := lit "boilerplate" in
  scan_cache (H := plain_digest) (embedding_cache new_embedder) [x; x]
  = Ok {| indices_map := ∅;
          uncached_texts := [(0, x, "boilerplate"%string); (1, x, "boilerplate"%string)] |} /\
  match embed_batch (H := plain_digest) (H0 := length_model) new_embedder [x; x] with
  | Ok (e, _) => encode_calls e = [[x; x]]
  | Raise _ => False
  end.
Proof. split; reflexivity. Qed.

(** C6 (amended): with a model that returns one vector per text, a call of
    embed_batch on texts that all encode returns one vector per text and
    invokes the model at most once, on the texts of the call whose hash is
    not yet cached, repeated as often as they occur; a text whose hash is
    cached gets the cached vector. Any later call on texts of that call is
    served from the cache alone: no invocation, cache unchanged. It
    returns for a text the very vector the first call returned for it at a
    position i, whenever the text was cached before the first call or no
    later text of the first call has the same hash (so in particular when
    one text is embedded twice in two calls). A text that does not encode
    makes the call raise UnicodeEncodeError. *)
Theorem embedding_cache_reuse `{Digest} `{EmbeddingModel}
    (e : FastEmbedder) (texts : list pystr) :
  model_total ->
  (Exists (fun t => encodable t = false) texts ->
   exists msg, embed_batch e texts = Raise (UnicodeEncodeError msg)) /\
  (Forall (fun t => encodable t = true) texts ->
   exists e1 vs1,
     embed_batch e texts = Ok (e1, vs1) /\
     length vs1 = length texts /\
     encode_calls e1 =
       encode_calls e ++ match misses (embedding_cache e) texts with
                         | [] => []
                         | m => [m]
                         end /\
     (forall i t v, texts !! i = Some t ->
                    embedding_cache e !! text_digest t = Some v -> vs1 !! i = Some v) /\
     forall texts', (forall t, In t texts' -> In t texts) ->
       exists vs2,
         embed_batch e1 texts' = Ok (load_model e1, vs2) /\
         length vs2 = length texts' /\
         forall i j t, texts !! i = Some t -> texts' !! j = Some t ->
           is_Some (embedding_cache e !! text_digest t) \/
           (forall k t', i < k -> texts !! k = Some t' ->
                         text_digest t' <> text_digest t) ->
           vs2 !! j = vs1 !! i).
Proof.
  intros Hmodel. split; [apply embed_batch_unencodable|]. intros Henc.
  destruct (embed_hashed_spec e texts Hmodel)
    as (e1 & vs1 & E1 & L1 & C1 & _ & K1 & S1 & H1' & V1).
  exists e1, vs1. rewrite (embed_batch_encodable e texts Henc).
  split; [exact E1|]. split; [exact L1|]. split; [exact C1|]. split; [exact H1'|].
  intros texts' Hsub.
  assert (Henc' : Forall (fun t => encodable t = true) texts').
  { apply List.Forall_forall. intros t Ht. rewrite List.Forall_forall in Henc.
    apply Henc, Hsub, Ht. }
  assert (Hnil : misses (embedding_cache e1) texts' = []).
  { unfold misses. clear Henc'. induction texts' as [|t r IH]; [reflexivity|].
    cbn [List.filter].
    assert (Ht : In t texts) by (apply Hsub; left; reflexivity).
    apply list_elem_of_In, list_elem_of_lookup in Ht as [i Hi].
    apply S1, is_miss_false in Hi. rewrite Hi. apply IH.
    intros t' Ht'. apply Hsub. right. exact Ht'. }
  destruct (embed_hashed_spec e1 texts' Hmodel)
    as (e2 & vs2 & E2 & L2 & _ & N2 & _ & _ & H2 & _).
  rewrite (N2 Hnil) in E2. exists vs2. rewrite (embed_batch_encodable e1 texts' Henc').
  split; [exact E2|]. split; [exact L2|].
  intros i j t Hi Hj [[v Hv] | Hlast].
  - rewrite (H1' i t v Hi Hv). apply (H2 j t v Hj). apply K1, Hv.
  - rewrite (V1 i t Hi Hlast). destruct (S1 i t Hi) as [v Hv]. rewrite Hv.
    apply (H2 j t v Hj Hv).
Qed.

Lemma length_model_total : model_total (H := length_model).
Proof.
  intros n ts. eexists. split; [reflexivity | apply length_map].
Qed.

Lemma embedding_cache_reuse_witness :
  let x := lit "clause" in
  let y := lit "notice" in
  exists e1 vs1 vs2,
    embed_batch (H := plain_digest) (H0 := length_model) new_embedder [x; y; x] = Ok (e1, vs1) /\
    encode_calls e1 = [[x; y; x]] /\
    embed_batch (H := plain_digest) (H0 := length_model) e1 [x; y] = Ok (load_model e1, vs2) /\
    vs2 !! 0 = vs1 !! 2 /\ vs2 !! 1 = vs1 !! 1.
Proof.
  intros x y.
  destruct (proj2 (embedding_cache_reuse (H := plain_digest) (H0 := length_model)
                     new_embedder [x; y; x] length_model_total)
                  ltac:(repeat constructor))
    as (e1 & vs1 & E & L & C & _ & R).
  destruct (R [x; y] ltac:(intros t [<-|[<-|[]]]; cbn; tauto)) as (vs2 & E2 & _ & V).
  exists e1, vs1, vs2. split; [exact E|]. split; [exact C|]. split; [exact E2|]. split.
  - apply (V 2 0 x eq_refl eq_refl). right. intros k t' Hk Hl.
    destruct k as [|[|[|k]]]; try lia; discriminate Hl.
  - apply (V 1 1 y eq_refl eq_refl). right. intros k t' Hk Hl.
    destruct k as [|[|[|k]]]; try lia; [|discriminate Hl].
    cbn in Hl. injection Hl as <-. vm_compute. discriminate.
Defined.

(** C7: upsert calls should carry at most [batch_size] records. With
    [batch_size = 2], three embedded chunks and an index that rejects the
    first call, the rejected records stay pending: the second call carries 3
    records. *)
Theorem failed_batch_is_resent_larger :
  let chunks := [embedded_chunk 0 "a"; embedded_chunk 1 "b"; embedded_chunk 2 "c"] in
  let r := async_upsert_to_pinecone (H := plain_digest) (H0 := flaky_index) true chunks 2 in
  map (fun call => (length call.1, call.2)) r.1 = [(2, false); (3, true)] /\
  r.2 = Ok {| total_chunks := 3; uploaded_chunks := 3; upload_status := "success" |}.
Proof. split; reflexivity. Qed.

(** C8: a rejected upsert should be caught and logged, the upload should
    carry on, and the result should be "partial". With an index that
    rejects every call, three embedded chunks and [batch_size = 2], the
    two calls inside the loop are rejected and caught, and the loop carries
    on; the call that flushes the pending records after the loop is
    rejected too, and that exception leaves the function: there is no
    summary. In the pipeline every upload goes through that last call: one
    page with one chunk ends with status "error", the message of the index,
    and no upload step, instead of a "partial" upload. *)
Theorem rejected_final_upsert_is_not_caught :
  let chunks := [embedded_chunk 0 "a"; embedded_chunk 1 "b"; embedded_chunk 2 "c"] in
  let r := async_upsert_to_pinecone (H := plain_digest) (H0 := down_index) true chunks 2 in
  map (fun call => (length call.1, call.2)) r.1 = [(2, false); (3, false); (3, false)] /\
  r.2 = Raise (Exception "index down") /\
  let stats :=
    fast_process_large_document (H := ascii_folding) (H0 := plain_digest)
      (H1 := length_model) (H2 := down_index)
      (Some (Ok [Ok (lit "payment terms")])) None (Some (lit "payment")) true one_second in
  status stats = "error"%string /\
  error stats = Some "index down"%string /\
  (exists es, steps_embedding stats = Some es /\ chunks_embedded es = 1) /\
  steps_upload stats = None.
Proof.
  vm_compute. split; [reflexivity|]. split; [reflexivity|].
  split; [reflexivity|]. split; [reflexivity|]. split; [|reflexivity].
  eexists. split; reflexivity.
Qed.

(** C9 fails as stated: when the second page cannot be extracted, the
    generator yields nothing for it and raises; the pipeline ends with
    status "error" and records no parsing step. *)
Lemma page_failure_aborts_parse :
  let source : PdfSource := Ok [Ok (lit "a"); Raise (Exception "quirk"); Ok (lit "c")] in
  stream_pdf_pages source 5 = ([], Some (Exception "Error streaming PDF: quirk")) /\
  stream_pdf_pages source 1
  = ([[lit "a"]], Some (Exception "Error streaming PDF: quirk")) /\
  let stats :=
    fast_process_large_document (H := ascii_folding) (H0 := plain_digest)
      (H1 := length_model) (H2 := steady_index) (Some source) None None true one_second in
  status stats = "error"%string /\
  error stats = Some "Error streaming PDF: quirk"%string /\
  steps_parsing stats = None.
Proof. vm_compute. repeat split; reflexivity. Qed.

(** C9 (amended): both generators behave alike, each with its own message
    prefix. A source that cannot be opened yields no batch and raises an
    Exception whose message is the prefix followed by the cause. When every
    page can be extracted, the batches cover the pages in order and the run
    ends normally. When a page cannot be extracted, the run raises an
    Exception carrying that cause after yielding only batches of earlier
    pages. In the pipeline either failure gives status "error" with that
    message and none of the steps recorded. *)
Theorem stream_failure_semantics (batch_size : Z) :
  (forall stream prefix,
      (stream = stream_pdf_pages /\ prefix = "Error streaming PDF: "%string) \/
      (stream = stream_upload_file /\ prefix = "Error streaming upload: "%string) ->
      (forall cause,
          stream (Raise cause) batch_size
          = ([], Some (Exception (prefix ++ exn_str cause)))) /\
      (forall texts, exists ys,
          stream (Ok (map Ok texts)) batch_size = (ys, None) /\ concat ys = texts) /\
      (forall pre cause post, exists ys,
          stream (Ok (map Ok pre ++ Raise cause :: post)) batch_size
          = (ys, Some (Exception (prefix ++ exn_str cause))) /\
          concat ys `prefix_of` pre)) /\
  (forall `{CaseFolding} `{Digest} `{EmbeddingModel} `{VectorIndex}
          (source : PdfSource) (cause : exn) file_content query api_key elapsed,
      source = Raise cause \/
      (exists pre post, source = Ok (map Ok pre ++ Raise cause :: post)) ->
      fast_process_large_document (Some source) file_content query api_key elapsed
      = set_error (Exception ("Error streaming PDF: " ++ exn_str cause)) initial_stats /\
      fast_process_large_document None (Some source) query api_key elapsed
      = set_error (Exception ("Error streaming upload: " ++ exn_str cause)) initial_stats).
Proof.
  split.
  - intros stream prefix [[-> ->] | [-> ->]]; apply stream_with_spec.
  - intros ? ? ? ? source cause file_content query api_key elapsed Hsrc.
    split; apply parse_failure_aborts; unfold parse_document.
    + destruct Hsrc as [-> | (pre & post & ->)]; [reflexivity|].
      destruct (stream_with_spec "Error streaming PDF: " 5) as (_ & _ & Hf).
      destruct (Hf pre cause post) as (ys & Hy & _).
      unfold stream_pdf_pages. rewrite Hy. reflexivity.
    + destruct Hsrc as [-> | (pre & post & ->)]; [reflexivity|].
      destruct (stream_with_spec "Error streaming upload: " 5) as (_ & _ & Hf).
      destruct (Hf pre cause post) as (ys & Hy & _).
      unfold stream_upload_file. rewrite Hy. reflexivity.
Qed.

Lemma stream_failure_semantics_witness :
  stream_upload_file (Ok (map Ok [lit "a"; lit "b"; lit "c"])) 2
  = ([[lit "a"; lit "b"]; [lit "c"]], None) /\
  status (fast_process_large_document (H := ascii_folding) (H0 := plain_digest)
            (H1 := length_model) (H2 := steady_index)
            (Some (Raise (Exception "not a PDF"))) None None true one_second)
  = "error"%string.
Proof.
  destruct (stream_failure_semantics 2) as [Hs Hp]. split.
  - destruct (Hs stream_upload_file "Error streaming upload: "%string
                 (or_intror (conj eq_refl eq_refl))) as (_ & Hok & _).
    destruct (Hok [lit "a"; lit "b"; lit "c"]) as (ys & Hy & _).
    rewrite Hy. vm_compute in Hy. injection Hy as <-. reflexivity.
  - exact (f_equal status
             (proj1 (Hp ascii_folding plain_digest length_model steady_index
                        (Raise (Exception "not a PDF")) (Exception "not a PDF")
                        None None true one_second (or_introl eq_refl)))).
Defined.

(** C10 fails as stated: the chunk record of a selected chunk is changed,
    it gains the key relevance_score. *)
Lemma selection_writes_relevance_score :
  let h := heap_of_list [plain_chunk 0 "overview"] in
  relevance_score (h 0) = None /\
  match select_most_relevant_chunks (H := ascii_folding) h [0] [] 10 with
  | Ok (h', _) => relevance_score (h' 0) = Some 100%Z
  | Raise _ => False
  end.
Proof. vm_compute. split; reflexivity. Qed.

(** C10 (amended): the selection returns references taken from the input
    list and changes the store in one way only: every chunk of the input
    list with a positive score has its relevance_score set to that score.
    All other chunk records, and the chunk_id, chunk_text, char_count and
    embedding of every record, are as before. *)
Theorem select_most_relevant_chunks_frame `{CaseFolding}
    (h : heap) (chunks : list loc) (query_keywords : list pystr) (top_k : Z) :
  let score l := relevance (map lower query_keywords) (h l) in
  exists h' res,
    select_most_relevant_chunks h chunks query_keywords top_k = Ok (h', res) /\
    Forall (fun l => In l chunks) res /\
    forall l,
      h' l = (if existsb (Nat.eqb l) chunks && (score l >? 0)%Z
              then with_relevance_score (h l) (score l)
              else h l) /\
      chunk_id (h' l) = chunk_id (h l) /\
      chunk_text (h' l) = chunk_text (h l) /\
      char_count (h' l) = char_count (h l) /\
      embedding (h' l) = embedding (h l).
Proof.
  intros score.
  destruct (select_most_relevant_chunks_eq h chunks query_keywords top_k) as (h' & E & Hh).
  fold score in E. eexists h', _. split; [exact E|]. split.
  - assert (Hsub : Forall (fun l => In l chunks)
                     (sorted_by_key score (List.filter (fun l => (score l >? 0)%Z) chunks))).
    { eapply Permutation_Forall; [symmetry; apply sorted_by_key_perm|].
      apply List.Forall_forall. intros l Hl. apply List.filter_In in Hl. tauto. }
    unfold py_slice_to. destruct (0 <=? top_k)%Z; apply Forall_take, Hsub.
  - intros l. rewrite Hh. split; [reflexivity|]. apply scored_content.
Qed.

(* ===================================================================== *)
(** ** Further properties of the code *)
(* ===================================================================== *)

(** *** Streaming *)

Lemma full_but_last_cons batch_size b ys :
  Z.of_nat (length b) = batch_size -> (1 <= batch_size)%Z ->
  full_but_last batch_size ys -> full_but_last batch_size (b :: ys).
Proof.
  intros Hb H1 Hys. destruct ys as [|y ys]; cbn [full_but_last]; [lia | auto].
Qed.

Lemma stream_loop_batches batch_size total : (1 <= batch_size)%Z ->
  forall texts idx batch,
  idx + length texts = total ->
  (Z.of_nat (length batch) < batch_size)%Z ->
  texts <> [] \/ batch = [] ->
  exists ys, stream_loop batch_size total idx (map Ok texts) batch = (ys, None) /\
             concat ys = batch ++ texts /\
             full_but_last batch_size ys.
Proof.
  intros HB. induction texts as [|t texts IH]; intros idx batch Hlen Hb Hne.
  - destruct Hne as [Hne | ->]; [congruence|]. exists []. cbn. auto.
  - cbn [map stream_loop].
    assert (Hl : length (batch ++ [t]) = S (length batch))
      by (rewrite length_app; cbn; lia).
    destruct (Z.of_nat (length (batch ++ [t])) =? batch_size)%Z eqn:E1; cbn [orb].
    + apply Z.eqb_eq in E1.
      destruct (IH (S idx) [] ltac:(cbn in Hlen; lia) ltac:(cbn; lia) (or_intror eq_refl))
        as (ys & Hy & Hc & Hf).
      rewrite Hy. exists ((batch ++ [t]) :: ys). cbn [fst snd concat].
      split; [reflexivity|]. split; [rewrite Hc, <- app_assoc; reflexivity|].
      apply full_but_last_cons; assumption.
    + apply Z.eqb_neq in E1.
      destruct (Z.of_nat idx =? Z.of_nat total - 1)%Z eqn:E2.
      * apply Z.eqb_eq in E2. assert (texts = []) as ->.
        { destruct texts; [reflexivity|]. cbn in Hlen. lia. }
        exists [batch ++ [t]]. cbn. rewrite app_nil_r. split; [reflexivity|].
        split; [reflexivity|]. rewrite Hl. lia.
      * apply Z.eqb_neq in E2.
        assert (Hrest : texts <> []) by (intros ->; cbn in Hlen; lia).
        destruct (IH (S idx) (batch ++ [t]) ltac:(cbn in Hlen; lia) ltac:(lia)
                    (or_introl Hrest)) as (ys & Hy & Hc & Hf).
        exists ys. split; [exact Hy|]. split; [|exact Hf].
        rewrite Hc, <- app_assoc. reflexivity.
Qed.

Lemma stream_with_batches prefix batch_size texts :
  (1 <= batch_size)%Z ->
  exists ys, stream_with prefix (Ok (map Ok texts)) batch_size = (ys, None) /\
             concat ys = texts /\ full_but_last batch_size ys.
Proof.
  intros HB. unfold stream_with.
  destruct (stream_loop_batches batch_size (length (map Ok texts)) HB texts 0 [])
    as (ys & Hy & Hc & Hf); [rewrite length_map; reflexivity | cbn; lia | auto |].
  rewrite Hy. exists ys. auto.
Qed.

(** X1: with a batch size of at least one, both page generators run to
    the end on a document whose pages can all be read: the batches they
    yield hold all pages in reading order, every batch but the last holds
    exactly batch_size pages, and the last one between one and batch_size
    pages. *)
Theorem stream_batches_are_full (batch_size : Z) (texts : list pystr) :
  (1 <= batch_size)%Z ->
  (exists ys, stream_pdf_pages (Ok (map Ok texts)) batch_size = (ys, None) /\
              concat ys = texts /\ full_but_last batch_size ys) /\
  (exists ys, stream_upload_file (Ok (map Ok texts)) batch_size = (ys, None) /\
              concat ys = texts /\ full_but_last batch_size ys).
Proof.
  intros HB. split; apply stream_with_batches; exact HB.
Qed.

Lemma stream_batches_are_full_witness :
  stream_pdf_pages (Ok (map Ok [lit "a"; lit "b"; lit "c"; lit "d"; lit "e"])) 2
  = ([[lit "a"; lit "b"]; [lit "c"; lit "d"]; [lit "e"]], None).
Proof.
  destruct (stream_batches_are_full 2 [lit "a"; lit "b"; lit "c"; lit "d"; lit "e"]
              ltac:(lia)) as [(ys & Hy & _) _].
  rewrite Hy. vm_compute in Hy. injection Hy as <-. reflexivity.
Defined.

Lemma stream_loop_single batch_size total : forall texts idx batch,
  idx + length texts = total ->
  (batch_size <= 0 \/ Z.of_nat (length batch + length texts) <= batch_size)%Z ->
  texts <> [] ->
  stream_loop batch_size total idx (map Ok texts) batch = ([batch ++ texts], None).
Proof.
  induction texts as [|t texts IH]; intros idx batch Hlen Hb Hne; [congruence|].
  cbn [map stream_loop].
  assert (Hl : length (batch ++ [t]) = S (length batch))
    by (rewrite length_app; cbn; lia).
  destruct texts as [|t' texts].
  - assert (E : (Z.of_nat idx =? Z.of_nat total - 1)%Z = true)
      by (apply Z.eqb_eq; cbn in Hlen; lia).
    rewrite E, orb_true_r. reflexivity.
  - assert (E1 : (Z.of_nat (length (batch ++ [t])) =? batch_size)%Z = false)
      by (apply Z.eqb_neq; cbn [length] in Hb; lia).
    assert (E2 : (Z.of_nat idx =? Z.of_nat total - 1)%Z = false)
      by (apply Z.eqb_neq; cbn in Hlen; lia).
    rewrite E1, E2. cbn [orb].
    rewrite (IH (S idx) (batch ++ [t])); [rewrite <- app_assoc; reflexivity | | | discriminate].
    + cbn in Hlen |- *. lia.
    + rewrite Hl. cbn [length] in *. lia.
Qed.

(** X2: when the batch size is zero or negative, or not smaller than the
    number of pages, both page generators yield the whole document as one
    single batch, and no batch at all for a document without pages. *)
Theorem stream_single_batch (batch_size : Z) (texts : list pystr) :
  (batch_size <= 0 \/ Z.of_nat (length texts) <= batch_size)%Z ->
  stream_pdf_pages (Ok (map Ok texts)) batch_size
  = (match texts with [] => [] | _ :: _ => [texts] end, None) /\
  stream_upload_file (Ok (map Ok texts)) batch_size
  = (match texts with [] => [] | _ :: _ => [texts] end, None).
Proof.
  intros Hb.
  assert (G : forall prefix, stream_with prefix (Ok (map Ok texts)) batch_size
                             = (match texts with [] => [] | _ :: _ => [texts] end, None)).
  { intros prefix. unfold stream_with. destruct texts as [|t texts]; [reflexivity|].
    rewrite (stream_loop_single batch_size _ (t :: texts) 0 []);
      [reflexivity | rewrite length_map; reflexivity | exact Hb | discriminate]. }
  split; apply G.
Qed.

Lemma stream_single_batch_witness :
  stream_pdf_pages (Ok (map Ok [lit "a"; lit "b"; lit "c"])) 0
  = ([[lit "a"; lit "b"; lit "c"]], None) /\
  stream_upload_file (Ok (map Ok [lit "a"; lit "b"; lit "c"])) (-2)
  = ([[lit "a"; lit "b"; lit "c"]], None).
Proof.
  split.
  - exact (proj1 (stream_single_batch 0 [lit "a"; lit "b"; lit "c"] ltac:(lia))).
  - exact (proj2 (stream_single_batch (-2) [lit "a"; lit "b"; lit "c"] ltac:(lia))).
Defined.

Lemma firstn_full_app {A} (a b : list A) k :
  firstn (length a + k) (a ++ b) = a ++ firstn k b.
Proof. rewrite firstn_app_2. reflexivity. Qed.

Lemma stream_loop_lost batch_size total cause post : (1 <= batch_size)%Z ->
  forall pre idx batch,
  idx + length pre + 1 + length post = total ->
  (Z.of_nat (length batch) < batch_size)%Z ->
  exists ys,
    stream_loop batch_size total idx (map Ok pre ++ Raise cause :: post) batch
    = (ys, Some cause) /\
    concat ys
    = firstn ((length batch + length pre) / Z.to_nat batch_size * Z.to_nat batch_size)
             (batch ++ pre).
Proof.
  intros HB. set (B := Z.to_nat batch_size). assert (HB' : 1 <= B) by lia.
  induction pre as [|t pre IH]; intros idx batch Hlen Hb.
  - exists []. split; [reflexivity|]. cbn [concat]. rewrite Nat.add_0_r, Nat.div_small by lia.
    reflexivity.
  - cbn [map app stream_loop].
    assert (Hl : length (batch ++ [t]) = S (length batch))
      by (rewrite length_app; cbn; lia).
    assert (E2 : (Z.of_nat idx =? Z.of_nat total - 1)%Z = false)
      by (apply Z.eqb_neq; cbn in Hlen; lia).
    rewrite E2, orb_false_r.
    destruct (Z.of_nat (length (batch ++ [t])) =? batch_size)%Z eqn:E1.
    + apply Z.eqb_eq in E1.
      destruct (IH (S idx) [] ltac:(cbn in Hlen |- *; lia) ltac:(cbn; lia))
        as (ys & Hy & Hc).
      rewrite Hy. exists ((batch ++ [t]) :: ys). cbn [fst snd concat].
      split; [reflexivity|]. rewrite Hc. cbn [length app Nat.add].
      assert (HlB : length (batch ++ [t]) = B) by lia.
      assert (En : (length batch + length (t :: pre)) / B * B
                   = length (batch ++ [t]) + length pre / B * B).
      { cbn [length]. replace (length batch + S (length pre)) with (1 * B + length pre) by lia.
        rewrite Nat.div_add_l by lia. lia. }
      cbn [length] in En. fold B. rewrite En.
      replace (batch ++ t :: pre) with ((batch ++ [t]) ++ pre)
        by (rewrite <- app_assoc; reflexivity).
      apply (eq_sym (firstn_full_app (batch ++ [t]) pre (length pre / B * B))).
    + apply Z.eqb_neq in E1.
      destruct (IH (S idx) (batch ++ [t]) ltac:(cbn in Hlen |- *; lia) ltac:(lia))
        as (ys & Hy & Hc).
      exists ys. split; [exact Hy|]. rewrite Hc, Hl, <- app_assoc. cbn [length app].
      replace (S (length batch) + length pre) with (length batch + S (length pre)) by lia.
      reflexivity.
Qed.

(** X3: when extract_text fails on a page, stream_pdf_pages has yielded
    the full batches completed before that page and nothing else: the pages
    read into the batch being filled are lost, and the generator ends with
    the wrapped exception. *)
Theorem stream_failure_loses_open_batch (batch_size : Z)
    (pre : list pystr) (cause : exn) (post : list (result pystr)) :
  (1 <= batch_size)%Z ->
  let B := Z.to_nat batch_size in
  exists ys,
    stream_pdf_pages (Ok (map Ok pre ++ Raise cause :: post)) batch_size
    = (ys, Some (Exception ("Error streaming PDF: " ++ exn_str cause))) /\
    concat ys = firstn (length pre / B * B) pre.
Proof.
  intros HB B. unfold stream_pdf_pages, stream_with.
  destruct (stream_loop_lost batch_size (length (map Ok pre ++ Raise cause :: post))
              cause post HB pre 0 []) as (ys & Hy & Hc).
  - rewrite length_app, length_map. cbn. lia.
  - cbn. lia.
  - rewrite Hy. exists ys. split; [reflexivity | exact Hc].
Qed.

Lemma stream_failure_loses_open_batch_witness :
  stream_pdf_pages
    (Ok (map Ok [lit "a"; lit "b"; lit "c"] ++ [Raise (Exception "quirk"); Ok (lit "e")])) 2
  = ([[lit "a"; lit "b"]], Some (Exception "Error streaming PDF: quirk")).
Proof.
  destruct (stream_failure_loses_open_batch 2 [lit "a"; lit "b"; lit "c"]
              (Exception "quirk") [Ok (lit "e")] ltac:(lia)) as (ys & Hy & _).
  rewrite Hy. vm_compute in Hy. injection Hy as <-. reflexivity.
Defined.

(** *** Chunking *)

Lemma StronglySorted_seq (R : nat -> nat -> Prop) : forall n s,
  (forall a b, s <= a -> a < b -> b < s + n -> R a b) ->
  StronglySorted R (seq s n).
Proof.
  induction n as [|n IH]; intros s HR; cbn [seq]; constructor.
  - apply IH. intros a b Ha Hab Hb. apply HR; lia.
  - apply List.Forall_forall. intros b Hb. apply in_seq in Hb. apply HR; lia.
Qed.

Lemma nth_map_seq {A} (f : A -> Z) (l : list A) (d : A) i :
  map f l = map Z.of_nat (seq 0 (length l)) -> i < length l -> f (nth i l d) = Z.of_nat i.
Proof.
  intros Hm Hi.
  assert (E : nth i (map f l) (f d) = nth i (map Z.of_nat (seq 0 (length l))) (f d))
    by (rewrite Hm; reflexivity).
  rewrite map_nth in E. rewrite E.
  rewrite (nth_indep _ (f d) (Z.of_nat 0)) by (rewrite length_map, length_seq; exact Hi).
  rewrite map_nth, seq_nth by exact Hi. reflexivity.
Qed.

(** X4: the chunks of a document are numbered 0, 1, 2, ... in the order
    in which they are returned, so the chunk_id strictly increases along
    the list. *)
Theorem chunk_ids_count_up (texts : list pystr) (max_chunk_chars : Z) :
  let out := intelligent_chunk_split texts max_chunk_chars in
  map chunk_id out = map Z.of_nat (seq 0 (length out)) /\
  StronglySorted
    (fun a b => (chunk_id (heap_of_list out a) < chunk_id (heap_of_list out b))%Z)
    (seq 0 (length out)).
Proof.
  intros out. pose proof (chunk_split_ids texts max_chunk_chars) as Hm. fold out in Hm.
  split; [exact Hm|]. apply StronglySorted_seq. intros a b _ Hab Hb.
  unfold heap_of_list. rewrite !(nth_map_seq chunk_id out) by (exact Hm || lia). lia.
Qed.

Lemma lstrip_length s : length (lstrip s) <= length s.
Proof.
  induction s as [|c s IH]; cbn; [lia|]. destruct (py_isspace c); cbn; lia.
Qed.

Lemma strip_length s : length (strip s) <= length s.
Proof.
  unfold strip, rstrip. rewrite length_rev.
  etransitivity; [apply lstrip_length|]. rewrite length_rev. apply lstrip_length.
Qed.

Lemma lstrip_id s :
  match s with [] => True | c :: _ => py_isspace c = false end -> lstrip s = s.
Proof. destruct s as [|c s]; [reflexivity|]. cbn. intros ->. reflexivity. Qed.

Lemma lstrip_head_ok s :
  match lstrip s with [] => True | c :: _ => py_isspace c = false end.
Proof.
  induction s as [|c s IH]; cbn; [exact I|].
  destruct (py_isspace c) eqn:E; [exact IH | exact E].
Qed.

(** [rstrip] keeps a prefix. *)
Lemma rstrip_prefix s : exists q, s = rstrip s ++ q.
Proof.
  unfold rstrip.
  assert (G : forall r, exists p, r = p ++ lstrip r).
  { induction r as [|c r [p Hp]]; [exists []; reflexivity|]. cbn.
    destruct (py_isspace c); [exists (c :: p); cbn; f_equal; exact Hp | exists []; reflexivity]. }
  destruct (G (rev s)) as [p Hp]. exists (rev p).
  rewrite <- rev_app_distr, <- Hp, rev_involutive. reflexivity.
Qed.

Lemma strip_idem s : strip (strip s) = strip s.
Proof.
  unfold strip at 1.
  assert (H1 : lstrip (strip s) = strip s).
  { apply lstrip_id. unfold strip.
    destruct (rstrip_prefix (lstrip s)) as [q Hq].
    pose proof (lstrip_head_ok s) as Hh. rewrite Hq in Hh.
    destruct (rstrip (lstrip s)); [exact I | exact Hh]. }
  rewrite H1. unfold strip, rstrip. rewrite rev_involutive.
  rewrite (lstrip_id (lstrip (rev (lstrip s)))) by apply lstrip_head_ok. reflexivity.
Qed.

(** Chunks are built from buffers that hold a visible character. *)
Lemma visible_app_r a b : visible b -> visible (a ++ NL :: NL :: b).
Proof.
  intros Hb. apply visible_remove_ws. apply visible_remove_ws in Hb.
  rewrite remove_ws_app. change (remove_ws (NL :: NL :: b)) with (remove_ws b).
  destruct (remove_ws b); [congruence|]. destruct (remove_ws a); discriminate.
Qed.

Lemma chunk_split_buffers (texts : list pystr) (max_chunk_chars : Z) :
  Forall (fun c => exists id cur, c = new_chunk id cur /\ visible cur)
         (intelligent_chunk_split texts max_chunk_chars).
Proof.
  unfold intelligent_chunk_split. rewrite fold_add_page.
  set (P := fun c => exists id cur, c = new_chunk id cur /\ visible cur).
  assert (G : forall secs st,
    Forall P (chunks st) -> (current_chunk st = [] \/ visible (current_chunk st)) ->
    let st' := fold_left (add_section max_chunk_chars) secs st in
    Forall P (chunks st') /\ (current_chunk st' = [] \/ visible (current_chunk st'))).
  { induction secs as [|s secs IH]; intros st Hc Hv; cbn [fold_left]; [auto|].
    apply IH; unfold add_section;
      destruct (truthy (strip s)) eqn:Es; cbn [negb]; try assumption;
      destruct (truthy (current_chunk st)) eqn:Et;
      rewrite ?andb_true_r, ?andb_false_r;
      try destruct (_ >? _)%Z; cbn [chunks current_chunk]; try assumption.
    - apply Forall_app. split; [exact Hc|]. constructor; [|constructor].
      exists (next_id st), (current_chunk st). split; [reflexivity|].
      destruct Hv as [Hn|Hv]; [rewrite Hn in Et; discriminate | exact Hv].
    - right. exact Es.
    - right. apply visible_app_r. exact Es.
    - right. exact Es. }
  destruct (G (concat (map split_nn texts)) split_init) as [Hc Hv];
    [constructor | left; reflexivity |].
  cbn zeta in Hc, Hv. unfold finish.
  destruct (truthy (strip _)) eqn:E; [|exact Hc].
  apply Forall_app. split; [exact Hc|]. constructor; [|constructor].
  eexists _, _. split; [reflexivity | exact E].
Qed.

(** X5: every chunk returned by the chunker has a non-empty text without
    leading or trailing white space, a char_count that is at least the
    length of that text (it counts the buffer before trimming), and neither
    a relevance_score nor an embedding. *)
Theorem chunks_are_trimmed_and_counted (texts : list pystr) (max_chunk_chars : Z) :
  Forall (fun c =>
            chunk_text c <> [] /\
            strip (chunk_text c) = chunk_text c /\
            (exists n, char_count c = Some n /\ (py_len (chunk_text c) <= n)%Z) /\
            relevance_score c = None /\
            embedding c = None)
         (intelligent_chunk_split texts max_chunk_chars).
Proof.
  eapply List.Forall_impl; [|apply chunk_split_buffers].
  intros c (id & cur & -> & Hv). cbn [new_chunk chunk_text char_count relevance_score embedding].
  split; [|split; [apply strip_idem|split; [|auto]]].
  - unfold visible in Hv. destruct (strip cur); [discriminate | discriminate].
  - exists (py_len cur). split; [reflexivity|]. unfold py_len.
    pose proof (strip_length cur). lia.
Qed.

(** X6: every chunk either has a char_count of at most max_chunk_chars
    + 2, or is one single section of the document kept whole. *)
Theorem chunk_over_budget_is_one_section (texts : list pystr) (max_chunk_chars : Z) :
  Forall (fun c => exists n, char_count c = Some n /\
                   ((n <= max_chunk_chars + 2)%Z \/
                    exists s, In s (kept_sections texts) /\ n = py_len s /\
                              chunk_text c = strip s))
         (intelligent_chunk_split texts max_chunk_chars).
Proof.
  eapply List.Forall_impl; [|apply chunk_split_budget].
  intros c (cur & Hn & Ht & [Hw|Hl]); exists (py_len cur); split; auto.
  right. exists cur. auto.
Qed.

Lemma concat_nonempty_length {A} (gs : list (list A)) :
  Forall (fun g => g <> []) gs -> length gs <= length (concat gs).
Proof.
  induction 1 as [|g gs Hg _ IH]; cbn; [lia|].
  rewrite length_app. destruct g; [congruence|]. cbn. lia.
Qed.

(** X7: the chunker returns at most as many chunks as the document has
    non-blank sections, and returns no chunk exactly when the document has
    no non-blank section. *)
Theorem chunk_count_bounds (texts : list pystr) (max_chunk_chars : Z) :
  let out := intelligent_chunk_split texts max_chunk_chars in
  length out <= length (kept_sections texts) /\
  (out = [] <-> kept_sections texts = []).
Proof.
  intros out. destruct (chunk_split_groups texts max_chunk_chars) as (gs & E & F & M).
  fold out in M.
  assert (Hl : length out = length gs).
  { rewrite <- (length_map chunk_text out), M, length_map. reflexivity. }
  split.
  - rewrite Hl, <- E. apply concat_nonempty_length, F.
  - split.
    + intros Ho. rewrite Ho in Hl. destruct gs; [symmetry; exact E | discriminate].
    + intros Hk. rewrite Hk in E.
      pose proof (concat_nonempty_length gs F) as Hc. rewrite E in Hc.
      destruct out; [reflexivity|]. cbn in Hl, Hc. lia.
Qed.

Lemma visible_len s : visible s -> (1 <= py_len s)%Z.
Proof.
  intros Hv. apply visible_truthy in Hv. unfold py_len. destruct s; [discriminate|cbn; lia].
Qed.

(** X8: with max_chunk_chars below 2 nothing is merged: the chunker
    returns one chunk per non-blank section, in order, with the trimmed
    section as text and the untrimmed length as char_count. *)
Theorem tiny_budget_one_chunk_per_section (texts : list pystr) (max_chunk_chars : Z) :
  (max_chunk_chars < 2)%Z ->
  map (fun c => (chunk_text c, char_count c)) (intelligent_chunk_split texts max_chunk_chars)
  = map (fun s => (strip s, Some (py_len s))) (kept_sections texts).
Proof.
  intros Hmax. unfold intelligent_chunk_split, kept_sections. rewrite fold_add_page.
  set (f := fun c => (chunk_text c, char_count c)).
  set (g := fun s => (strip s, Some (py_len s))).
  set (pending := fun st => map f (chunks st)
                            ++ (if truthy (current_chunk st) then [g (current_chunk st)] else [])).
  assert (G : forall secs st ks,
    pending st = map g ks -> (current_chunk st = [] \/ visible (current_chunk st)) ->
    let st' := fold_left (add_section max_chunk_chars) secs st in
    pending st' = map g (ks ++ keep secs) /\
    (current_chunk st' = [] \/ visible (current_chunk st'))).
  { induction secs as [|s secs IH]; intros st ks Hp Hv; cbn [fold_left].
    - unfold keep. cbn. rewrite app_nil_r. auto.
    - unfold keep. cbn [List.filter]. fold (keep secs).
      destruct (truthy (strip s)) eqn:Es.
      + replace (ks ++ s :: keep secs) with ((ks ++ [s]) ++ keep secs)
          by (rewrite <- app_assoc; reflexivity).
        assert (Hs1 := visible_len s Es). assert (Hst := visible_truthy s Es).
        apply IH; unfold add_section; rewrite Es; cbn [negb].
        * destruct Hv as [Hn|Hv].
          -- rewrite Hn. cbn [truthy andb]. rewrite andb_false_r.
             unfold pending in *. cbn [chunks current_chunk]. rewrite Hn in Hp. cbn in Hp.
             rewrite app_nil_r in Hp. rewrite Hst, map_app, <- Hp. reflexivity.
          -- assert (Hc1 := visible_len _ Hv). assert (Hct := visible_truthy _ Hv).
             assert (E : (py_len (current_chunk st) + py_len s >? max_chunk_chars)%Z = true)
               by (apply Z.gtb_lt; lia).
             rewrite E, Hct. cbn [andb].
             unfold pending in *. cbn [chunks current_chunk]. rewrite Hct in Hp.
             rewrite Hst, !map_app, <- Hp. cbn [map]. rewrite <- !app_assoc. reflexivity.
        * destruct (_ && _); cbn [current_chunk]; [right; exact Es|].
          destruct (truthy (current_chunk st)); right; [|exact Es].
          apply visible_remove_ws. apply visible_remove_ws in Es.
          rewrite remove_ws_app. change (remove_ws (NL :: NL :: s)) with (remove_ws s).
          destruct (remove_ws s); [congruence|]. destruct (remove_ws (current_chunk st)); discriminate.
      + apply IH; unfold add_section; rewrite Es; cbn [negb]; assumption. }
  destruct (G (concat (map split_nn texts)) split_init []) as [Hp Hv];
    [reflexivity | left; reflexivity |].
  cbn zeta in Hp, Hv. cbn [app] in Hp. rewrite <- Hp. unfold pending, finish.
  destruct Hv as [Hn|Hv].
  - rewrite Hn. cbn. rewrite app_nil_r. reflexivity.
  - rewrite Hv, (visible_truthy _ Hv), map_app. reflexivity.
Qed.

Lemma tiny_budget_one_chunk_per_section_witness :
  map (fun c => (chunk_text c, char_count c))
      (intelligent_chunk_split [lit "ab" ++ [NL; NL] ++ lit " cd "] 1)
  = [(lit "ab", Some 2%Z); (lit "cd", Some 4%Z)].
Proof.
  rewrite (tiny_budget_one_chunk_per_section _ 1 ltac:(lia)). reflexivity.
Defined.

(** *** Selection *)

(** X9: the selection never fails, and the number of chunks it returns
    is min(top_k, p) for a top_k of at least zero and max(p + top_k, 0) for
    a negative one, where p is the number of input chunks with a positive
    score; when top_k is at least p, the result is a rearrangement of
    exactly those chunks. *)
Theorem selection_size `{CaseFolding}
    (h : heap) (chunks : list loc) (query_keywords : list pystr) (top_k : Z) :
  let score l := relevance (map lower query_keywords) (h l) in
  let positive := List.filter (fun l => (score l >? 0)%Z) chunks in
  exists h' res,
    select_most_relevant_chunks h chunks query_keywords top_k = Ok (h', res) /\
    length res = (if (0 <=? top_k)%Z
                  then Nat.min (Z.to_nat top_k) (length positive)
                  else Z.to_nat (Z.of_nat (length positive) + top_k)) /\
    ((Z.of_nat (length positive) <= top_k)%Z -> Permutation res positive).
Proof.
  intros score positive.
  destruct (select_most_relevant_chunks_eq h chunks query_keywords top_k) as (h' & E & _).
  fold score in E. fold positive in E.
  pose proof (sorted_by_key_perm score positive) as Hp.
  pose proof (Permutation_length Hp) as Hl.
  exists h', (py_slice_to (sorted_by_key score positive) top_k).
  split; [exact E|]. unfold py_slice_to. split.
  - destruct (0 <=? top_k)%Z eqn:Ek; rewrite length_take, Hl; [reflexivity|].
    apply Z.leb_gt in Ek. lia.
  - intros Hk. assert (Ek : (0 <=? top_k)%Z = true) by (apply Z.leb_le; lia).
    rewrite Ek, firstn_all2 by lia. exact Hp.
Qed.

Lemma selection_size_witness :
  let h := heap_of_list [plain_chunk 0 "intro"; plain_chunk 1 "weather";
                         plain_chunk 2 "payment terms"] in
  exists h' res,
    select_most_relevant_chunks (H := ascii_folding) h [0; 1; 2] [lit "payment"] 5
    = Ok (h', res) /\
    Permutation res [0; 2].
Proof.
  intros h.
  destruct (selection_size (H := ascii_folding) h [0; 1; 2] [lit "payment"] 5)
    as (h' & res & E & _ & P).
  exists h', res. split; [exact E|]. apply P. vm_compute. discriminate.
Defined.

Lemma scored_scored `{CaseFolding} kw (h : heap) chunks l :
  scored kw (scored kw h chunks) chunks l = scored kw h chunks l.
Proof.
  assert (Hr : relevance kw (scored kw h chunks l) = relevance kw (h l)).
  { destruct (scored_content kw h chunks l) as (E1 & E2 & _). apply relevance_ext; assumption. }
  unfold scored at 1. rewrite Hr.
  destruct (existsb (Nat.eqb l) chunks && (relevance kw (h l) >? 0)%Z) eqn:E; [|reflexivity].
  unfold scored. rewrite E. reflexivity.
Qed.

Lemma sorted_by_key_ext {A} (f g : A -> Z) (l : list A) :
  (forall x, f x = g x) -> sorted_by_key f l = sorted_by_key g l.
Proof.
  intros E. unfold sorted_by_key, decorate. rewrite (map_ext f g E). reflexivity.
Qed.

Lemma filter_ext_pos {A} (f g : A -> Z) (l : list A) :
  (forall x, f x = g x) ->
  List.filter (fun x => (f x >? 0)%Z) l = List.filter (fun x => (g x >? 0)%Z) l.
Proof. intros E. apply List.filter_ext. intros x. rewrite E. reflexivity. Qed.

(** X10: running the selection again on the chunks it has scored, with
    the same keywords and top_k, returns the same list and leaves every
    chunk record as it is. *)
Theorem selection_is_repeatable `{CaseFolding}
    (h h' : heap) (chunks res : list loc) (query_keywords : list pystr) (top_k : Z) :
  select_most_relevant_chunks h chunks query_keywords top_k = Ok (h', res) ->
  exists h'',
    select_most_relevant_chunks h' chunks query_keywords top_k = Ok (h'', res) /\
    forall l, h'' l = h' l.
Proof.
  intros E.
  destruct (select_most_relevant_chunks_eq h chunks query_keywords top_k) as (h1 & E1 & Hh1).
  rewrite E in E1. injection E1 as <- ->.
  destruct (select_most_relevant_chunks_eq h' chunks query_keywords top_k) as (h2 & E2 & Hh2).
  set (kw := map lower query_keywords) in *.
  assert (Hs : forall l, relevance kw (h' l) = relevance kw (h l)).
  { intros l. rewrite Hh1. destruct (scored_content kw h chunks l) as (I1 & I2 & _).
    apply relevance_ext; assumption. }
  exists h2. split.
  - rewrite E2. do 3 f_equal.
    rewrite (filter_ext_pos _ _ chunks Hs). apply sorted_by_key_ext, Hs.
  - intros l. rewrite Hh2. unfold scored at 1. rewrite Hs, !Hh1.
    destruct (existsb (Nat.eqb l) chunks && (relevance kw (h l) >? 0)%Z) eqn:Eb; [|reflexivity].
    unfold scored. rewrite Eb. reflexivity.
Qed.

Lemma selection_is_repeatable_witness :
  let h := heap_of_list [plain_chunk 0 "intro"; plain_chunk 1 "payment terms"] in
  exists h' h'' res,
    select_most_relevant_chunks (H := ascii_folding) h [0; 1] [lit "payment"] 5 = Ok (h', res) /\
    select_most_relevant_chunks (H := ascii_folding) h' [0; 1] [lit "payment"] 5 = Ok (h'', res) /\
    relevance_score (h'' 1) = relevance_score (h' 1).
Proof.
  intros h.
  destruct (select_most_relevant_chunks_eq (H := ascii_folding) h [0; 1] [lit "payment"] 5)
    as (h' & E & _).
  destruct (selection_is_repeatable (H := ascii_folding) h h' [0; 1] _ [lit "payment"] 5 E)
    as (h'' & E' & Hh).
  eexists h', h'', _. split; [exact E|]. split; [exact E'|]. rewrite Hh. reflexivity.
Defined.

Lemma bump_fold_bounds text points (l : list pystr) : (0 <= points)%Z -> forall score,
  (score <= fold_left (bump text points) l score <= score + points * Z.of_nat (length l))%Z.
Proof.
  intros Hp. induction l as [|x l IH]; intros score; cbn [fold_left length]; [lia|].
  specialize (IH (bump text points score x)). unfold bump in *.
  destruct (contains x text); lia.
Qed.

(** X11: a relevance score lies between 0 and 220 + 50 per keyword; the
    chunk with chunk_id 0 scores at least 100, whatever its text, and any
    other chunk at most 120 + 50 per keyword. *)
Theorem relevance_bounds `{CaseFolding} (keyword_lower : list pystr) (c : Chunk) :
  (0 <= relevance keyword_lower c <= 220 + 50 * Z.of_nat (length keyword_lower))%Z /\
  (chunk_id c = 0%Z -> (100 <= relevance keyword_lower c)%Z) /\
  (chunk_id c <> 0%Z ->
   (relevance keyword_lower c <= 120 + 50 * Z.of_nat (length keyword_lower))%Z).
Proof.
  unfold relevance.
  set (t := lower (chunk_text c)).
  set (s0 := if (chunk_id c =? 0)%Z then 100%Z else 0%Z).
  pose proof (bump_fold_bounds t 50 keyword_lower ltac:(lia) s0) as H1.
  pose proof (bump_fold_bounds t 10 important_terms ltac:(lia)
                (fold_left (bump t 50) keyword_lower s0)) as H2.
  change (Z.of_nat (length important_terms)) with 10%Z in H2.
  assert (Hs0 : (chunk_id c = 0 -> s0 = 100)%Z /\ (chunk_id c <> 0 -> s0 = 0)%Z /\
                (0 <= s0 <= 100)%Z).
  { unfold s0. destruct (chunk_id c =? 0)%Z eqn:E;
      [apply Z.eqb_eq in E | apply Z.eqb_neq in E]; repeat split; intros; lia. }
  destruct Hs0 as (Ha & Hb & Hc).
  destruct (contains (lit "term") t || contains (lit "condition") t);
    repeat split; intros; try specialize (Ha ltac:(assumption));
    try specialize (Hb ltac:(assumption)); lia.
Qed.

Lemma relevance_bounds_witness :
  (100 <= relevance (H := ascii_folding) [lit "payment"] (plain_chunk 0 "Overview"))%Z /\
  (relevance (H := ascii_folding) [lit "payment"] (plain_chunk 3 "Payment terms") <= 170)%Z.
Proof.
  split.
  - exact (proj1 (proj2 (relevance_bounds (H := ascii_folding) [lit "payment"]
                           (plain_chunk 0 "Overview"))) eq_refl).
  - exact (proj2 (proj2 (relevance_bounds (H := ascii_folding) [lit "payment"]
                           (plain_chunk 3 "Payment terms"))) ltac:(discriminate)).
Defined.

(** *** Embedding *)

Section EmbedMore.
Context `{Digest} `{EmbeddingModel}.

Lemma misses_nil_iff (cache : gmap string vector) texts :
  misses cache texts = [] <->
  forall t, In t texts -> is_Some (cache !! text_digest t).
Proof.
  unfold misses. induction texts as [|t r IH]; cbn [List.filter].
  - split; [intros _ t [] | reflexivity].
  - destruct (is_miss cache t) eqn:E.
    + split; [discriminate|]. intros Hall. apply is_miss_true in E.
      destruct (Hall t (or_introl eq_refl)) as [v Hv]. congruence.
    + rewrite IH. apply is_miss_false in E. split.
      * intros Hr t' [<-|Ht']; auto.
      * intros Hall t' Ht'. apply Hall. right. exact Ht'.
Qed.

(** Calls whose texts are all cached do not reach the model. *)
Lemma embed_hashed_hits (e : FastEmbedder) (texts : list pystr) :
  misses (embedding_cache e) texts = [] ->
  exists vs,
    embed_hashed e texts = Ok (load_model e, vs) /\
    length vs = length texts /\
    forall i t, texts !! i = Some t -> vs !! i = embedding_cache e !! text_digest t.
Proof.
  intros Hnil. unfold embed_hashed, embed_scanned.
  set (cache := embedding_cache e) in *.
  change (embedding_cache (load_model e)) with cache.
  destruct (hashed_scan_spec cache texts) as [Hu Hi].
  set (sc := hashed_scan cache texts) in *.
  pose proof (miss_entries_texts cache texts 0) as Hm. rewrite <- Hu, Hnil in Hm.
  destruct (uncached_texts sc) as [|u U] eqn:EU; [|discriminate Hm].
  cbn [rbind].
  destruct (build_result cache cache ∅ (indices_map sc) texts) as (vs & E & Hl & Hv & _).
  - auto.
  - intros i t Ht Em. rewrite (misses_nil_hit cache texts i t Hnil Ht) in Em. discriminate.
  - intros i t Ht Em. split; [apply lookup_empty | apply Hi; assumption].
  - change (embedding_cache (load_model e)) with cache. rewrite E. cbn [rbind].
    exists vs. split; [reflexivity|]. split; [exact Hl|].
    intros i t Ht. pose proof (misses_nil_hit cache texts i t Hnil Ht) as Em.
    apply is_miss_false in Em as [v Hc]. rewrite Hc. eapply Hv; eauto.
Qed.

(** X12: when the hash of every text is in the cache, embed_batch
    returns the cached vectors in the order of the texts without invoking
    the model, and changes nothing but the flag of the loaded model. *)
Theorem cached_texts_skip_the_model (e : FastEmbedder) (texts : list pystr) :
  (forall t, In t texts ->
     exists k, text_md5 t = Ok k /\ is_Some (embedding_cache e !! k)) ->
  exists vs,
    embed_batch e texts = Ok (load_model e, vs) /\
    length vs = length texts /\
    (forall i t k, texts !! i = Some t -> text_md5 t = Ok k ->
                   vs !! i = embedding_cache e !! k) /\
    encode_calls (load_model e) = encode_calls e /\
    embedding_cache (load_model e) = embedding_cache e.
Proof.
  intros Hall.
  assert (Henc : Forall (fun t => encodable t = true) texts).
  { apply List.Forall_forall. intros t Ht. destruct (Hall t Ht) as (k & Hk & _).
    apply (text_md5_inv t k Hk). }
  assert (Hnil : misses (embedding_cache e) texts = []).
  { apply misses_nil_iff. intros t Ht. destruct (Hall t Ht) as (k & Hk & Hc).
    destruct (text_md5_inv t k Hk) as [_ <-]. exact Hc. }
  destruct (embed_hashed_hits e texts Hnil) as (vs & E & Hl & Hv).
  exists vs. rewrite (embed_batch_encodable e texts Henc).
  split; [exact E|]. split; [exact Hl|]. split; [|auto].
  intros i t k Ht Hk. destruct (text_md5_inv t k Hk) as [_ ->]. apply Hv, Ht.
Qed.

(** X13: with a model that returns one vector per text, embed_batch on
    texts that all encode returns one vector per text, keeps every cache
    entry it found, leaves every text of the call cached, and invokes the
    model at most once. *)
Theorem cache_entries_are_kept (e : FastEmbedder) (texts : list pystr) :
  model_total ->
  Forall (fun t => encodable t = true) texts ->
  exists e' vs,
    embed_batch e texts = Ok (e', vs) /\
    length vs = length texts /\
    (forall k v, embedding_cache e !! k = Some v -> embedding_cache e' !! k = Some v) /\
    (forall t, In t texts ->
       exists k, text_md5 t = Ok k /\ is_Some (embedding_cache e' !! k)) /\
    length (encode_calls e') <= S (length (encode_calls e)).
Proof.
  intros Hmodel Henc.
  destruct (embed_hashed_spec e texts Hmodel) as (e' & vs & E & L & C & _ & K & S1 & _).
  exists e', vs. rewrite (embed_batch_encodable e texts Henc).
  split; [exact E|]. split; [exact L|]. split; [exact K|]. split.
  - intros t Ht. exists (text_digest t). split.
    + apply text_md5_encodable. rewrite List.Forall_forall in Henc. apply Henc, Ht.
    + apply list_elem_of_In, list_elem_of_lookup in Ht as [i Hi]. eapply S1, Hi.
  - rewrite C, length_app. destruct (misses _ _); cbn; lia.
Qed.

Lemma attach_fold : forall (cs : list loc) (vs : list vector) (h : heap),
  length cs = length vs ->
  let h' := fold_left attach_embedding (zip cs vs) h in
  (forall l, chunk_id (h' l) = chunk_id (h l) /\ chunk_text (h' l) = chunk_text (h l) /\
             char_count (h' l) = char_count (h l) /\
             relevance_score (h' l) = relevance_score (h l)) /\
  (forall l, ~ In l cs -> h' l = h l) /\
  (forall l, is_Some (embedding (h l)) -> is_Some (embedding (h' l))) /\
  (forall l, In l cs -> is_Some (embedding (h' l))) /\
  (List.NoDup cs -> forall i l, cs !! i = Some l -> embedding (h' l) = vs !! i).
Proof.
  induction cs as [|c cs IH]; intros [|v vs] h Hl; try discriminate.
  - cbn. split; [auto|]. split; [auto|]. split; [auto|]. split; [intros l []|]. intros _ i l Hi. discriminate.
  - cbn [zip zip_with fold_left]. injection Hl as Hl.
    set (h1 := attach_embedding h (c, v)).
    destruct (IH vs h1 Hl) as (I1 & I2 & I3 & I4 & I5). cbn zeta in *.
    assert (H1 : forall l, chunk_id (h1 l) = chunk_id (h l) /\
                           chunk_text (h1 l) = chunk_text (h l) /\
                           char_count (h1 l) = char_count (h l) /\
                           relevance_score (h1 l) = relevance_score (h l)).
    { intros l. unfold h1, attach_embedding, heap_update. cbn [fst snd].
      destruct (Nat.eqb l c) eqn:E; [apply Nat.eqb_eq in E; subst l|]; auto. }
    assert (H2 : forall l, l <> c -> h1 l = h l).
    { intros l Hne. unfold h1, attach_embedding, heap_update. cbn [fst snd].
      apply Nat.eqb_neq in Hne. rewrite Hne. reflexivity. }
    assert (H3 : embedding (h1 c) = Some v).
    { unfold h1, attach_embedding, heap_update. cbn [fst snd]. rewrite Nat.eqb_refl.
      reflexivity. }
    split; [|split; [|split; [|split]]].
    + intros l. destruct (I1 l) as (A1 & A2 & A3 & A4). destruct (H1 l) as (B1 & B2 & B3 & B4).
      repeat split; congruence.
    + intros l Hn. rewrite I2 by (intros Hin; apply Hn; right; exact Hin).
      apply H2. intros ->. apply Hn. left; reflexivity.
    + intros l Hs. apply I3. destruct (Nat.eq_dec l c) as [->|Hne].
      * rewrite H3. eauto.
      * rewrite (H2 l Hne). exact Hs.
    + intros l [<-|Hin]; [apply I3; rewrite H3; eauto | apply I4, Hin].
    + intros Hnd i l Hi. apply List.NoDup_cons_iff in Hnd as [Hc Hnd].
      destruct i as [|i]; cbn in Hi |- *.
      * inversion Hi; subst l. rewrite (I2 c Hc). exact H3.
      * apply (I5 Hnd i l Hi).
Qed.

(** X15: with a model that returns one vector per text, and chunk texts
    that all encode, embed_chunks_parallel returns the list it was given;
    every chunk of the list then has an embedding, the other keys of every
    chunk and the chunks outside the list are unchanged, and, when no
    chunk is listed twice, the chunk at position i holds the vector at
    position i. *)
Theorem embed_chunks_parallel_attaches (e : FastEmbedder) (h : heap) (chunks : list loc) :
  model_total ->
  Forall (fun l => encodable (chunk_text (h l)) = true) chunks ->
  exists e' h' vs,
    embed_batch e (map (fun c => chunk_text (h c)) chunks) = Ok (e', vs) /\
    embed_chunks_parallel e h chunks = Ok (e', h', chunks) /\
    (forall l, In l chunks -> is_Some (embedding (h' l))) /\
    (forall l, chunk_id (h' l) = chunk_id (h l) /\ chunk_text (h' l) = chunk_text (h l) /\
               char_count (h' l) = char_count (h l) /\
               relevance_score (h' l) = relevance_score (h l)) /\
    (forall l, ~ In l chunks -> h' l = h l) /\
    (List.NoDup chunks -> forall i l, chunks !! i = Some l -> embedding (h' l) = vs !! i).
Proof.
  intros Hmodel Henc. unfold embed_chunks_parallel.
  assert (Henc' : Forall (fun t => encodable t = true)
                         (map (fun c => chunk_text (h c)) chunks)).
  { apply List.Forall_map. exact Henc. }
  rewrite (embed_batch_encodable _ _ Henc').
  destruct (embed_hashed_spec e (map (fun c => chunk_text (h c)) chunks) Hmodel)
    as (e' & vs & E & L & _).
  rewrite E. cbn [rbind]. rewrite length_map in L.
  destruct (attach_fold chunks vs h (eq_sym L)) as (I1 & I2 & _ & I4 & I5).
  eexists e', _, vs. split; [reflexivity|]. split; [reflexivity|]. auto.
Qed.

End EmbedMore.

Lemma cached_texts_skip_the_model_witness :
  let e := {| model_loaded := false;
              embedding_cache := {[ "ab"%string := [7%Z] ]};
              encode_calls := [] |} in
  embed_batch (H := plain_digest) (H0 := length_model) e [lit "ab"; lit "ab"]
  = Ok (load_model e, [[7%Z]; [7%Z]]).
Proof.
  intros e.
  destruct (cached_texts_skip_the_model (H := plain_digest) (H0 := length_model) e
              [lit "ab"; lit "ab"]) as (vs & E & L & V & _).
  - intros t [<-|[<-|[]]]; exists "ab"%string; (split; [reflexivity|]);
      vm_compute; eauto.
  - rewrite E. do 2 f_equal.
    destruct vs as [|v0 [|v1 [|? ?]]]; try discriminate L.
    pose proof (V 0 _ "ab"%string eq_refl eq_refl) as V0.
    pose proof (V 1 _ "ab"%string eq_refl eq_refl) as V1.
    vm_compute in V0, V1. injection V0 as ->. injection V1 as ->. reflexivity.
Defined.

Lemma cache_entries_are_kept_witness :
  exists e' vs,
    embed_batch (H := plain_digest) (H0 := length_model) new_embedder [lit "ab"; lit "c"]
    = Ok (e', vs) /\
    is_Some (embedding_cache e' !! "ab"%string) /\
    is_Some (embedding_cache e' !! "c"%string).
Proof.
  destruct (cache_entries_are_kept (H := plain_digest) (H0 := length_model) new_embedder
              [lit "ab"; lit "c"] length_model_total ltac:(repeat constructor))
    as (e' & vs & E & _ & _ & S1 & _).
  exists e', vs. split; [exact E|]. split.
  - destruct (S1 (lit "ab") ltac:(cbn; tauto)) as (k & Hk & Hc).
    vm_compute in Hk. injection Hk as <-. exact Hc.
  - destruct (S1 (lit "c") ltac:(cbn; tauto)) as (k & Hk & Hc).
    vm_compute in Hk. injection Hk as <-. exact Hc.
Defined.

Lemma embed_chunks_parallel_attaches_witness :
  let h := heap_of_list [plain_chunk 0 "ab"; plain_chunk 1 "c"] in
  exists e' h',
    embed_chunks_parallel (H := plain_digest) (H0 := length_model) new_embedder h [0; 1]
    = Ok (e', h', [0; 1]) /\
    is_Some (embedding (h' 0)) /\ is_Some (embedding (h' 1)) /\ h' 2 = h 2.
Proof.
  intros h.
  destruct (embed_chunks_parallel_attaches (H := plain_digest) (H0 := length_model)
              new_embedder h [0; 1] length_model_total ltac:(repeat constructor))
    as (e' & h' & vs & _ & E & S1 & _ & F & _).
  exists e', h'. split; [exact E|]. split; [apply S1; cbn; tauto|].
  split; [apply S1; cbn; tauto|]. apply F. cbn. lia.
Defined.

Lemma collect_raise {A B} (f : A -> result B) (l1 l2 : list A) (x : A) (e : exn) :
  (forall a, In a l1 -> exists b, f a = Ok b) -> f x = Raise e ->
  collect f (l1 ++ x :: l2) = Raise e.
Proof.
  intros Hok Hx. induction l1 as [|a l1 IH]; cbn [app collect].
  - rewrite Hx. reflexivity.
  - destruct (Hok a (or_introl eq_refl)) as [b ->]. cbn [rbind].
    rewrite IH by (intros a' Ha'; apply Hok; right; exact Ha'). reflexivity.
Qed.

Lemma zip_firstn_l {A B} (l : list A) (k : list B) :
  zip (firstn (length k) l) k = zip l k.
Proof.
  revert k. induction l as [|x l IH]; intros [|y k]; cbn; try reflexivity.
  f_equal. apply IH.
Qed.

Lemma seq_split (n j : nat) :
  j < n -> seq 0 n = seq 0 j ++ j :: seq (S j) (n - S j).
Proof.
  intros Hj. replace n with (j + S (n - S j)) at 1 by lia. rewrite seq_app. reflexivity.
Qed.

Section ShortOutput.
Context `{Digest} `{EmbeddingModel}.

Lemma miss_entries_empty (texts : list pystr) : forall s,
  miss_entries ∅ s texts
  = map (fun p => (p.1, p.2, text_digest p.2)) (zip (seq s (length texts)) texts).
Proof.
  induction texts as [|t r IH]; intros s; [reflexivity|].
  cbn [miss_entries length seq zip zip_with map]. unfold is_miss at 1. rewrite lookup_empty.
  rewrite IH. reflexivity.
Qed.

Lemma scan_empty_indices (l : list (nat * pystr)) : forall st,
  indices_map (fold_left (hashed_step ∅) l st) = indices_map st.
Proof.
  induction l as [|p l IH]; intros st; [reflexivity|].
  cbn [fold_left]. rewrite IH. unfold hashed_step, scan_hashed. rewrite lookup_empty. reflexivity.
Qed.

Lemma misses_empty (texts : list pystr) : misses ∅ texts = texts.
Proof.
  unfold misses. induction texts as [|t r IH]; [reflexivity|].
  cbn [List.filter]. unfold is_miss at 1. rewrite lookup_empty, IH. reflexivity.
Qed.

Lemma entries_firstn (texts : list pystr) (j : nat) :
  j <= length texts ->
  map (fun u : nat * pystr * string => u.1.1) (firstn j (miss_entries ∅ 0 texts)) = seq 0 j.
Proof.
  intros Hj. rewrite miss_entries_empty, <- firstn_map, map_map. cbn [fst].
  change (fun x : nat * pystr => x.1) with (@fst nat pystr).
  rewrite fst_zip by (rewrite length_seq; lia).
  rewrite take_seq. f_equal. lia.
Qed.

(** X14: on a fresh embedder and texts that all encode, when the model
    returns fewer vectors than it was given texts, embed_batch raises
    KeyError, whose key is the position of the first text left without a
    vector. *)
Theorem short_model_output_raises (texts : list pystr) (vs : list vector) :
  Forall (fun t => encodable t = true) texts ->
  model_encode 0 texts = Ok vs ->
  length vs < length texts ->
  embed_batch new_embedder texts = Raise (KeyError (nat_str (length vs))).
Proof.
  intros Henc Hm Hlen. rewrite (embed_batch_encodable _ _ Henc).
  unfold embed_hashed, embed_scanned.
  change (embedding_cache (load_model new_embedder)) with (∅ : gmap string vector).
  change (encode_calls (load_model new_embedder)) with (@nil (list pystr)).
  destruct (hashed_scan_spec ∅ texts) as [Hu _].
  assert (Hidx : indices_map (hashed_scan ∅ texts) = ∅).
  { unfold hashed_scan. rewrite scan_empty_indices. reflexivity. }
  set (sc := hashed_scan ∅ texts) in *.
  rewrite Hu, miss_entries_texts, misses_empty. cbn [length]. rewrite Hm.
  destruct (miss_entries ∅ 0 texts) as [|u U] eqn:EU.
  { pose proof (miss_entries_texts ∅ texts 0) as Ht. rewrite EU, misses_empty in Ht.
    rewrite <- Ht in Hlen. cbn in Hlen. lia. }
  rewrite <- EU. cbn [rbind]. rewrite Hidx.
  assert (HU : length (miss_entries ∅ 0 texts) = length texts).
  { rewrite <- (misses_empty texts) at 2. rewrite <- (miss_entries_texts ∅ texts 0).
    rewrite length_map. reflexivity. }
  rewrite <- (zip_firstn_l (miss_entries ∅ 0 texts) vs).
  destruct (store_fold (firstn (length vs) (miss_entries ∅ 0 texts)) vs ∅ ∅)
    as (_ & S2 & S3 & _).
  { rewrite length_take. lia. }
  cbn zeta in S2, S3.
  set (st := fold_left store_step _ _) in *.
  pose proof (entries_firstn texts (length vs) ltac:(lia)) as Hseq.
  rewrite (seq_split (length texts) (length vs) Hlen).
  rewrite (collect_raise _ _ _ _ (KeyError (nat_str (length vs)))); [reflexivity| |].
  - intros i Hi. rewrite <- Hseq in Hi. apply in_map_iff in Hi as (u' & <- & Hu').
    destruct (S3 u' Hu') as [_ [v Hv]]. unfold result_at. rewrite Hv. eauto.
  - unfold result_at. rewrite S2, !lookup_empty; [reflexivity|].
    intros u' Hu' E.
    assert (Hin : In (length vs) (seq 0 (length vs))).
    { rewrite <- Hseq. apply in_map_iff. exists u'. auto. }
    apply in_seq in Hin. lia.
Qed.

End ShortOutput.

Lemma short_model_output_raises_witness :
  embed_batch (H := plain_digest) (H0 := short_model) new_embedder
    [lit "one"; lit "two"; lit "three"]
  = Raise (KeyError "2").
Proof.
  exact (short_model_output_raises (H := plain_digest) (H0 := short_model)
           [lit "one"; lit "two"; lit "three"] _ ltac:(repeat constructor)
           eq_refl ltac:(cbn; lia)).
Defined.

(** *** Upload *)

Section UploadMore.
Context `{Digest} `{VectorIndex}.

Lemma upsert_step_small batch_size st c :
  (batch_size <= 1)%Z -> upsert_step batch_size st c = upsert_step 1 st c.
Proof.
  intros Hb. unfold upsert_step. destruct (embedding c) as [emb|]; [|reflexivity].
  destruct (to_record c emb) as [r|e]; [|reflexivity]. cbn [rbind]. f_equal.
  unfold upsert_if_full.
  assert (Hl : (1 <= Z.of_nat (length (vectors_to_upsert st ++ [r])))%Z)
    by (rewrite length_app; cbn; lia).
  assert (E1 : (Z.of_nat (length (vectors_to_upsert st ++ [r])) >=? batch_size)%Z = true)
    by (rewrite Z.geb_leb; apply Z.leb_le; lia).
  assert (E2 : (Z.of_nat (length (vectors_to_upsert st ++ [r])) >=? 1)%Z = true)
    by (rewrite Z.geb_leb; apply Z.leb_le; lia).
  rewrite E1, E2. reflexivity.
Qed.

(** X19: a batch_size of zero or less behaves exactly like a batch_size
    of one, whatever the index does: the same calls are issued and the same
    result is returned. *)
Theorem small_batch_size_means_one (api_key : bool) (chunks : list Chunk) (batch_size : Z) :
  (batch_size <= 1)%Z ->
  async_upsert_to_pinecone api_key chunks batch_size
  = async_upsert_to_pinecone api_key chunks 1.
Proof.
  intros Hb.
  assert (Hf : forall cs st, upsert_loop batch_size cs st = upsert_loop 1 cs st).
  { induction cs as [|c cs IH]; intros st; cbn [upsert_loop]; [reflexivity|].
    rewrite upsert_step_small by exact Hb.
    destruct (upsert_step 1 st c); [apply IH | reflexivity]. }
  unfold async_upsert_to_pinecone. rewrite Hf. reflexivity.
Qed.

Lemma records_of_length (chunks : list Chunk) :
  length (records_of chunks)
  = length (List.filter (fun c => bool_decide (is_Some (embedding c))) chunks).
Proof.
  unfold records_of. induction chunks as [|c cs IH]; [reflexivity|].
  cbn [flat_map List.filter]. rewrite length_app, IH.
  destruct (embedding c) as [emb|].
  - rewrite bool_decide_eq_true_2 by eauto. reflexivity.
  - rewrite bool_decide_eq_false_2 by (intros [x Hx]; discriminate). reflexivity.
Qed.

Lemma records_of_full (chunks : list Chunk) :
  length (records_of chunks) <= length chunks /\
  (length (records_of chunks) = length chunks <->
   Forall (fun c => is_Some (embedding c)) chunks).
Proof.
  unfold records_of. induction chunks as [|c cs [IH1 IH2]]; cbn [flat_map length].
  - split; [lia|]. split; [constructor | reflexivity].
  - rewrite length_app. destruct (embedding c) as [emb|] eqn:E; cbn [length].
    + split; [lia|]. split.
      * intros Hl. constructor; [rewrite E; eauto | apply IH2; lia].
      * intros Hall. apply Forall_cons in Hall as [_ Hall]. apply IH2 in Hall. lia.
    + split; [lia|]. split; [lia|].
      intros Hall. apply Forall_cons in Hall as [[x Hx] _]. congruence.
Qed.

Lemma embedding_missing_dec (chunks : list Chunk) :
  Forall (fun c => is_Some (embedding c)) chunks \/
  Exists (fun c => embedding c = None) chunks.
Proof.
  induction chunks as [|c cs [IH|IH]].
  - left. constructor.
  - destruct (embedding c) as [emb|] eqn:E.
    + left. constructor; [rewrite E; eauto | exact IH].
    + right. apply List.Exists_cons_hd. exact E.
  - right. apply List.Exists_cons_tl. exact IH.
Qed.

(** X18: whenever the upload returns, total_chunks is the number of
    chunks it was given, uploaded_chunks is the number of those that carry
    an embedding, and the status is "success" exactly when every chunk
    carries one and "partial" exactly when some chunk carries none. When it
    raises, the API key is missing, or the index could not be connected, or
    the text of a chunk that carries an embedding does not encode, or the
    last call issued was rejected with that exception. *)
Theorem summary_is_partial_only_for_missing_embeddings
    (api_key : bool) (chunks : list Chunk) (batch_size : Z) :
  match (async_upsert_to_pinecone api_key chunks batch_size).2 with
  | Ok s =>
      total_chunks s = length chunks /\
      uploaded_chunks s
      = length (List.filter (fun c => bool_decide (is_Some (embedding c))) chunks) /\
      (upload_status s = "success"%string <->
       Forall (fun c => is_Some (embedding c)) chunks) /\
      (upload_status s = "partial"%string <->
       Exists (fun c => embedding c = None) chunks)
  | Raise e =>
      (api_key = false /\ e = ValueError "PINECONE_API_KEY not set") \/
      connect = Some e \/
      (Exists (fun c => hashable c = false) chunks /\
       exists msg, e = UnicodeEncodeError msg) \/
      exists cs batch,
        (async_upsert_to_pinecone api_key chunks batch_size).1 = cs ++ [(batch, false)] /\
        upsert (length cs) batch = Some e
  end.
Proof.
  destruct api_key; [|left; split; reflexivity].
  destruct connect as [ce|] eqn:Ec.
  { unfold async_upsert_to_pinecone. cbn [negb]. rewrite Ec. right. left. reflexivity. }
  destruct (hashable_split chunks) as [Hall|(pre & c & post & -> & Hp & Hc)].
  2:{ unfold async_upsert_to_pinecone. cbn [negb]. rewrite Ec.
      destruct (upsert_loop_unhashable batch_size pre c post upload_init Hp Hc) as [msg ->].
      cbn [snd]. right. right. left. split; [|eauto].
      apply Exists_app. right. left. exact Hc. }
  rewrite (async_upsert_hashable true chunks batch_size Ec Hall).
  pose proof (upload_hashed_outcome true chunks batch_size) as Ho. cbv zeta in Ho.
  destruct (upload_hashed true chunks batch_size) as [cs [s|e]];
    cbn [fst snd] in *.
  - destruct Ho as (_ & _ & ->). unfold summary.
    cbn [total_chunks uploaded_chunks upload_status].
    destruct (records_of_full chunks) as [Hle Hfull].
    split; [reflexivity|]. split; [apply records_of_length|].
    destruct (length (records_of chunks) =? length chunks) eqn:E.
    + apply Nat.eqb_eq in E. split.
      * split; [intros _; apply Hfull, E | reflexivity].
      * split; [discriminate|]. intros Hex. exfalso.
        apply Hfull in E. apply List.Exists_exists in Hex as (c & Hc & Hn).
        rewrite List.Forall_forall in E. destruct (E c Hc) as [x Hx]. congruence.
    + apply Nat.eqb_neq in E. split.
      * split; [discriminate|]. intros Hall'. apply Hfull in Hall'. contradiction.
      * split; [|reflexivity]. intros _.
        apply List.Exists_exists.
        destruct (embedding_missing_dec chunks) as [Hall'|Hex].
        -- apply Hfull in Hall'. contradiction.
        -- apply List.Exists_exists in Hex. exact Hex.
  - destruct Ho as [(Hk & _) | (_ & cs' & batch & -> & _ & Hu)]; [discriminate Hk|].
    right. right. right. exists cs', batch. auto.
Qed.

Lemma acknowledged_full (n : nat) (cs : list (list vrecord * bool)) :
  Forall (fun call => length call.1 = n /\ call.2 = true) cs ->
  length (acknowledged cs) = n * length cs.
Proof.
  unfold acknowledged. induction 1 as [|[b ok] cs [Hb Hok] _ IH]; cbn [List.filter]; [cbn; lia|].
  cbn [fst snd] in Hb, Hok. subst ok. cbn [snd map fst concat length].
  rewrite length_app, IH, Hb. lia.
Qed.

Lemma upsert_fold_full batch_size : (1 <= batch_size)%Z ->
  (forall n b, upsert n b = None) ->
  forall cs st,
  length (vectors_to_upsert st) < Z.to_nat batch_size ->
  Forall (fun call => length call.1 = Z.to_nat batch_size /\ call.2 = true) (calls st) ->
  let st' := fold_left (hashed_upsert_step batch_size) cs st in
  length (vectors_to_upsert st') < Z.to_nat batch_size /\
  Forall (fun call => length call.1 = Z.to_nat batch_size /\ call.2 = true) (calls st').
Proof.
  intros HB Hok. induction cs as [|c cs IH]; intros st Hp Hc; cbn [fold_left]; [auto|].
  apply IH; unfold hashed_upsert_step, upsert_if_full; destruct (embedding c) as [emb|]; try assumption;
    destruct (Z.of_nat (length (vectors_to_upsert st ++ [record_of c emb])) >=? batch_size)%Z
      eqn:E; rewrite ?Hok; cbn [calls vectors_to_upsert]; try assumption;
    rewrite Z.geb_leb in E; rewrite length_app in *; cbn [length] in *.
  - lia.
  - apply Z.leb_gt in E. lia.
  - apply Z.leb_le in E. apply Forall_app. split; [exact Hc|]. constructor; [|constructor].
    cbn [fst snd]. rewrite length_app. cbn [length]. split; [lia | reflexivity].
Qed.

(** X17: when the index is connected and acknowledges every call, the
    chunk texts all encode and batch_size is at least one, the m records
    are sent in m / batch_size calls of exactly batch_size records,
    followed by one call with the remaining records if there are any; all
    m records are counted as uploaded. *)
Theorem steady_upload_call_sizes (chunks : list Chunk) (batch_size : Z) :
  (1 <= batch_size)%Z ->
  connect = None ->
  (forall n b, upsert n b = None) ->
  Forall (fun c => encodable (chunk_text c) = true) chunks ->
  let B := Z.to_nat batch_size in
  let m := length (records_of chunks) in
  let r := async_upsert_to_pinecone true chunks batch_size in
  map (fun call => (length call.1, call.2)) r.1
  = repeat (B, true) (m / B) ++ (if m mod B =? 0 then [] else [(m mod B, true)]) /\
  r.2 = Ok (summary chunks m).
Proof.
  intros HB Hconn Hok Henc B m r. assert (HB' : 1 <= B) by (unfold B; lia).
  subst r. rewrite (async_upsert_hashable true chunks batch_size Hconn
                      (encodable_hashable chunks Henc)).
  pose proof (upload_hashed_outcome true chunks batch_size) as Ho. cbv zeta in Ho.
  destruct (upsert_fold_full batch_size HB Hok chunks upload_init) as [Hp Hc];
    [cbn; lia | constructor |]. cbn zeta in Hp, Hc. fold B in Hp, Hc.
  destruct (upsert_fold_inv batch_size chunks upload_init [] eq_refl eq_refl) as [Hr _].
  cbn zeta in Hr. cbn [app] in Hr. fold m in Hr.
  unfold upload_hashed in *. cbn [negb] in *.
  set (st := fold_left (hashed_upsert_step batch_size) chunks upload_init) in *.
  assert (Hm : m = B * length (calls st) + length (vectors_to_upsert st)).
  { unfold m. rewrite <- Hr, length_app, (acknowledged_full B) by exact Hc. reflexivity. }
  assert (Hdiv : m / B = length (calls st)).
  { symmetry. apply (Nat.div_unique m B _ (length (vectors_to_upsert st))); [exact Hp | exact Hm]. }
  assert (Hmod : m mod B = length (vectors_to_upsert st)).
  { symmetry. apply (Nat.mod_unique m B (length (calls st))); [exact Hp | exact Hm]. }
  assert (Hcalls : map (fun call : list vrecord * bool => (length call.1, call.2)) (calls st)
                   = repeat (B, true) (length (calls st))).
  { clear -Hc. induction Hc as [|[b ok] cs [Hb Ho] _ IH]; [reflexivity|].
    cbn [map length repeat fst snd] in *. rewrite IH, Hb, Ho. reflexivity. }
  rewrite Hdiv, Hmod.
  destruct (vectors_to_upsert st) as [|v vs] eqn:Ev.
  - cbn [fst snd length Nat.eqb] in *. rewrite app_nil_r. split; [exact Hcalls|].
    destruct Ho as (_ & _ & Hs). exact (f_equal Ok Hs).
  - rewrite Hok in *. cbn [fst snd] in *. rewrite map_app, Hcalls. cbn [map fst snd length Nat.eqb].
    split; [reflexivity|]. destruct Ho as (_ & _ & Hs). exact (f_equal Ok Hs).
Qed.

End UploadMore.

Lemma small_batch_size_means_one_witness :
  let chunks := [embedded_chunk 0 "a"; embedded_chunk 1 "b"] in
  map (fun call => (length call.1, call.2))
      (async_upsert_to_pinecone (H := plain_digest) (H0 := steady_index) true chunks (-3)).1
  = [(1, true); (1, true)].
Proof.
  intros chunks.
  rewrite (small_batch_size_means_one (H := plain_digest) (H0 := steady_index)
             true chunks (-3) ltac:(lia)).
  reflexivity.
Defined.

Lemma steady_upload_call_sizes_witness :
  let chunks := map (fun i => embedded_chunk (Z.of_nat i) "clause") (seq 0 7) in
  map (fun call => (length call.1, call.2))
      (async_upsert_to_pinecone (H := plain_digest) (H0 := steady_index) true chunks 3).1
  = [(3, true); (3, true); (1, true)].
Proof.
  intros chunks.
  destruct (steady_upload_call_sizes (H := plain_digest) (H0 := steady_index) chunks 3
              ltac:(lia) eq_refl (fun _ _ => eq_refl) ltac:(repeat constructor)) as [E _].
  rewrite E. reflexivity.
Defined.

(** *** Pipeline *)

Lemma collect_length {A B} (f : A -> result B) (l : list A) : forall ys,
  collect f l = Ok ys -> length ys = length l.
Proof.
  induction l as [|x l IH]; intros ys E; cbn [collect] in E.
  - injection E as <-. reflexivity.
  - destruct (f x) as [y|e]; cbn [rbind] in E; [|discriminate].
    destruct (collect f l) as [ys'|e]; cbn [rbind] in E; [|discriminate].
    injection E as <-. cbn [length]. rewrite (IH ys' eq_refl). reflexivity.
Qed.

Lemma no_query_selection_ok {A} (chunks : list A) :
  exists sel, no_query_selection chunks = Ok sel /\
              length sel <= length chunks /\ length sel <= 19 /\
              (chunks <> [] -> 1 <= length sel) /\
              (forall x, In x sel -> In x chunks).
Proof.
  destruct chunks as [|c0 rest].
  - exists []. repeat split; cbn; try lia; try congruence; auto.
  - set (chunks := c0 :: rest). set (n := length chunks).
    set (N := Nat.max 1 (n / 10)). set (count := (n - 1 + N - 1) / N).
    assert (HN : 1 <= N) by (unfold N; lia).
    assert (Hn : 1 <= n) by (unfold n, chunks; simpl; lia).
    assert (Hb : forall k, k < count -> 1 + k * N < n)
      by (intros k Hk; apply count_bound; assumption).
    exists (c0 :: map (fun k => nth (1 + k * N) chunks c0) (seq 0 count)).
    split; [|split; [|split; [|split]]].
    + unfold no_query_selection. fold n. fold N.
      rewrite py_range_closed by exact HN. fold count.
      rewrite (collect_total _ (fun i => nth i chunks c0)).
      * cbn [rbind]. rewrite map_map. reflexivity.
      * intros i Hi. apply in_map_iff in Hi as (k & <- & Hk). apply in_seq in Hk.
        rewrite (lookup_nth chunks c0) by (apply Hb; lia). reflexivity.
    + cbn [length]. rewrite length_map, length_seq. fold chunks. fold n.
      destruct count as [|k]; [lia|]. specialize (Hb k ltac:(lia)). nia.
    + cbn [length]. rewrite length_map, length_seq.
      destruct (le_lt_dec 10 n) as [H10|H10].
      * destruct (count_range n H10) as [Hr _]. fold N in Hr. fold count in Hr. lia.
      * destruct count as [|k]; [lia|]. specialize (Hb k ltac:(lia)). nia.
    + intros _. cbn [length]. lia.
    + intros x [<-|Hx]; [left; reflexivity|].
      apply in_map_iff in Hx as (k & <- & Hk). apply in_seq in Hk.
      apply nth_In. fold n. apply Hb. lia.
Qed.

(** Characters of the chunk texts come from the pages, or are line feeds. *)
Lemma strip_incl s c : In c (strip s) -> In c s.
Proof.
  unfold strip, rstrip. intros Hc. apply in_rev in Hc. apply lstrip_incl in Hc.
  apply in_rev in Hc. apply lstrip_incl in Hc. exact Hc.
Qed.

Lemma cons_head_In c l f :
  In f (cons_head c l) -> f = [c] \/ (exists x, f = c :: x /\ In x l) \/ In f l.
Proof.
  destruct l as [|x xs]; cbn.
  - intros [<-|[]]. left. reflexivity.
  - intros [<-|Hf]; [right; left; exists x; auto | right; right; right; exact Hf].
Qed.

Lemma split_nn_incl s f c : In f (split_nn s) -> In c f -> In c s.
Proof.
  assert (G : forall n s, length s <= n ->
              forall f c, In f (split_nn s) -> In c f -> In c s).
  { clear. induction n as [|n IH]; intros s Hn f c Hf Hc.
    - destruct s; [|cbn in Hn; lia]. cbn in Hf. destruct Hf as [<-|[]]. destruct Hc.
    - destruct s as [|a [|d s']].
      + cbn in Hf. destruct Hf as [<-|[]]. destruct Hc.
      + cbn in Hf. destruct Hf as [<-|[]]. exact Hc.
      + rewrite split_nn_cons2 in Hf. destruct ((a =? NL)%N && (d =? NL)%N).
        * destruct Hf as [<-|Hf]; [destruct Hc|].
          right. right. apply (IH s' ltac:(cbn in Hn; lia) f c Hf Hc).
        * apply cons_head_In in Hf as [->|[(x & -> & Hx)|Hf]].
          -- destruct Hc as [<-|[]]. left. reflexivity.
          -- destruct Hc as [<-|Hc]; [left; reflexivity|].
             right. apply (IH (d :: s') ltac:(cbn in Hn |- *; lia) x c Hx Hc).
          -- right. apply (IH (d :: s') ltac:(cbn in Hn |- *; lia) f c Hf Hc). }
  apply (G (length s) s (le_n _)).
Qed.

Lemma join_nn_incl g c : In c (join_nn g) -> c = NL \/ exists x, In x g /\ In c x.
Proof.
  induction g as [|x g IH]; [intros []|].
  destruct g as [|y g].
  - cbn. intros Hc. right. exists x. split; [left; reflexivity | exact Hc].
  - rewrite join_nn_cons by discriminate. intros Hc. apply in_app_or in Hc as [Hc|Hc].
    + right. exists x. split; [left; reflexivity | exact Hc].
    + destruct Hc as [<-|[<-|Hc]]; [left; reflexivity | left; reflexivity|].
      destruct (IH Hc) as [->|(z & Hz & Hcz)]; [left; reflexivity|].
      right. exists z. split; [right; exact Hz | exact Hcz].
Qed.

Lemma encodable_In (t : pystr) :
  encodable t = true <-> forall c, In c t -> is_surrogate c = false.
Proof.
  unfold encodable. rewrite forallb_forall. split; intros Hall c Hc.
  - apply negb_true_iff, Hall, Hc.
  - apply negb_true_iff, Hall, Hc.
Qed.

Lemma chunk_split_encodable (texts : list pystr) (max_chunk_chars : Z) :
  Forall (fun t => encodable t = true) texts ->
  Forall (fun c => encodable (chunk_text c) = true)
         (intelligent_chunk_split texts max_chunk_chars).
Proof.
  intros Hall. destruct (chunk_split_groups texts max_chunk_chars) as (gs & E & _ & M).
  apply List.Forall_forall. intros ch Hch.
  assert (Hin : In (chunk_text ch) (map (fun g => strip (join_nn g)) gs))
    by (rewrite <- M; apply in_map, Hch).
  apply in_map_iff in Hin as (g & Hg & Hgin). rewrite <- Hg.
  apply encodable_In. intros c Hc. apply strip_incl, join_nn_incl in Hc.
  destruct Hc as [->|(x & Hx & Hcx)]; [reflexivity|].
  assert (Hk : In x (kept_sections texts)).
  { rewrite <- E. apply in_concat. exists g. auto. }
  unfold kept_sections, keep in Hk. apply List.filter_In in Hk as [Hk _].
  apply in_concat in Hk as (fs & Hfs & Hxf).
  apply in_map_iff in Hfs as (t & <- & Ht).
  rewrite List.Forall_forall in Hall. specialize (Hall t Ht).
  apply (proj1 (encodable_In t) Hall). apply (split_nn_incl t x c Hxf Hcx).
Qed.

Section PipelineMore.
Context `{CaseFolding} `{Digest} `{EmbeddingModel} `{VectorIndex}.

Lemma embed_batch_length (e : FastEmbedder) (texts : list pystr) e' vs :
  embed_batch e texts = Ok (e', vs) -> length vs = length texts.
Proof.
  intros E. apply embed_batch_ok_inv in E as [_ E]. revert E.
  unfold embed_hashed, embed_scanned. intros E.
  destruct (match uncached_texts _ with [] => _ | _ :: _ => _ end) as [[e1 em]|err];
    cbn [rbind] in E; [|discriminate].
  destruct (collect _ _) as [res|err] eqn:Ec; cbn [rbind] in E; [|discriminate].
  injection E as _ <-. apply collect_length in Ec. rewrite length_seq in Ec. exact Ec.
Qed.

Lemma embed_chunks_parallel_ok (e : FastEmbedder) (h : heap) (cs : list loc) emb :
  embed_chunks_parallel e h cs = Ok emb ->
  emb.2 = cs /\ Forall (fun c => is_Some (embedding c)) (map emb.1.2 emb.2).
Proof.
  unfold embed_chunks_parallel. intros E.
  destruct (embed_batch e _) as [[e' vs]|err] eqn:Eb; cbn [rbind] in E; [|discriminate].
  injection E as <-. cbn [fst snd]. split; [reflexivity|].
  apply embed_batch_length in Eb. rewrite length_map in Eb.
  destruct (attach_fold cs vs h (eq_sym Eb)) as (_ & _ & _ & I4 & _).
  apply List.Forall_forall. intros c Hc. apply in_map_iff in Hc as (l & <- & Hl).
  apply I4, Hl.
Qed.

Lemma relevance_first (kw : list pystr) (c : Chunk) :
  chunk_id c = 0%Z -> (100 <= relevance kw c)%Z.
Proof.
  intros Hc. unfold relevance. rewrite Hc. cbn [Z.eqb].
  set (t := lower (chunk_text c)).
  pose proof (bump_fold_bounds t 50 kw ltac:(lia) 100%Z) as B1.
  pose proof (bump_fold_bounds t 10 important_terms ltac:(lia)
                (fold_left (bump t 50) kw 100%Z)) as B2.
  destruct (_ || _); lia.
Qed.

Lemma select_chunks_ok (query : option pystr) (cs : list Chunk) :
  map chunk_id cs = map Z.of_nat (seq 0 (length cs)) ->
  exists sel,
    select_chunks query (heap_of_list cs) (seq 0 (length cs)) = Ok sel /\
    length sel.2 <= length cs /\ length sel.2 <= 19 /\
    (cs <> [] -> 1 <= length sel.2) /\
    (forall l, In l sel.2 ->
       l < length cs /\ chunk_text (sel.1 l) = chunk_text (heap_of_list cs l)).
Proof.
  intros Hid. unfold select_chunks.
  assert (Hnq : exists sel,
    rbind (no_query_selection (seq 0 (length cs))) (fun sel => Ok (heap_of_list cs, sel))
    = Ok sel /\ length sel.2 <= length cs /\ length sel.2 <= 19 /\
    (cs <> [] -> 1 <= length sel.2) /\
    (forall l, In l sel.2 ->
       l < length cs /\ chunk_text (sel.1 l) = chunk_text (heap_of_list cs l))).
  { destruct (no_query_selection_ok (seq 0 (length cs))) as (sel & E & L1 & L2 & L3 & L4).
    rewrite E. cbn [rbind]. exists (heap_of_list cs, sel). cbn [fst snd].
    rewrite length_seq in L1.
    split; [reflexivity|]. split; [exact L1|]. split; [exact L2|]. split.
    - intros Hne. apply L3. destruct cs; [congruence | discriminate].
    - intros l Hl. apply L4, in_seq in Hl. split; [lia | reflexivity]. }
  destruct query as [[|c q]|]; try exact Hnq.
  destruct (select_most_relevant_chunks_eq (heap_of_list cs) (seq 0 (length cs))
              (split_ws (lower (c :: q))) 15) as (h' & E & Hh).
  cbv zeta in E. rewrite E. eexists. split; [reflexivity|]. cbn [fst snd].
  set (score := fun l => relevance _ (heap_of_list cs l)).
  set (pos := List.filter _ _).
  pose proof (Permutation_length (sorted_by_key_perm score pos)) as Hl.
  change 15%Z with (Z.of_nat 15). rewrite py_slice_to_nat, length_take, Hl.
  assert (Hp : length pos <= length cs).
  { unfold pos. etransitivity; [apply List.filter_length_le|]. rewrite length_seq. lia. }
  split; [lia|]. split; [lia|].
  assert (Hmem : forall l, In l (firstn 15 (sorted_by_key score pos)) ->
            l < length cs /\ chunk_text (h' l) = chunk_text (heap_of_list cs l)).
  { intros l Hl'. split.
    - apply list_elem_of_In, (subseteq_take 15), list_elem_of_In in Hl'.
      apply (Permutation_in _ (sorted_by_key_perm score pos)) in Hl'.
      unfold pos in Hl'. apply List.filter_In in Hl' as [Hl' _]. apply in_seq in Hl'. lia.
    - rewrite Hh. apply scored_content. }
  split; [|exact Hmem]. intros Hne.
  assert (Hin0 : In 0 pos).
  { unfold pos. apply List.filter_In. split.
    - apply in_seq. destruct cs; [congruence | cbn; lia].
    - apply Z.gtb_lt. unfold score.
      assert (Hc : chunk_id (heap_of_list cs 0) = 0%Z).
      { destruct cs as [|c0 cs']; [congruence|]. cbn in Hid. injection Hid as Hc _. exact Hc. }
      pose proof (relevance_first (map lower (split_ws (lower (c :: q)))) _ Hc). lia. }
  destruct pos; [destruct Hin0 | cbn; lia].
Qed.

Lemma pipeline_after_embedding file_path file_content query api_key elapsed texts sel red emb :
  parse_document file_path file_content = Ok texts ->
  select_chunks query (heap_of_list (intelligent_chunk_split texts 2000))
                (seq 0 (length (intelligent_chunk_split texts 2000))) = Ok sel ->
  percent_less (length (intelligent_chunk_split texts 2000)) (length sel.2) = Ok red ->
  embed_chunks_parallel new_embedder sel.1 sel.2 = Ok emb ->
  fast_process_large_document file_path file_content query api_key elapsed
  = let s4 := after_embedding texts sel red emb in
    match (async_upsert_to_pinecone api_key (map emb.1.2 emb.2) 100).2 with
    | Raise e => set_error e s4
    | Ok up =>
        let s6 := set_completed elapsed (set_upload up s4) in
        match percent_less (length (intelligent_chunk_split texts 2000)) (length emb.2) with
        | Raise e => set_error e s6
        | Ok ered =>
            match float_div_int elapsed (Z.of_nat (length texts)) with
            | Raise e => set_error e s6
            | Ok tpp =>
                match int_div_float (Z.of_nat (length texts)) elapsed with
                | Raise e => set_error e s6
                | Ok thr =>
                    set_metrics
                      {| documents_processed := 1;
                         total_pages := length texts;
                         total_chunks_created := length (intelligent_chunk_split texts 2000);
                         chunks_uploaded := length emb.2;
                         embedding_reduction := ered;
                         time_per_page := tpp;
                         throughput := (format_f 1 thr ++ " pages/second")%string |} s6
                end
            end
        end
    end.
Proof.
  intros Ep Es Er Ee.
  unfold fast_process_large_document, pipeline_body, bind, lift, record.
  rewrite Ep. cbv zeta. rewrite Es, Er, Ee.
  destruct (async_upsert_to_pinecone api_key _ 100).2; [|reflexivity].
  destruct (percent_less _ (length emb.2)); [|reflexivity].
  destruct (float_div_int elapsed _); [|reflexivity].
  destruct (int_div_float _ elapsed); reflexivity.
Qed.

End PipelineMore.

Lemma chunk_split_nil_iff (texts : list pystr) (max_chunk_chars : Z) :
  intelligent_chunk_split texts max_chunk_chars = [] <-> kept_sections texts = [].
Proof.
  destruct (chunk_split_groups texts max_chunk_chars) as (gs & E & F & M).
  assert (Hl : length (intelligent_chunk_split texts max_chunk_chars) = length gs).
  { rewrite <- (length_map chunk_text), M, length_map. reflexivity. }
  split.
  - intros Ho. rewrite Ho in Hl. destruct gs; [symmetry; exact E | discriminate].
  - intros Hk. rewrite Hk in E.
    pose proof (concat_nonempty_length gs F) as Hc. rewrite E in Hc.
    destruct (intelligent_chunk_split texts max_chunk_chars); [reflexivity|].
    cbn in Hl, Hc. lia.
Qed.

Lemma percent_less_ok (total part : nat) :
  total <> 0 -> exists q, percent_less total part = Ok q.
Proof.
  intros Ht. unfold percent_less, int_truediv.
  destruct (Z.eqb_spec (Z.of_nat total) 0) as [E|E]; [lia|]. cbn [rbind]. eauto.
Qed.

Section UploadShort.
Context `{Digest} `{VectorIndex}.

Lemma upsert_fold_below batch_size : forall (cs : list Chunk) st,
  (Z.of_nat (length (vectors_to_upsert st) + length (records_of cs)) < batch_size)%Z ->
  fold_left (hashed_upsert_step batch_size) cs st
  = {| vectors_to_upsert := vectors_to_upsert st ++ records_of cs;
       uploaded_count := uploaded_count st;
       calls := calls st |}.
Proof.
  induction cs as [|c cs IH]; intros st Hb; cbn [fold_left].
  - unfold records_of. cbn [flat_map]. rewrite app_nil_r. destruct st; reflexivity.
  - unfold records_of in *. cbn [flat_map] in *. rewrite length_app in Hb.
    unfold hashed_upsert_step, upsert_if_full at 2. destruct (embedding c) as [emb|].
    + cbn [length] in Hb.
      destruct (Z.of_nat (length (vectors_to_upsert st ++ [record_of c emb])) >=? batch_size)%Z
        eqn:E.
      * rewrite Z.geb_leb in E. apply Z.leb_le in E. rewrite length_app in E. cbn in E. lia.
      * rewrite IH; cbn [vectors_to_upsert uploaded_count calls].
        -- rewrite <- app_assoc. reflexivity.
        -- rewrite length_app. cbn [length]. lia.
    + cbn [length] in Hb. rewrite IH by (cbn [app]; lia). reflexivity.
Qed.

(** X16: when the index is connected, the chunk texts all encode and
    fewer chunks carry an embedding than batch_size, the upload issues no
    call inside the loop: it sends all records in one final call, whose
    rejection leaves the function as an exception, and issues no call at
    all when no chunk carries an embedding. *)
Theorem short_upload_is_one_call (chunks : list Chunk) (batch_size : Z) :
  connect = None ->
  Forall (fun c => encodable (chunk_text c) = true) chunks ->
  (Z.of_nat (length (records_of chunks)) < batch_size)%Z ->
  async_upsert_to_pinecone true chunks batch_size
  = match records_of chunks with
    | [] => ([], Ok (summary chunks 0))
    | _ :: _ =>
        match upsert 0 (records_of chunks) with
        | None => ([(records_of chunks, true)],
                   Ok (summary chunks (length (records_of chunks))))
        | Some e => ([(records_of chunks, false)], Raise e)
        end
    end.
Proof.
  intros Hconn Henc Hb.
  rewrite (async_upsert_hashable true chunks batch_size Hconn
             (encodable_hashable chunks Henc)).
  unfold upload_hashed. cbn [negb].
  rewrite upsert_fold_below by (cbn; lia).
  cbn [vectors_to_upsert uploaded_count calls upload_init app length].
  destruct (records_of chunks); [reflexivity|]. destruct (upsert 0 _); reflexivity.
Qed.

End UploadShort.

Lemma short_upload_is_one_call_witness :
  let chunks := [embedded_chunk 0 "a"; plain_chunk 1 "b"; embedded_chunk 2 "c"] in
  (async_upsert_to_pinecone (H := plain_digest) (H0 := down_index) true chunks 100).2
  = Raise (Exception "index down").
Proof.
  intros chunks.
  rewrite (short_upload_is_one_call (H := plain_digest) (H0 := down_index) chunks 100
             eq_refl ltac:(repeat constructor) ltac:(vm_compute; reflexivity)).
  reflexivity.
Defined.

Section PipelineTheorems.
Context `{CaseFolding} `{Digest} `{EmbeddingModel} `{VectorIndex}.

(** X21: a document that can be read but has no non-blank section
    (for instance only blank pages) ends with status "error" and the
    message "division by zero"; the parsing step records the number of
    pages, the chunking step records 0 chunks, and no later step is
    recorded. *)
Theorem blank_document_reports_error
    (file_path file_content : option PdfSource) (query : option pystr)
    (api_key : bool) (elapsed : float) (texts : list pystr) :
  parse_document file_path file_content = Ok texts ->
  kept_sections texts = [] ->
  fast_process_large_document file_path file_content query api_key elapsed
  = set_error (ZeroDivisionError "division by zero")
              (set_chunking 0 (set_parsing (length texts) initial_stats)).
Proof.
  intros Ep Hk. apply (chunk_split_nil_iff texts 2000) in Hk.
  unfold fast_process_large_document, pipeline_body, bind, lift, record.
  rewrite Ep. cbv zeta. rewrite Hk. cbn [length seq].
  destruct query as [[|c q]|]; reflexivity.
Qed.

(** The steps up to the embedding succeed on a document with a section,
    whatever the query, and select chunks of the document. *)
Lemma pipeline_selects file_path file_content (query : option pystr) texts :
  parse_document file_path file_content = Ok texts ->
  kept_sections texts <> [] ->
  exists sel red,
    select_chunks query (heap_of_list (intelligent_chunk_split texts 2000))
                  (seq 0 (length (intelligent_chunk_split texts 2000))) = Ok sel /\
    percent_less (length (intelligent_chunk_split texts 2000)) (length sel.2) = Ok red /\
    1 <= length sel.2 <= 19 /\
    length sel.2 <= length (intelligent_chunk_split texts 2000) /\
    (Forall (fun t => encodable t = true) texts ->
     Forall (fun t => encodable t = true) (map (fun c => chunk_text (sel.1 c)) sel.2)).
Proof.
  intros Ep Hk.
  assert (Hne : intelligent_chunk_split texts 2000 <> []).
  { intros E. apply chunk_split_nil_iff in E. contradiction. }
  destruct (select_chunks_ok query _ (chunk_split_ids texts 2000))
    as (sel & Es & L1 & L2 & L3 & L4).
  destruct (percent_less_ok (length (intelligent_chunk_split texts 2000)) (length sel.2))
    as [red Er].
  { destruct (intelligent_chunk_split texts 2000); [congruence | discriminate]. }
  exists sel, red. specialize (L3 Hne). repeat split; auto.
  intros Henc. apply (chunk_split_encodable texts 2000) in Henc.
  apply List.Forall_forall. intros t Ht. apply in_map_iff in Ht as (l & <- & Hl).
  destruct (L4 l Hl) as [Hlt ->]. rewrite List.Forall_forall in Henc.
  apply Henc. unfold heap_of_list. apply nth_In, Hlt.
Qed.

(** X20: on a document with at least one non-blank section and no
    lone surrogate on any page, and a model that returns one vector per
    text, a missing PINECONE_API_KEY is only found after the embedding: the
    result has status "error" with the message "PINECONE_API_KEY not set",
    the embedding step is recorded with at least one chunk embedded and
    cached, and neither an upload step nor metrics are recorded. *)
Theorem missing_api_key_is_found_after_embedding
    (file_path file_content : option PdfSource) (query : option pystr)
    (elapsed : float) (texts : list pystr) :
  parse_document file_path file_content = Ok texts ->
  kept_sections texts <> [] ->
  Forall (fun t => encodable t = true) texts ->
  model_total ->
  let stats := fast_process_large_document file_path file_content query false elapsed in
  status stats = "error"%string /\
  error stats = Some "PINECONE_API_KEY not set"%string /\
  (exists es, steps_embedding stats = Some es /\
              1 <= chunks_embedded es /\ 1 <= cached_embeddings es) /\
  steps_upload stats = None /\ metrics stats = None.
Proof.
  intros Ep Hk Henc Hmodel stats.
  destruct (pipeline_selects file_path file_content query texts Ep Hk)
    as (sel & red & Es & Er & Hl & _ & Hse). specialize (Hse Henc).
  destruct (embed_hashed_spec new_embedder (map (fun c => chunk_text (sel.1 c)) sel.2) Hmodel)
    as (e' & vs & Eb & Lv & _ & _ & _ & Hc & _).
  rewrite <- (embed_batch_encodable _ _ Hse) in Eb.
  assert (Ee : embed_chunks_parallel new_embedder sel.1 sel.2
               = Ok (e', fold_left attach_embedding (zip sel.2 vs) sel.1, sel.2)).
  { unfold embed_chunks_parallel. rewrite Eb. reflexivity. }
  unfold stats.
  rewrite (pipeline_after_embedding _ _ _ _ _ _ _ _ _ Ep Es Er Ee).
  cbv zeta. unfold async_upsert_to_pinecone. cbn [negb snd].
  unfold after_embedding. cbn [set_error set_embedding status error steps_embedding
                                steps_upload metrics set_selection set_chunking set_parsing
                                initial_stats fst snd].
  split; [reflexivity|]. split; [reflexivity|]. split; [|split; reflexivity].
  eexists. split; [reflexivity|]. cbn [chunks_embedded cached_embeddings]. split; [lia|].
  destruct sel.2 as [|l ls] eqn:El; [cbn in Hl; lia|].
  pose proof (map_size_ne_0_lookup_2 (embedding_cache e') _
                (Hc 0 (chunk_text (sel.1 l)) eq_refl)). lia.
Qed.

(** X23: on a document with at least one non-blank section and no
    lone surrogate on any page, when the first invocation of the model
    raises, the result has status "error" with the message of that
    exception; the selection step is recorded with at least one chunk, and
    neither an embedding step nor an upload step is recorded. *)
Theorem embedding_failure_stops_before_upload
    (file_path file_content : option PdfSource) (query : option pystr)
    (api_key : bool) (elapsed : float) (texts : list pystr) (e : exn) :
  parse_document file_path file_content = Ok texts ->
  kept_sections texts <> [] ->
  Forall (fun t => encodable t = true) texts ->
  (forall ts, model_encode 0 ts = Raise e) ->
  let stats := fast_process_large_document file_path file_content query api_key elapsed in
  status stats = "error"%string /\
  error stats = Some (exn_str e) /\
  (exists ss, steps_selection stats = Some ss /\ 1 <= selected_chunks ss) /\
  steps_embedding stats = None /\ steps_upload stats = None.
Proof.
  intros Ep Hk Henc Hfail stats.
  destruct (pipeline_selects file_path file_content query texts Ep Hk)
    as (sel & red & Es & Er & Hl & _ & Hse). specialize (Hse Henc).
  assert (Ee : embed_chunks_parallel new_embedder sel.1 sel.2 = Raise e).
  { unfold embed_chunks_parallel. rewrite (embed_batch_encodable _ _ Hse).
    unfold embed_hashed, embed_scanned.
    change (embedding_cache (load_model new_embedder)) with (∅ : gmap string vector).
    destruct (hashed_scan_spec ∅ (map (fun c => chunk_text (sel.1 c)) sel.2)) as [Hu _].
    rewrite Hu. destruct sel.2 as [|l ls]; [cbn in Hl; lia|].
    cbn [map miss_entries]. unfold is_miss at 1. rewrite lookup_empty.
    cbn [encode_calls load_model new_embedder length]. rewrite Hfail. reflexivity. }
  unfold stats, fast_process_large_document, pipeline_body, bind, lift, record.
  rewrite Ep. cbv zeta. rewrite Es, Er, Ee.
  cbn. split; [reflexivity|]. split; [reflexivity|]. split; [|split; reflexivity].
  eexists. split; [reflexivity|]. cbn. lia.
Qed.

End PipelineTheorems.

Lemma float_div_int_ok (a : float) (n : nat) :
  n <> 0 -> float_div_int a (Z.of_nat n) = Ok (PrimFloat.div a (float_of_nat n)).
Proof.
  intros Hn. unfold float_div_int.
  destruct (Z.eqb_spec (Z.of_nat n) 0) as [E|E]; [lia | reflexivity].
Qed.

Lemma float_div_int_inv (a : float) (n : nat) q :
  float_div_int a (Z.of_nat n) = Ok q -> n <> 0.
Proof.
  unfold float_div_int. destruct (Z.eqb_spec (Z.of_nat n) 0) as [E|E]; [discriminate | lia].
Qed.

Lemma int_div_float_ok (n : nat) (b : float) :
  is_zero b = false ->
  int_div_float (Z.of_nat n) b = Ok (PrimFloat.div (float_of_nat n) b).
Proof. intros Hb. unfold int_div_float. rewrite Hb. reflexivity. Qed.

Lemma int_div_float_inv (n : nat) (b : float) q :
  int_div_float (Z.of_nat n) b = Ok q -> is_zero b = false.
Proof. unfold int_div_float. destruct (is_zero b); [discriminate | reflexivity]. Qed.

Section PipelineTheorems2.
Context `{CaseFolding} `{Digest} `{EmbeddingModel} `{VectorIndex}.

Lemma all_embedded_summary (chunks : list Chunk) :
  Forall (fun c => is_Some (embedding c)) chunks ->
  summary chunks (length (records_of chunks))
  = {| total_chunks := length chunks; uploaded_chunks := length chunks;
       upload_status := "success" |}.
Proof.
  intros Hall. apply (proj2 (records_of_full chunks)) in Hall.
  unfold summary. rewrite Hall, Nat.eqb_refl. reflexivity.
Qed.

(** X22: a result with status "completed" is consistent: the API key
    was present and the elapsed time is not zero, no error is recorded, the
    numbers of selected, embedded and uploaded chunks are the same number
    between 1 and 19, which is at most the number of chunks created, the
    upload status is "success" (never "partial"), and the metrics repeat
    the recorded page and chunk counts with at least one page. *)
Theorem completed_run_is_consistent
    (file_path file_content : option PdfSource) (query : option pystr)
    (api_key : bool) (elapsed : float) :
  let stats := fast_process_large_document file_path file_content query api_key elapsed in
  status stats = "completed"%string ->
  exists n red cached m,
    api_key = true /\ is_zero elapsed = false /\ error stats = None /\
    steps_selection stats = Some {| selected_chunks := n; reduction := red |} /\
    steps_embedding stats = Some {| chunks_embedded := n; cached_embeddings := cached |} /\
    steps_upload stats
    = Some {| total_chunks := n; uploaded_chunks := n; upload_status := "success" |} /\
    total_time stats = Some elapsed /\
    metrics stats = Some m /\ chunks_uploaded m = n /\
    steps_parsing stats = Some (total_pages m) /\
    steps_chunking stats = Some (total_chunks_created m) /\
    1 <= total_pages m /\ 1 <= n <= 19 /\ n <= total_chunks_created m.
Proof.
  intros stats Hs. unfold stats in *. clear stats.
  destruct (parse_document file_path file_content) as [texts|e] eqn:Ep.
  2:{ rewrite (parse_failure_aborts _ _ _ _ _ _ Ep) in Hs. discriminate Hs. }
  destruct (kept_sections texts) as [|k ks] eqn:Ek.
  { exfalso. apply (chunk_split_nil_iff texts 2000) in Ek. revert Hs.
    unfold fast_process_large_document, pipeline_body, bind, lift, record.
    rewrite Ep. cbv zeta. rewrite Ek. cbn [length seq].
    destruct query as [[|c q]|]; discriminate. }
  destruct (pipeline_selects file_path file_content query texts Ep
              ltac:(rewrite Ek; discriminate)) as (sel & red & Es & Er & Hl & Hle & _).
  destruct (embed_chunks_parallel new_embedder sel.1 sel.2) as [emb|e] eqn:Ee.
  2:{ exfalso. revert Hs.
      unfold fast_process_large_document, pipeline_body, bind, lift, record.
      rewrite Ep. cbv zeta. rewrite Es, Er, Ee. discriminate. }
  rewrite (pipeline_after_embedding _ _ _ _ _ _ _ _ _ Ep Es Er Ee) in Hs |- *.
  cbv zeta in Hs |- *.
  destruct (embed_chunks_parallel_ok _ _ _ _ Ee) as [E2 Hall].
  pose proof (upload_hashed_outcome api_key (map emb.1.2 emb.2) 100) as Ho. cbv zeta in Ho.
  destruct (async_upsert_to_pinecone api_key (map emb.1.2 emb.2) 100).2 as [up|e] eqn:Eu;
    [|discriminate Hs].
  destruct (async_upsert_ok_inv _ _ _ _ Eu) as [Hconn Hhash].
  rewrite (async_upsert_hashable _ _ _ Hconn Hhash) in Eu. rewrite Eu in Ho.
  destruct Ho as (Hk & _ & Hup). rewrite (all_embedded_summary _ Hall) in Hup.
  rewrite length_map, E2 in Hup.
  destruct (percent_less _ (length emb.2)) as [ered|e]; [|discriminate Hs].
  destruct (float_div_int elapsed _) as [tpp|e] eqn:E1; [|discriminate Hs].
  destruct (int_div_float _ elapsed) as [thr|e] eqn:E3; [|discriminate Hs].
  apply float_div_int_inv in E1 as Hp. apply int_div_float_inv in E3 as He.
  eexists (length sel.2), red, _, _. unfold after_embedding. rewrite E2, Hup.
  cbn [set_metrics set_completed set_upload set_embedding set_selection set_chunking
       set_parsing initial_stats status error steps_parsing steps_chunking steps_selection
       steps_embedding steps_upload total_time metrics].
  split; [exact Hk|]. split; [exact He|].
  repeat (split; [reflexivity|]).
  cbn [total_pages total_chunks_created chunks_uploaded].
  split; [lia|]. split; [lia|]. exact Hle.
Qed.

(** X24: on a document with at least one non-blank section and no
    lone surrogate on any page, with a model that returns one vector per
    text, the API key present, an index that is connected and acknowledges
    its first call, and an elapsed time other than zero, the pipeline ends
    with status "completed"; its metrics report the number of pages, the
    number of chunks, the double elapsed / pages as time per page, and as
    throughput the double pages / elapsed written with one decimal and
    followed by " pages/second". *)
Theorem pipeline_completes
    (file_path file_content : option PdfSource) (query : option pystr)
    (elapsed : float) (texts : list pystr) :
  parse_document file_path file_content = Ok texts ->
  kept_sections texts <> [] ->
  Forall (fun t => encodable t = true) texts ->
  model_total ->
  connect = None ->
  (forall batch, upsert 0 batch = None) ->
  is_zero elapsed = false ->
  let stats := fast_process_large_document file_path file_content query true elapsed in
  status stats = "completed"%string /\
  total_time stats = Some elapsed /\
  exists m, metrics stats = Some m /\
            total_pages m = length texts /\
            total_chunks_created m = length (intelligent_chunk_split texts 2000) /\
            time_per_page m = PrimFloat.div elapsed (float_of_nat (length texts)) /\
            throughput m
            = (format_f 1 (PrimFloat.div (float_of_nat (length texts)) elapsed)
               ++ " pages/second")%string.
Proof.
  intros Ep Hk Henc Hmodel Hconn Hidx He stats.
  destruct (pipeline_selects file_path file_content query texts Ep Hk)
    as (sel & red & Es & Er & Hl & Hle & Hse). specialize (Hse Henc).
  destruct (embed_hashed_spec new_embedder (map (fun c => chunk_text (sel.1 c)) sel.2) Hmodel)
    as (e' & vs & Eb & Lv & _).
  rewrite <- (embed_batch_encodable _ _ Hse) in Eb.
  assert (Ee : embed_chunks_parallel new_embedder sel.1 sel.2
               = Ok (e', fold_left attach_embedding (zip sel.2 vs) sel.1, sel.2)).
  { unfold embed_chunks_parallel. rewrite Eb. reflexivity. }
  unfold stats. rewrite (pipeline_after_embedding _ _ _ _ _ _ _ _ _ Ep Es Er Ee).
  cbv zeta. cbn [fst snd].
  set (h' := fold_left attach_embedding (zip sel.2 vs) sel.1).
  assert (Hrec : length (records_of (map h' sel.2)) <= length sel.2).
  { etransitivity; [apply records_of_full|]. rewrite length_map. reflexivity. }
  assert (Hh' : Forall (fun c => encodable (chunk_text c) = true) (map h' sel.2)).
  { rewrite length_map in Lv.
    destruct (attach_fold sel.2 vs sel.1 (eq_sym Lv)) as (I1 & _).
    apply List.Forall_forall. intros c Hc. apply in_map_iff in Hc as (l & <- & Hlin).
    destruct (I1 l) as (_ & Ht' & _). unfold h'. rewrite Ht'.
    rewrite List.Forall_forall in Hse.
    apply Hse. apply (in_map (fun c => chunk_text (sel.1 c))), Hlin. }
  assert (Eu : exists up, (async_upsert_to_pinecone true (map h' sel.2) 100).2 = Ok up).
  { rewrite (async_upsert_hashable true _ 100 Hconn (encodable_hashable _ Hh')).
    unfold upload_hashed. cbn [negb].
    rewrite upsert_fold_below by (cbn [upload_init vectors_to_upsert length]; lia).
    cbn [vectors_to_upsert uploaded_count calls upload_init app length].
    destruct (records_of (map h' sel.2)); [eexists; reflexivity|].
    rewrite Hidx. eexists; reflexivity. }
  destruct Eu as [up Eu]. rewrite Eu.
  assert (Hc : length (intelligent_chunk_split texts 2000) <> 0) by lia.
  destruct (percent_less_ok _ (length sel.2) Hc) as [ered Eered]. rewrite Eered.
  assert (Ht : length texts <> 0).
  { destruct texts; [exfalso; apply Hk; reflexivity | discriminate]. }
  rewrite float_div_int_ok by exact Ht.
  rewrite int_div_float_ok by exact He.
  split; [reflexivity|]. split; [reflexivity|].
  eexists. split; [reflexivity|]. cbn. auto.
Qed.

End PipelineTheorems2.

Lemma blank_document_reports_error_witness :
  let stats :=
    fast_process_large_document (H := ascii_folding) (H0 := plain_digest) (H1 := length_model)
      (H2 := steady_index) None (Some (Ok [Ok (lit "   "); Ok []])) None true one_second in
  status stats = "error"%string /\ steps_parsing stats = Some 2.
Proof.
  intros stats. unfold stats.
  rewrite (blank_document_reports_error (H := ascii_folding) (H0 := plain_digest)
             (H1 := length_model) (H2 := steady_index)
             None (Some (Ok [Ok (lit "   "); Ok []])) None true one_second [lit "   "; []]
             eq_refl eq_refl).
  split; reflexivity.
Defined.

Lemma missing_api_key_is_found_after_embedding_witness :
  let stats :=
    fast_process_large_document (H := ascii_folding) (H0 := plain_digest) (H1 := length_model)
      (H2 := steady_index) None (Some (Ok [Ok (lit "Payment terms")])) None false one_second in
  error stats = Some "PINECONE_API_KEY not set"%string.
Proof.
  intros stats.
  exact (proj1 (proj2
    (missing_api_key_is_found_after_embedding (H := ascii_folding) (H0 := plain_digest)
       (H1 := length_model) (H2 := steady_index)
       None (Some (Ok [Ok (lit "Payment terms")])) None one_second [lit "Payment terms"]
       eq_refl ltac:(vm_compute; discriminate) ltac:(repeat constructor)
       length_model_total))).
Defined.

Lemma embedding_failure_stops_before_upload_witness :
  let stats :=
    fast_process_large_document (H := ascii_folding) (H0 := plain_digest) (H1 := broken_model)
      (H2 := steady_index) None (Some (Ok [Ok (lit "Payment terms")])) None true one_second in
  error stats = Some "model unavailable"%string.
Proof.
  intros stats.
  exact (proj1 (proj2
    (embedding_failure_stops_before_upload (H := ascii_folding) (H0 := plain_digest)
       (H1 := broken_model) (H2 := steady_index)
       None (Some (Ok [Ok (lit "Payment terms")])) None true one_second
       [lit "Payment terms"] (Exception "model unavailable")
       eq_refl ltac:(vm_compute; discriminate) ltac:(repeat constructor)
       (fun _ => eq_refl)))).
Defined.

Lemma completed_run_is_consistent_witness :
  let stats :=
    fast_process_large_document (H := ascii_folding) (H0 := plain_digest) (H1 := length_model)
      (H2 := steady_index) None (Some (Ok [Ok (lit "Payment terms")])) None true one_second in
  exists n, steps_upload stats
            = Some {| total_chunks := n; uploaded_chunks := n; upload_status := "success" |}.
Proof.
  intros stats.
  destruct (completed_run_is_consistent (H := ascii_folding) (H0 := plain_digest)
              (H1 := length_model) (H2 := steady_index)
              None (Some (Ok [Ok (lit "Payment terms")])) None true one_second
              ltac:(vm_compute; reflexivity))
    as (n & red & cached & m & _ & _ & _ & _ & _ & Hu & _).
  exists n. exact Hu.
Defined.

Lemma pipeline_completes_witness :
  let stats :=
    fast_process_large_document (H := ascii_folding) (H0 := plain_digest) (H1 := length_model)
      (H2 := steady_index) None (Some (Ok [Ok (lit "Payment terms")]))
      (Some (lit "payment")) true (float_of_Z 2) in
  status stats = "completed"%string /\
  exists m, metrics stats = Some m /\ throughput m = "0.5 pages/second"%string.
Proof.
  intros stats.
  destruct (pipeline_completes (H := ascii_folding) (H0 := plain_digest) (H1 := length_model)
       (H2 := steady_index)
       None (Some (Ok [Ok (lit "Payment terms")])) (Some (lit "payment")) (float_of_Z 2)
       [lit "Payment terms"]
       eq_refl ltac:(vm_compute; discriminate) ltac:(repeat constructor)
       length_model_total eq_refl (fun _ => eq_refl) eq_refl)
    as (Hs & _ & m & Hm & _ & _ & _ & Ht).
  split; [exact Hs|]. exists m. split; [exact Hm|]. rewrite Ht. vm_compute. reflexivity.
Defined.
(** *** Upload API *)

Lemma dict_get_set_eq {V} (k : string) (v : V) (d : dict V) :
  dict_get k (dict_set k v d) = Some v.
Proof.
  induction d as [|[k' v'] d IH]; cbn [dict_set dict_get].
  - rewrite String.eqb_refl. reflexivity.
  - destruct (String.eqb k k') eqn:E; cbn [dict_get]; [rewrite String.eqb_refl|rewrite E];
      auto.
Qed.

Lemma dict_get_set_ne {V} (k k' : string) (v : V) (d : dict V) :
  k <> k' -> dict_get k' (dict_set k v d) = dict_get k' d.
Proof.
  intros Hne. induction d as [|[k0 v0] d IH]; cbn [dict_set dict_get].
  - destruct (String.eqb_spec k' k); [congruence | reflexivity].
  - destruct (String.eqb_spec k k0) as [->|Hk]; cbn [dict_get].
    + destruct (String.eqb_spec k' k0); [congruence | reflexivity].
    + destruct (String.eqb_spec k' k0); [reflexivity | exact IH].
Qed.

Lemma update_job_found (job_id : string) (f : Job -> Job) (s : jobs_store) j :
  dict_get job_id s = Some j ->
  update_job job_id f s = (dict_set job_id (f j) s, Ok tt).
Proof. intros E. unfold update_job. rewrite E. reflexivity. Qed.

Lemma jbind_update {B} (job_id : string) (f : Job -> Job) (k : unit -> J B)
    (s : jobs_store) j :
  dict_get job_id s = Some j ->
  jbind (update_job job_id f) k s = k tt (dict_set job_id (f j) s).
Proof. intros E. unfold jbind. rewrite (update_job_found _ _ _ _ E). reflexivity. Qed.

Lemma jbind_suspend {B} (others : jobs_store -> jobs_store) (k : unit -> J B)
    (s : jobs_store) :
  jbind (suspend others) k s = k tt (others s).
Proof. reflexivity. Qed.

Section ApiFacts.
Context `{CaseFolding} `{Digest} `{EmbeddingModel} `{VectorIndex} `{Analyzer}.

(** The task on a store that holds the job, when the other tasks leave the
    job alone. *)
Lemma process_in_background_job (job_id : string) (file : UploadFile)
    (query : option pystr) (api_key : bool) (elapsed : float)
    (started_at completed_at : string) (at_read at_run : jobs_store -> jobs_store)
    (jobs : jobs_store) (job : Job) :
  (forall s, dict_get job_id (at_read s) = dict_get job_id s) ->
  (forall s, dict_get job_id (at_run s) = dict_get job_id s) ->
  dict_get job_id jobs = Some job ->
  let final := process_in_background job_id file query api_key elapsed
                 started_at completed_at at_read at_run jobs in
  final.2 = Ok tt /\
  dict_get job_id final.1
  = Some
      match read file with
      | Raise e =>
          set_job_error (exn_str e)
            (set_status "error" (set_started_at started_at (set_status "processing" job)))
      | Ok file_content =>
          let done :=
            set_processing_stats
              (fast_process_large_document None file_content query api_key elapsed)
              (set_completed_at completed_at
                 (set_status "completed"
                    (set_started_at started_at (set_status "processing" job)))) in
          match query with
          | Some (c :: q) =>
              set_status "completed"
                (match run (c :: q) with
                 | Ok a => set_analysis a
                 | Raise e => set_analysis_error (exn_str e)
                 end (set_status "analyzing" done))
          | _ => done
          end
      end.
Proof.
  intros Hread Hrun Hget final.
  assert (G : exists s', final = (s', Ok tt) /\ dict_get job_id s' = Some
      match read file with
      | Raise e =>
          set_job_error (exn_str e)
            (set_status "error" (set_started_at started_at (set_status "processing" job)))
      | Ok file_content =>
          let done :=
            set_processing_stats
              (fast_process_large_document None file_content query api_key elapsed)
              (set_completed_at completed_at
                 (set_status "completed"
                    (set_started_at started_at (set_status "processing" job)))) in
          match query with
          | Some (c :: q) =>
              set_status "completed"
                (match run (c :: q) with
                 | Ok a => set_analysis a
                 | Raise e => set_analysis_error (exn_str e)
                 end (set_status "analyzing" done))
          | _ => done
          end
      end).
  2:{ destruct G as (s' & -> & G). split; [reflexivity | exact G]. }
  unfold final, process_in_background, try_except.
  rewrite (jbind_update _ _ _ _ _ Hget).
  rewrite (jbind_update _ _ _ _ _ (dict_get_set_eq _ _ _)).
  rewrite jbind_suspend.
  match goal with |- context [at_read ?s] =>
    pose proof (eq_trans (Hread s) (dict_get_set_eq _ _ _)) as G3; set (s3 := at_read s) in *
  end.
  destruct (read file) as [content|e].
  - unfold jbind at 1. unfold jlift at 1.
    rewrite (jbind_update _ _ _ _ _ G3). cbv zeta.
    destruct query as [[|c q]|]; cbn [jret].
    + eexists. split; [reflexivity | apply dict_get_set_eq].
    + rewrite (jbind_update _ _ _ _ _ (dict_get_set_eq _ _ _)).
      unfold jbind at 1. rewrite jbind_suspend.
      match goal with |- context [at_run ?s] =>
        pose proof (eq_trans (Hrun s) (dict_get_set_eq _ _ _)) as G6; set (s6 := at_run s) in *
      end.
      unfold jbind at 1. unfold jlift at 1.
      destruct (run (c :: q)) as [a|e].
      * rewrite (update_job_found _ _ _ _ G6).
        rewrite (update_job_found _ _ _ _ (dict_get_set_eq _ _ _)).
        eexists. split; [reflexivity | apply dict_get_set_eq].
      * rewrite (update_job_found _ _ _ _ G6).
        rewrite (update_job_found _ _ _ _ (dict_get_set_eq _ _ _)).
        eexists. split; [reflexivity | apply dict_get_set_eq].
    + eexists. split; [reflexivity | apply dict_get_set_eq].
  - unfold jbind at 1. unfold jlift at 1.
    rewrite (jbind_update _ _ _ _ _ G3).
    rewrite (update_job_found _ _ _ _ (dict_get_set_eq _ _ _)).
    eexists. split; [reflexivity | apply dict_get_set_eq].
Qed.

End ApiFacts.

Section ApiTheorems.
Context `{CaseFolding} `{Digest} `{EmbeddingModel} `{VectorIndex} `{Analyzer}.

(** X25: after an accepted upload, when the other tasks leave the job
    alone, the background task ends without an exception and the status
    endpoint then reports the job as "completed" with progress 100 and the
    statistics of the pipeline whenever the file could be read (also when
    those statistics report an error or when the analysis raised, in which
    case no analysis is shown), and as "error" with progress 0 and the
    message of the exception when reading the file raised. *)
Theorem accepted_upload_job_outcome (file : UploadFile) (query : option pystr)
    (job_id now : string) (jobs : jobs_store) (api_key : bool) (elapsed : float)
    (started_at completed_at : string) (at_read at_run : jobs_store -> jobs_store) :
  supported_type (content_type file) = true ->
  (forall s, dict_get job_id (at_read s) = dict_get job_id s) ->
  (forall s, dict_get job_id (at_run s) = dict_get job_id s) ->
  let queued := (fast_upload_and_analyze file query job_id now jobs).1 in
  let final := process_in_background job_id file query api_key elapsed
                 started_at completed_at at_read at_run queued in
  final.2 = Ok tt /\
  exists r,
    get_job_status job_id final.1 = JSONResponse r /\
    match read file with
    | Raise e =>
        st_status r = "error"%string /\ st_progress r = 0%Z /\
        st_error r = Some (exn_str e) /\ st_processing_stats r = None /\
        st_analysis r = None
    | Ok file_content =>
        st_status r = "completed"%string /\ st_progress r = 100%Z /\
        st_error r = None /\
        st_processing_stats r
        = Some (fast_process_large_document None file_content query api_key elapsed) /\
        st_analysis r = match query with
                        | Some (c :: q) =>
                            match run (c :: q) with
                            | Ok a => Some a
                            | Raise _ => None
                            end
                        | _ => None
                        end
    end.
Proof.
  intros Ht Hread Hrun queued final.
  assert (Hq : dict_get job_id queued = Some (new_job file query now)).
  { unfold queued, fast_upload_and_analyze. rewrite Ht. cbn [negb fst].
    apply dict_get_set_eq. }
  destruct (process_in_background_job job_id file query api_key elapsed started_at
              completed_at at_read at_run queued _ Hread Hrun Hq) as [Hok Hjob].
  fold final in Hok, Hjob. split; [exact Hok|].
  unfold get_job_status. rewrite Hjob.
  destruct (read file) as [content|e].
  - destruct query as [[|c q]|]; cbv zeta; try (eexists; split; [reflexivity|];
      cbn; repeat split; reflexivity).
    destruct (run (c :: q)); eexists; (split; [reflexivity|]); cbn; repeat split; reflexivity.
  - eexists. split; [reflexivity|]. cbn. repeat split; reflexivity.
Qed.

(** X26: a job created by the batch upload never holds the key
    "query", so the status endpoint raises KeyError for it instead of
    replying; the job belongs to its batch, ends "completed" with the
    statistics of the pipeline when the file could be read, and stays
    "queued" when reading raised, an exception that leaves the task. *)
Theorem batch_job_has_no_status_page (batch_id job_id : string) (file : UploadFile)
    (query : option pystr) (api_key : bool) (elapsed : float) (now : string)
    (at_read : jobs_store -> jobs_store) (job_ids : list string) (jobs : jobs_store) :
  (forall s, dict_get job_id (at_read s) = dict_get job_id s) ->
  let final := (upload_file batch_id job_id file query api_key elapsed now at_read job_ids).2
                 jobs in
  final.2 = match read file with Ok _ => Ok tt | Raise e => Raise e end /\
  get_job_status job_id final.1 = Unhandled (KeyError "'query'") /\
  exists job,
    dict_get job_id final.1 = Some job /\
    job_batch_id job = Some batch_id /\
    job_status job = match read file with
                     | Ok _ => "completed"%string
                     | Raise _ => "queued"%string
                     end /\
    job_processing_stats job
    = match read file with
      | Ok file_content =>
          Some (fast_process_large_document None file_content query api_key elapsed)
      | Raise _ => None
      end.
Proof.
  intros Hread final.
  assert (G : exists s' job,
    final = (s', match read file with Ok _ => Ok tt | Raise e => Raise e end) /\
    dict_get job_id s' = Some job /\ job_query job = None /\
    job_batch_id job = Some batch_id /\
    job_status job = match read file with
                     | Ok _ => "completed"%string
                     | Raise _ => "queued"%string
                     end /\
    job_processing_stats job
    = match read file with
      | Ok file_content =>
          Some (fast_process_large_document None file_content query api_key elapsed)
      | Raise _ => None
      end).
  { unfold final, upload_file. cbn [snd]. unfold jbind at 1. rewrite jbind_suspend.
    match goal with |- context [at_read ?s] =>
      pose proof (eq_trans (Hread s) (dict_get_set_eq _ _ _)) as G1; set (s1 := at_read s) in *
    end.
    unfold jbind at 1. unfold jlift at 1. destruct (read file) as [content|e].
    - unfold try_except. rewrite (update_job_found _ _ _ _ G1).
      eexists _, _. split; [reflexivity|]. split; [apply dict_get_set_eq|].
      repeat split; reflexivity.
    - eexists _, _. split; [reflexivity|]. split; [exact G1|]. repeat split; reflexivity. }
  destruct G as (s' & job & -> & Hj & Hq & Hb & Hs & Hp). cbn [fst snd].
  split; [reflexivity|]. split.
  - unfold get_job_status. rewrite Hj, Hq. reflexivity.
  - exists job. auto.
Qed.

End ApiTheorems.

Lemma count_disjoint {A} (p q r : A -> bool) (l : list A) :
  (forall x, p x && q x = false) -> (forall x, p x && r x = false) ->
  (forall x, q x && r x = false) ->
  length (List.filter p l) + length (List.filter q l) + length (List.filter r l) <= length l.
Proof.
  intros Hpq Hpr Hqr. induction l as [|x l IH]; [cbn; lia|].
  cbn [List.filter length]. specialize (Hpq x). specialize (Hpr x). specialize (Hqr x).
  destruct (p x), (q x), (r x); cbn [length] in *; try discriminate; lia.
Qed.

Lemma status_disjoint (s a b : string) :
  a <> b -> String.eqb s a && String.eqb s b = false.
Proof.
  intros Hab. destruct (String.eqb_spec s a) as [->|]; [|reflexivity].
  destruct (String.eqb_spec a b); [contradiction | reflexivity].
Qed.

(** X27: the batch status endpoint never fails with an unhandled
    exception: it raises HTTP 404 exactly when no job belongs to the
    batch; otherwise it lists the jobs of the batch in the order of the
    store, reports at least one job, counts completed, failed and
    processing jobs that together do not exceed the total, and reports as
    progress the double completed / total * 100 written with one decimal
    and followed by a percent sign. *)
Theorem batch_status_counts (batch_id : string) (jobs : jobs_store) :
  match get_batch_status batch_id jobs with
  | HTTPException code _ =>
      code = 404%Z /\ Forall (fun it => job_batch_id it.2 <> Some batch_id) jobs
  | JSONResponse r =>
      Exists (fun it => job_batch_id it.2 = Some batch_id) jobs /\
      1 <= bt_total_jobs r /\
      map (fun j => j.1.1) (bt_jobs r)
      = map fst (List.filter (fun it => bool_decide (job_batch_id it.2 = Some batch_id)) jobs) /\
      length (bt_jobs r) = bt_total_jobs r /\
      bt_completed r + bt_failed r + bt_processing r <= bt_total_jobs r /\
      bt_progress r
      = (format_f 1 (PrimFloat.mul
                       (PrimFloat.div (float_of_nat (bt_completed r))
                                      (float_of_nat (bt_total_jobs r)))
                       (float_of_Z 100)) ++ "%")%string
  | Unhandled _ => False
  end.
Proof.
  unfold get_batch_status.
  assert (Hin : forall it : string * Job,
             in_batch batch_id it = bool_decide (job_batch_id it.2 = Some batch_id)).
  { intros it. unfold in_batch. destruct (job_batch_id it.2) as [b|].
    - destruct (String.eqb_spec b batch_id) as [->|Hne].
      + rewrite bool_decide_eq_true_2; reflexivity.
      + rewrite bool_decide_eq_false_2; [reflexivity | congruence].
    - rewrite bool_decide_eq_false_2; [reflexivity | discriminate]. }
  rewrite (List.filter_ext _ _ Hin).
  set (batch_jobs := List.filter _ jobs).
  destruct batch_jobs as [|it0 rest] eqn:Eb.
  - split; [reflexivity|]. apply List.Forall_forall. intros it Hit Hb.
    assert (Hi : In it batch_jobs).
    { unfold batch_jobs. apply List.filter_In. split; [exact Hit|].
      apply bool_decide_eq_true_2, Hb. }
    rewrite Eb in Hi. destruct Hi.
  - rewrite <- Eb. unfold int_truediv.
    assert (Hlen : length batch_jobs <> 0) by (rewrite Eb; discriminate).
    destruct (Z.eqb_spec (Z.of_nat (length batch_jobs)) 0) as [E|E]; [lia|].
    cbn [rbind bt_total_jobs bt_completed bt_failed bt_processing bt_progress bt_jobs].
    split; [|split; [lia|split; [|split; [|split]]]].
    + apply List.Exists_exists. exists it0.
      assert (Hi : In it0 batch_jobs) by (rewrite Eb; left; reflexivity).
      unfold batch_jobs in Hi. apply List.filter_In in Hi as [Hi Hb].
      apply bool_decide_eq_true_1 in Hb. auto.
    + rewrite map_map. reflexivity.
    + apply length_map.
    + unfold count_jobs. apply (count_disjoint (fun it : string * Job => _) (fun it => _)
                                  (fun it => _)); intros it.
      * apply status_disjoint. discriminate.
      * rewrite andb_orb_distrib_r, !status_disjoint by discriminate. reflexivity.
      * rewrite andb_orb_distrib_r, !status_disjoint by discriminate. reflexivity.
    + reflexivity.
Qed.

(** One job of a batch of three is completed: the progress is "33.3%". *)
Example batch_progress_one_of_three :
  let file := {| content_type := Some "application/pdf"%string; filename := "a.pdf";
                 read := Ok (Some (Ok [Ok (lit "Payment terms")])) |} in
  let job st := set_status st (new_batch_job "batch1" file "t0") in
  option_map bt_progress
    (match get_batch_status "batch1"
             [("j1", job "completed"); ("j2", job "queued"); ("j3", job "error")]%string with
     | JSONResponse r => Some r
     | _ => None
     end)
  = Some "33.3%"%string.
Proof. vm_compute. reflexivity. Qed.

Lemma accepted_upload_job_outcome_witness :
  let file := {| content_type := Some "text/plain"%string; filename := "notes.txt";
                 read := Ok (Some (Raise (Exception "not a PDF"))) |} in
  let queued := (fast_upload_and_analyze file None "job1" "t0" []).1 in
  let final := process_in_background (H := ascii_folding) (H0 := plain_digest)
                 (H1 := length_model) (H2 := steady_index) (H3 := echo_analyzer)
                 "job1" file None true one_second "t1" "t2" id id queued in
  exists r,
    get_job_status "job1" final.1 = JSONResponse r /\
    st_status r = "completed"%string /\ st_progress r = 100%Z /\
    option_map status (st_processing_stats r) = Some "error"%string.
Proof.
  intros file queued final.
  destruct (accepted_upload_job_outcome (H := ascii_folding) (H0 := plain_digest)
              (H1 := length_model) (H2 := steady_index) (H3 := echo_analyzer)
              file None "job1" "t0" [] true one_second "t1" "t2" id id
              eq_refl (fun _ => eq_refl) (fun _ => eq_refl))
    as (_ & r & Hr & Hs & Hp & _ & Hstats & _).
  exists r. split; [exact Hr|]. split; [exact Hs|]. split; [exact Hp|].
  rewrite Hstats. reflexivity.
Defined.

Lemma batch_job_has_no_status_page_witness :
  let file := {| content_type := Some "application/pdf"%string; filename := "a.pdf";
                 read := Ok (Some (Ok [Ok (lit "Payment terms")])) |} in
  let final := (upload_file (H := ascii_folding) (H0 := plain_digest) (H1 := length_model)
                  (H2 := steady_index) "batch1" "job1" file None true one_second "t0" id []).2 [] in
  get_job_status "job1" final.1 = Unhandled (KeyError "'query'").
Proof.
  intros file final.
  exact (proj1 (proj2
    (batch_job_has_no_status_page (H := ascii_folding) (H0 := plain_digest)
       (H1 := length_model) (H2 := steady_index)
       "batch1" "job1" file None true one_second "t0" id [] [] (fun _ => eq_refl)))).
Defined.
